(** * The thumbnail pipeline of [scripts/process-images.mjs]

    A shallow embedding of the image-derivation script: POSIX path
    algebra as the script uses it from [node:path], the magic-byte format
    detector, the modification-time staleness test, the two converter
    backends, and the orchestrator [main] with its single conditional
    rewrite of [src/_data/videos.json].

    The host (the installed tools, what a spawned tool does to the disk,
    the JSON codec, the working directory, the writes the operating
    system refuses) is a parameter of every definition; a concrete host is defined afterwards and used for closed
    evaluations only. *)

From Stdlib Require Import ZArith Ascii String List Bool DecimalString.
From Stdlib Require Import Init.Byte Strings.Byte.
From stdpp Require Import gmap strings list.

(** ** [node:path], POSIX flavour

    Strings are split into segments at ['/'], the segments are normalised
    as [normalizeString] of Node does, and glued back. *)
Module Path.

(** [s.split("/")]: always at least one segment. *)
Fixpoint split (s : string) : list string :=
  match s with
  | EmptyString => [""]
  | String c s' =>
      if Ascii.eqb c "/" then "" :: split s'
      else match split s' with
           | seg :: rest => String c seg :: rest
           | [] => [String c ""]
           end
  end.

(** One segment of Node's [normalizeString]; [acc] holds the segments kept
    so far, innermost first. *)
Definition normStep (allowAboveRoot : bool) (acc : list string) (seg : string)
  : list string :=
  if decide (seg = "" ∨ seg = ".") then acc
  else if decide (seg = "..") then
    match acc with
    | top :: below =>
        if decide (top = "..")
        then (if allowAboveRoot then ".." :: acc else acc)
        else below
    | [] => if allowAboveRoot then [".."] else []
    end
  else seg :: acc.

Definition normalizeSegs (allowAboveRoot : bool) (segs : list string)
  : list string :=
  rev (fold_left (normStep allowAboveRoot) segs []).

Definition isAbsolute (p : string) : bool := String.prefix "/" p.

Fixpoint endsWithSlash (p : string) : bool :=
  match p with
  | EmptyString => false
  | String c EmptyString => Ascii.eqb c "/"
  | String _ rest => endsWithSlash rest
  end.

(** [path.normalize] *)
Definition normalize (p : string) : string :=
  if decide (p = "") then "."
  else
    let body := String.concat "/" (normalizeSegs (negb (isAbsolute p)) (split p)) in
    if decide (body = "") then
      (if isAbsolute p then "/" else if endsWithSlash p then "./" else ".")
    else
      (if isAbsolute p then "/" else "") +:+ body
        +:+ (if endsWithSlash p then "/" else "").

(** [path.join(...args)]: zero-length arguments are skipped. *)
Definition join (args : list string) : string :=
  match filter (λ a, a ≠ "") args with
  | [] => "."
  | parts => normalize (String.concat "/" parts)
  end.

Fixpoint dropCommon (from to : list string) : list string * list string :=
  match from, to with
  | x :: from', y :: to' =>
      if decide (x = y) then dropCommon from' to' else (from, to)
  | _, _ => (from, to)
  end.

(** [path.relative(from, to)].  Both arguments are absolute at every call
    of the script, so [path.resolve] only normalises them and the working
    directory never enters. *)
Definition relative (from to : string) : string :=
  let '(up, down) :=
    dropCommon (normalizeSegs false (split from)) (normalizeSegs false (split to)) in
  String.concat "/" (map (λ _, "..") up ++ down).

(** Index of the last ['.'] of a base name. *)
Fixpoint lastDot (s : string) : option nat :=
  match s with
  | EmptyString => None
  | String c s' =>
      match lastDot s' with
      | Some k => Some (S k)
      | None => if Ascii.eqb c "." then Some 0 else None
      end
  end.

(** The [name] of [path.parse]: the base name without its extension; a
    leading dot does not start an extension and [".."] has none. *)
Definition stem (base : string) : string :=
  if decide (base = "..") then base
  else match lastDot base with
       | Some (S k) => String.substring 0 (S k) base
       | _ => base
       end.

Fixpoint dropTrailingEmpty (rsegs : list string) : list string :=
  match rsegs with
  | "" :: rest => dropTrailingEmpty rest
  | _ => rsegs
  end.

Record Parsed := { dir : string; base : string; name : string }.

(** [path.parse], the three fields the script reads or that determine
    them.  Trailing separators are ignored. *)
Definition parse (p : string) : Parsed :=
  match dropTrailingEmpty (rev (split p)) with
  | [] => {| dir := if isAbsolute p then "/" else ""; base := ""; name := "" |}
  | b :: rbefore =>
      let d := String.concat "/" (rev rbefore) in
      {| dir := if decide (d = "") then (if isAbsolute p then "/" else "") else d;
         base := b;
         name := stem b |}
  end.

End Path.

(** ** The world the script runs in *)

(** A directory entry.  [mtimeMs] is the [mtimeMs] of [fs.statSync]; the
    script only compares two of them with [>], so the order of an integer
    tick count is all that is modelled.  A node that exists but cannot be
    opened for reading (no permission, or a directory) has
    [readable = false]. *)
Record File := { content : list byte; mtimeMs : Z; readable : bool }.

Record Disk := { files : gmap string File; now : Z }.

(** What [spawnSync] hands back, and the disk the child process leaves. *)
Record SpawnResult := {
  status : option Z;        (* [null] when the child was killed or never started *)
  stderr : option string;
  after : Disk
}.

(** Parsed JSON.  Objects keep their keys in insertion order.  Numbers
    are opaque to the script except for truthiness; integers stand for
    them. *)
#[warnings="-register-all"] Inductive json :=
| JNull
| JBool (b : bool)
| JNum (n : Z)
| JStr (s : string)
| JArr (items : list json)
| JObj (fields : list (string * json)).

Record Host := {
  cwd : string;                                          (* [process.cwd()] *)
  spawnSync : string → list string → Disk → SpawnResult;
  JSON_parse : string → option json;                     (* [None]: SyntaxError *)
  JSON_stringify : json → string;                        (* [JSON.stringify(v, null, 2)] *)
  (* [Some e]: the operating system refuses to open the path for writing *)
  writeRefused : string → Disk → option string
}.

(** Everything observable from outside the process, in order. *)
Inductive Event :=
| Spawn (command : string) (args : list string)
| WriteFile (path : string) (data : string)
| Warn (message : string)
| Log (message : string).

Record State := { disk : Disk; trace : list Event }.

(** ** Exceptions and state *)

Inductive Outcome (A : Type) :=
| Ok (a : A)
| Throw (message : string).
Arguments Ok {A} a.
Arguments Throw {A} message.

Definition Run (A : Type) : Type := State → Outcome A * State.

Definition ret {A} (a : A) : Run A := λ st, (Ok a, st).
Definition throw {A} (message : string) : Run A := λ st, (Throw message, st).
Definition bind {A B} (m : Run A) (k : A → Run B) : Run B :=
  λ st, match m st with
        | (Ok a, st') => k a st'
        | (Throw e, st') => (Throw e, st')
        end.

Notation "'let*' x ':=' m 'in' k" := (bind m (λ x, k))
  (at level 10, x pattern, m at level 100, k at level 200).
Notation "m ';;' k" := (bind m (λ _, k))
  (at level 100, k at level 200, right associativity).

Definition emit (e : Event) : Run unit :=
  λ st, (Ok tt, {| disk := disk st; trace := trace st ++ [e] |}).

(** ** JavaScript values *)

(** [v.k] on a parsed value other than [null]; [None] is [undefined]. *)
Fixpoint lookupField (k : string) (fields : list (string * json)) : option json :=
  match fields with
  | [] => None
  | (k', y) :: rest => if decide (k' = k) then Some y else lookupField k rest
  end.

Definition getProp (k : string) (v : json) : option json :=
  match v with
  | JObj fields => lookupField k fields
  | _ => None
  end.

(** [obj.k = x]: an existing key keeps its place, a new one goes last. *)
Fixpoint setField (k : string) (x : json) (fields : list (string * json))
  : list (string * json) :=
  match fields with
  | [] => [(k, x)]
  | (k', y) :: rest =>
      if decide (k' = k) then (k, x) :: rest else (k', y) :: setField k x rest
  end.

Definition truthy (v : option json) : bool :=
  match v with
  | None | Some JNull => false
  | Some (JBool b) => b
  | Some (JNum n) => negb (n =? 0)%Z
  | Some (JStr s) => negb (bool_decide (s = ""))
  | Some (JArr _) | Some (JObj _) => true
  end.

(** [a !== s] for a string [s]. *)
Definition differs (a : option json) (s : string) : bool :=
  match a with
  | Some (JStr t) => negb (bool_decide (t = s))
  | _ => true
  end.

(** Strings stand for JavaScript strings through their UTF-8 bytes.
    [utf8 c] is the encoding of a code point of the basic plane. *)
Definition utf8 (codePoint : N) : string :=
  let byte (n : N) := ascii_of_N n in
  if (codePoint <? 0x80)%N then String (byte codePoint) ""
  else if (codePoint <? 0x800)%N then
    String (byte (0xC0 + codePoint / 0x40)%N)
      (String (byte (0x80 + codePoint mod 0x40)%N) "")
  else
    String (byte (0xE0 + codePoint / 0x1000)%N)
      (String (byte (0x80 + (codePoint / 0x40) mod 0x40)%N)
         (String (byte (0x80 + codePoint mod 0x40)%N) "")).

(** The code points [String.prototype.trim] strips: ECMAScript's
    WhiteSpace (tab, vertical tab, form feed, the byte order mark and
    the space separators of Unicode) and LineTerminator. *)
Definition whiteSpace : list string :=
  utf8 <$> [0x09; 0x0B; 0x0C; 0xFEFF;
            0x20; 0xA0; 0x1680;
            0x2000; 0x2001; 0x2002; 0x2003; 0x2004; 0x2005;
            0x2006; 0x2007; 0x2008; 0x2009; 0x200A;
            0x202F; 0x205F; 0x3000;
            0x0A; 0x0D; 0x2028; 0x2029]%N.

Definition isWhiteSpace (s : string) : bool := bool_decide (s ∈ whiteSpace).

(** [String.prototype.trimStart]: white-space code points of one, two
    or three bytes are dropped from the front. *)
Fixpoint trimStart (s : string) : string :=
  match s with
  | String a r1 =>
      if isWhiteSpace (String a "") then trimStart r1
      else
        match r1 with
        | String b r2 =>
            if isWhiteSpace (String a (String b "")) then trimStart r2
            else
              match r2 with
              | String c r3 =>
                  if isWhiteSpace (String a (String b (String c ""))) then trimStart r3
                  else s
              | EmptyString => s
              end
        | EmptyString => s
        end
  | EmptyString => s
  end.

(** [String.prototype.trimEnd]: going back from the end, what is left
    of the tail is dropped whenever it is one white-space code point. *)
Fixpoint trimEnd (s : string) : string :=
  match s with
  | EmptyString => ""
  | String c rest =>
      let kept := String c (trimEnd rest) in
      if isWhiteSpace kept then "" else kept
  end.

(** [String.prototype.trim] *)
Definition trim (s : string) : string := trimEnd (trimStart s).

Inductive ImageType := png | jpeg | other.
Inductive Converter := ffmpeg | sips_cwebp.

Definition converterName (c : Converter) : string :=
  match c with ffmpeg => "ffmpeg" | sips_cwebp => "sips-cwebp" end.

Definition showNat (n : nat) : string := NilZero.string_of_uint (Nat.to_uint n).

#[global] Instance byte_eq_decision : EqDecision byte := byte_eq_dec.

(** The 8-byte PNG signature of [isPng]. *)
Definition pngSignature : list byte := [x89; x50; x4e; x47; x0d; x0a; x1a; x0a].

(** How one entry left the loop body: through a [continue], or through
    the end of the body with or without a change to the entry. *)
Inductive Verdict := Skipped | Kept | Rewritten.

(** The loop variables of [main]: the array with the entries visited so
    far, [processed] and [updatedData]. *)
Record Pass := { entries : list json; processed : nat; updatedData : bool }.

(** ** The script *)
Section Script.

Context (h : Host).

Definition projectRoot : string := cwd h.

Definition videosPath : string :=
  Path.join [projectRoot; "src"; "_data"; "videos.json"].

(** *** [node:fs] and [node:child_process] *)

Definition existsSync (p : string) : Run bool :=
  λ st, (Ok (bool_decide (is_Some (files (disk st) !! p))), st).

(** [fs.statSync(p).mtimeMs] *)
Definition statSync_mtimeMs (p : string) : Run Z :=
  λ st, match files (disk st) !! p with
        | Some f => (Ok (mtimeMs f), st)
        | None => (Throw ("ENOENT: no such file or directory, stat " +:+ p), st)
        end.

(** Opening [p] for reading and taking its bytes. *)
Definition readBytes (p : string) : Run (list byte) :=
  λ st, match files (disk st) !! p with
        | Some f =>
            if readable f then (Ok (content f), st)
            else (Throw ("EACCES: cannot read " +:+ p), st)
        | None => (Throw ("ENOENT: no such file or directory, open " +:+ p), st)
        end.

(** [fs.writeFileSync(p, data)]: the path is opened for writing, which
    the operating system may refuse (a missing directory, a file or a
    directory without write permission): the call then throws and the
    disk is as before.  Otherwise the file is replaced and stamped with
    the current time.  A write that breaks off after the file was
    opened (a full device) is not modelled. *)
Definition writeFileSync (p : string) (data : string) : Run unit :=
  λ st,
    let d := disk st in
    match writeRefused h p d with
    | Some e => (Throw e, st)
    | None =>
        let mode := match files d !! p with Some f => readable f | None => true end in
        let f := {| content := list_byte_of_string data; mtimeMs := now d; readable := mode |} in
        (Ok tt, {| disk := {| files := <[p := f]> (files d); now := now d |};
                   trace := trace st ++ [WriteFile p data] |})
    end.

(** [spawnSync(command, args)]: the child runs to completion and the
    script sees the disk it leaves. *)
Definition spawn (command : string) (args : list string) : Run SpawnResult :=
  λ st,
    let r := spawnSync h command args (disk st) in
    (Ok r, {| disk := after r; trace := trace st ++ [Spawn command args] |}).

(** *** Lines 10-35 *)

Definition readJson (filePath : string) : Run json :=
  let* bytes := readBytes filePath in
  match JSON_parse h (string_of_list_byte bytes) with
  | Some v => ret v
  | None => throw ("SyntaxError: " +:+ filePath +:+ " is not valid JSON")
  end.

Definition writeJson (filePath : string) (data : json) : Run unit :=
  writeFileSync filePath (JSON_stringify h data +:+ String "010" "").

Definition fileExists (filePath : string) : Run bool := existsSync filePath.

Definition commandExists (command : string) : Run bool :=
  let* result := spawn "sh" ["-lc"; "command -v " +:+ command] in
  ret (bool_decide (status result = Some 0%Z)).

Definition runCommand (command : string) (args : list string) : Run unit :=
  let* result := spawn command args in
  if bool_decide (status result = Some 0%Z) then ret tt
  else
    let stderr :=
      match trim <$> stderr result with
      | Some (String c s) => String c s
      | _ => "Unknown conversion error"
      end in
    throw (command +:+ " failed: " +:+ stderr).

(** *** Lines 37-66: format detector and staleness tracker *)

(** The buffer is allocated zero-filled and a short file leaves the
    tail untouched. *)
Definition readSignature (filePath : string) (length : nat) : Run (list byte) :=
  let* bytes := readBytes filePath in
  ret (take length (bytes ++ replicate length x00)).

Definition isPng (filePath : string) : Run bool :=
  let* signature := readSignature filePath 8 in
  ret (bool_decide (signature = pngSignature)).

Definition isJpeg (filePath : string) : Run bool :=
  let* signature := readSignature filePath 3 in
  ret (bool_decide (signature !! 0 = Some xff)
       && bool_decide (signature !! 1 = Some xd8)
       && bool_decide (signature !! 2 = Some xff)).

Definition detectImageType (filePath : string) : Run ImageType :=
  let* isP := isPng filePath in
  if isP then ret png
  else
    let* isJ := isJpeg filePath in
    if isJ then ret jpeg else ret other.

Definition shouldGenerate (sourcePath outputPath : string) : Run bool :=
  let* present := fileExists outputPath in
  if negb present then ret true
  else
    let* sourceTime := statSync_mtimeMs sourcePath in
    let* outputTime := statSync_mtimeMs outputPath in
    ret (outputTime <? sourceTime)%Z.

(** *** Lines 68-101: converter backends *)

(** [if (shouldGenerate(sourcePath, outputPath)) { convert }], the shape of
    both statements of each backend. *)
Definition whenStale (sourcePath outputPath : string) (convert : Run unit) : Run unit :=
  let* stale := shouldGenerate sourcePath outputPath in
  if stale then convert else ret tt.

Definition convertWithFfmpeg (sourcePath jpgPath webpPath : string) : Run unit :=
  whenStale sourcePath webpPath
    (runCommand "ffmpeg" ["-y"; "-i"; sourcePath; "-q:v"; "70"; webpPath]) ;;
  whenStale sourcePath jpgPath
    (runCommand "ffmpeg" ["-y"; "-i"; sourcePath; "-q:v"; "3"; jpgPath]).

Definition convertWithSipsAndCwebp (sourcePath jpgPath webpPath : string) : Run unit :=
  whenStale sourcePath jpgPath
    (runCommand "sips" ["-s"; "format"; "jpeg"; sourcePath; "--out"; jpgPath]) ;;
  whenStale sourcePath webpPath
    (runCommand "cwebp" ["-q"; "75"; sourcePath; "-o"; webpPath]).

Definition convertJpegToWebp (converter : Converter) (sourcePath webpPath : string)
  : Run unit :=
  let* stale := shouldGenerate sourcePath webpPath in
  if negb stale then ret tt
  else match converter with
       | ffmpeg => runCommand "ffmpeg" ["-y"; "-i"; sourcePath; "-q:v"; "70"; webpPath]
       | sips_cwebp => runCommand "cwebp" ["-q"; "75"; sourcePath; "-o"; webpPath]
       end.

Definition pickConverter : Run Converter :=
  let* hasFfmpeg := commandExists "ffmpeg" in
  if hasFfmpeg then ret ffmpeg
  else
    let* hasSips := commandExists "sips" in
    if negb hasSips then
      throw "No supported image converter found. Install ffmpeg, or install both sips and cwebp."
    else
      let* hasCwebp := commandExists "cwebp" in
      if hasCwebp then ret sips_cwebp
      else
        throw "No supported image converter found. Install ffmpeg, or install both sips and cwebp.".

(** *** Lines 103-117: path resolver *)

Definition toPublicPath (localPath : string) : string :=
  let assetsRoot := Path.join [projectRoot; "src"] in
  let relative := Path.relative assetsRoot localPath in
  "/" +:+ String.concat "/" (Path.split relative).

(** [imagePath.replace(/^\//, "")] *)
Definition dropLeadingSlash (imagePath : string) : string :=
  match imagePath with
  | String c rest => if Ascii.eqb c "/" then rest else imagePath
  | EmptyString => imagePath
  end.

Definition resolveInputPath (imagePath : string) : string :=
  if String.prefix "/" imagePath then
    Path.join [projectRoot; "src"; dropLeadingSlash imagePath]
  else if String.prefix "assets/" imagePath then
    Path.join [projectRoot; "src"; imagePath]
  else
    Path.join [projectRoot; "src"; "assets"; "images"; imagePath].

(** *** Lines 119-171: the orchestrator *)

Definition setProp (k : string) (x : json) (v : json) : json :=
  match v with
  | JObj fields => JObj (setField k x fields)
  | _ => v
  end.

(** Lines 155-161. *)
Definition commit (video : json) (nextImage nextWebp : string) : json * Verdict :=
  if differs (getProp "image" video) nextImage
     || differs (getProp "imageWebp" video) nextWebp
  then (setProp "imageWebp" (JStr nextWebp) (setProp "image" (JStr nextImage) video),
        Rewritten)
  else (video, Kept).

(** The body of the [for] loop, lines 126-161, for one [video]. *)
Definition visit (converter : Converter) (video : json) : Run (json * Verdict) :=
  match video with
  | JNull => throw "TypeError: Cannot read properties of null (reading 'image')"
  | _ =>
      if negb (truthy (getProp "image" video)) then ret (video, Skipped)
      else
        match getProp "image" video with
        | Some (JStr image) =>
            let inputPath := resolveInputPath image in
            let* present := fileExists inputPath in
            if negb present then
              emit (Warn ("Skipping missing file: " +:+ image)) ;;
              ret (video, Skipped)
            else
              let parsed := Path.parse inputPath in
              let* imageType := detectImageType inputPath in
              let webpPath :=
                Path.join [Path.dir parsed; Path.name parsed +:+ ".webp"] in
              match imageType with
              | other => ret (video, Skipped)
              | png =>
                  let jpgPath :=
                    Path.join [Path.dir parsed; Path.name parsed +:+ ".jpg"] in
                  match converter with
                  | ffmpeg => convertWithFfmpeg inputPath jpgPath webpPath
                  | sips_cwebp => convertWithSipsAndCwebp inputPath jpgPath webpPath
                  end ;;
                  ret (commit video (toPublicPath jpgPath) (toPublicPath webpPath))
              | jpeg =>
                  convertJpegToWebp converter inputPath webpPath ;;
                  ret (commit video (toPublicPath inputPath) (toPublicPath webpPath))
              end
        | _ => throw "TypeError: imagePath.startsWith is not a function"
        end
  end.

Definition record (pass : Pass) (video : json) (verdict : Verdict) : Pass :=
  {| entries := entries pass ++ [video];
     processed := match verdict with Skipped => processed pass | _ => S (processed pass) end;
     updatedData := match verdict with Rewritten => true | _ => updatedData pass end |}.

Fixpoint forEach (converter : Converter) (videos : list json) (pass : Pass) : Run Pass :=
  match videos with
  | [] => ret pass
  | video :: rest =>
      let* (video', verdict) := visit converter video in
      forEach converter rest (record pass video' verdict)
  end.

(** What [for (const video of videos)] iterates over: the elements of an
    array, the characters of a string; anything else is not iterable. *)
Definition iterate (videos : json) : option (list json) :=
  match videos with
  | JArr items => Some items
  | JStr s => Some ((λ c, JStr (String c "")) <$> list_ascii_of_string s)
  | _ => None
  end.

(** [videos] after the loop has assigned to its elements' properties. *)
Definition mutated (videos : json) (visited : list json) : json :=
  match videos with
  | JArr _ => JArr visited
  | _ => videos
  end.

Definition summary (processed : nat) (converter : Converter) : string :=
  "Processed " +:+ showNat processed +:+ " PNG/JPEG image"
    +:+ (if decide (processed = 1) then "" else "s")
    +:+ " using " +:+ converterName converter +:+ ".".

Definition main : Run unit :=
  let* converter := pickConverter in
  let* videos := readJson videosPath in
  match iterate videos with
  | None => throw "TypeError: videos is not iterable"
  | Some items =>
      let* pass := forEach converter items {| entries := []; processed := 0; updatedData := false |} in
      (if updatedData pass then writeJson videosPath (mutated videos (entries pass))
       else ret tt) ;;
      emit (Log (summary (processed pass) converter))
  end.

End Script.

(** ** A reference host

    A JSON codec for the fragment the development evaluates (integers as
    numbers, escapes below U+0080) and tools that behave as documented:
    every child process takes one tick, a converter overwrites its last
    argument with an image of the format named by that argument's
    extension, and [command -v] succeeds for the installed commands. *)
Module Reference.

Definition quote : ascii := "034"%char.
Definition backslash : ascii := "092"%char.
Definition newline : string := String "010" "".

Definition hexDigit (n : nat) : ascii :=
  nth n (list_ascii_of_string "0123456789abcdef") "0"%char.

Fixpoint escape (s : string) : string :=
  match s with
  | EmptyString => ""
  | String c rest =>
      let n := nat_of_ascii c in
      (if decide (c = quote) then String backslash (String quote "")
       else if decide (c = backslash) then String backslash (String backslash "")
       else if decide (n = 8) then String backslash "b"
       else if decide (n = 9) then String backslash "t"
       else if decide (n = 10) then String backslash "n"
       else if decide (n = 12) then String backslash "f"
       else if decide (n = 13) then String backslash "r"
       else if decide (n < 32) then
         String backslash ("u00" +:+ String (hexDigit (n / 16)) (String (hexDigit (n mod 16)) ""))
       else String c "") +:+ escape rest
  end.

Definition quoted (s : string) : string :=
  String quote (escape s) +:+ String quote "".

Definition showZ (n : Z) : string := NilZero.string_of_int (Z.to_int n).

Definition indent (depth : nat) : string :=
  string_of_list_ascii (replicate (2 * depth) " "%char).

(** [JSON.stringify(v, null, 2)] at nesting [depth]. *)
Fixpoint stringifyAt (depth : nat) (v : json) : string :=
  match v with
  | JNull => "null"
  | JBool true => "true"
  | JBool false => "false"
  | JNum n => showZ n
  | JStr s => quoted s
  | JArr [] => "[]"
  | JArr items =>
      "[" +:+ newline
      +:+ String.concat ("," +:+ newline)
            (map (λ x, indent (S depth) +:+ stringifyAt (S depth) x) items)
      +:+ newline +:+ indent depth +:+ "]"
  | JObj [] => "{}"
  | JObj fields =>
      "{" +:+ newline
      +:+ String.concat ("," +:+ newline)
            (map (λ kv, indent (S depth) +:+ quoted (fst kv) +:+ ": "
                        +:+ stringifyAt (S depth) (snd kv)) fields)
      +:+ newline +:+ indent depth +:+ "}"
  end.

Definition stringify (v : json) : string := stringifyAt 0 v.

(** *** Reading JSON *)

Fixpoint skipSpace (s : string) : string :=
  match s with
  | String c rest =>
      if bool_decide (nat_of_ascii c ∈ [9; 10; 13; 32]) then skipSpace rest else s
  | EmptyString => s
  end.

Definition hexValue (c : ascii) : option nat :=
  fst <$> list_find (λ d, d = c) (list_ascii_of_string "0123456789abcdef").

Definition unescape (e : ascii) : option ascii :=
  if decide (e = quote) then Some quote
  else if decide (e = backslash) then Some backslash
  else match e with
       | "/" => Some "/"
       | "b" => Some "008"
       | "f" => Some "012"
       | "n" => Some "010"
       | "r" => Some "013"
       | "t" => Some "009"
       | _ => None
       end%char.

Definition push {A} (c : ascii) (r : option (string * A)) : option (string * A) :=
  match r with
  | Some (t, x) => Some (String c t, x)
  | None => None
  end.

(** The characters after an opening quote, up to the closing one. *)
Fixpoint readString (s : string) : option (string * string) :=
  match s with
  | EmptyString => None
  | String c rest =>
      if decide (c = quote) then Some ("", rest)
      else if decide (c = backslash) then
        match rest with
        | String "u" (String a (String b (String x (String y rest')))) =>
            match hexValue a, hexValue b, hexValue x, hexValue y with
            | Some 0, Some 0, Some hi, Some lo =>
                if decide (hi < 8) then push (ascii_of_nat (16 * hi + lo)) (readString rest')
                else None
            | _, _, _, _ => None
            end
        | String e rest' =>
            match unescape e with
            | Some x => push x (readString rest')
            | None => None
            end
        | EmptyString => None
        end
      else if decide (nat_of_ascii c < 32) then None
      else push c (readString rest)
  end.

Fixpoint readDigits (acc : Z) (s : string) : Z * string :=
  match s with
  | String c rest =>
      match Ascii.is_nat c with
      | Some d => readDigits (10 * acc + Z.of_nat d) rest
      | None => (acc, s)
      end
  | EmptyString => (acc, s)
  end.

Definition startsFraction (s : string) : bool :=
  match s with
  | String c _ => bool_decide (c ∈ list_ascii_of_string ".eE0123456789")
  | EmptyString => false
  end.

(** An integer literal; a fraction or an exponent is outside the
    fragment and is rejected. *)
Definition readNumber (s : string) : option (Z * string) :=
  let '(sign, body) :=
    match s with
    | String "-" rest => ((-1)%Z, rest)
    | _ => (1%Z, s)
    end in
  match body with
  | String c rest =>
      match Ascii.is_nat c with
      | Some d =>
          let '(n, r) := if decide (d = 0) then (0%Z, rest) else readDigits 0 body in
          if startsFraction r then None else Some ((sign * n)%Z, r)
      | None => None
      end
  | EmptyString => None
  end.

Fixpoint stripPrefix (p s : string) : option string :=
  match p, s with
  | EmptyString, _ => Some s
  | String a p', String b s' => if decide (a = b) then stripPrefix p' s' else None
  | _, _ => None
  end.

Definition tag {A B} (f : A → B) (r : option (A * string)) : option (B * string) :=
  match r with
  | Some (a, rest) => Some (f a, rest)
  | None => None
  end.

Definition literal (p : string) (v : json) (s : string) : option (json * string) :=
  match stripPrefix p s with
  | Some rest => Some (v, rest)
  | None => None
  end.

Definition object (members : list (string * json)) : json :=
  JObj (fold_left (λ acc kv, setField (fst kv) (snd kv) acc) members []).

Fixpoint readValue (fuel : nat) (s : string) : option (json * string) :=
  match fuel with
  | 0 => None
  | S fuel =>
      match skipSpace s with
      | EmptyString => None
      | String c rest =>
          if decide (c = quote) then tag JStr (readString rest)
          else if decide (c = "["%char) then
            match skipSpace rest with
            | String "]" r => Some (JArr [], r)
            | _ => tag JArr (readItems fuel rest)
            end
          else if decide (c = "{"%char) then
            match skipSpace rest with
            | String "}" r => Some (JObj [], r)
            | _ => tag object (readMembers fuel rest)
            end
          else if decide (c = "n"%char) then literal "ull" JNull rest
          else if decide (c = "t"%char) then literal "rue" (JBool true) rest
          else if decide (c = "f"%char) then literal "alse" (JBool false) rest
          else tag JNum (readNumber (String c rest))
      end
  end
with readItems (fuel : nat) (s : string) : option (list json * string) :=
  match fuel with
  | 0 => None
  | S fuel =>
      match readValue fuel s with
      | Some (v, r) =>
          match skipSpace r with
          | String "," r' => tag (cons v) (readItems fuel r')
          | String "]" r' => Some ([v], r')
          | _ => None
          end
      | None => None
      end
  end
with readMembers (fuel : nat) (s : string) : option (list (string * json) * string) :=
  match fuel with
  | 0 => None
  | S fuel =>
      match skipSpace s with
      | String c r =>
          if decide (c = quote) then
            match readString r with
            | Some (k, r1) =>
                match skipSpace r1 with
                | String ":" r2 =>
                    match readValue fuel r2 with
                    | Some (v, r3) =>
                        match skipSpace r3 with
                        | String "," r4 => tag (cons (k, v)) (readMembers fuel r4)
                        | String "}" r4 => Some ([(k, v)], r4)
                        | _ => None
                        end
                    | None => None
                    end
                | _ => None
                end
            | None => None
            end
          else None
      | EmptyString => None
      end
  end.

Definition parse (s : string) : option json :=
  match readValue (2 * String.length s + 2) s with
  | Some (v, rest) => if decide (skipSpace rest = "") then Some v else None
  | None => None
  end.

(** *** Tools *)

Definition jpegImage : list byte := [xff; xd8; xff; xe0; x00; x10; x4a; x46; x49; x46].
Definition webpImage : list byte :=
  [x52; x49; x46; x46; x1a; x00; x00; x00; x57; x45; x42; x50].

Definition endsWith (suffix s : string) : bool :=
  bool_decide (list_ascii_of_string suffix `suffix_of` list_ascii_of_string s).

Definition encoded (output : string) : list byte :=
  if endsWith ".jpg" output then jpegImage else webpImage.

Definition tick (d : Disk) : Disk := {| files := files d; now := (now d + 1)%Z |}.

(** [installed] are the commands on the PATH; those in [broken] exit
    with status 1 and write nothing. *)
Definition tools (installed broken : list string)
    (command : string) (args : list string) (d : Disk) : SpawnResult :=
  if decide (command = "sh") then
    {| status := Some (if bool_decide (args ∈ (λ c, ["-lc"; "command -v " +:+ c]) <$> installed)
                       then 0 else 1)%Z;
       stderr := None;
       after := tick d |}
  else if decide (command ∈ broken) then
    {| status := Some 1%Z;
       stderr := Some (command +:+ ": conversion failed" +:+ newline);
       after := tick d |}
  else if decide (command ∈ installed) then
    let output := List.last args "" in
    let f := {| content := encoded output; mtimeMs := (now d + 1)%Z; readable := true |} in
    {| status := Some 0%Z;
       stderr := Some "";
       after := {| files := <[output := f]> (files d); now := (now d + 1)%Z |} |}
  else
    {| status := None; stderr := None; after := d |}.

Definition host (installed broken : list string) : Host :=
  {| cwd := "/site";
     spawnSync := tools installed broken;
     JSON_parse := parse;
     JSON_stringify := stringify;
     writeRefused := λ _ _, None |}.

Definition textFile (text : string) (mtime : Z) : File :=
  {| content := list_byte_of_string text; mtimeMs := mtime; readable := true |}.

Definition imageFile (bytes : list byte) (mtime : Z) : File :=
  {| content := bytes; mtimeMs := mtime; readable := true |}.

Definition boot (fs : list (string * File)) (clock : Z) : State :=
  {| disk := {| files := list_to_map fs; now := clock |}; trace := [] |}.

End Reference.

(** ** Concrete worlds *)
Module Scenario.

Import Reference.

Definition ffmpegHost : Host := host ["ffmpeg"] [].
Definition sipsHost : Host := host ["sips"; "cwebp"] [].
Definition bareHost : Host := host [] [].

Definition metadataPath : string := "/site/src/_data/videos.json".
Definition metadata (v : json) : File := textFile (stringify v) 50.

Definition catEntry : json := JObj [("title", JStr "Cat"); ("image", JStr "cat.png")].
Definition dogEntry : json := JObj [("image", JStr "dog.jpg")].
Definition ghostEntry : json := JObj [("image", JStr "ghost.png"); ("year", JNum 2020)].
Definition lockedEntry : json := JObj [("image", JStr "locked.png")].

Definition pngImage : list byte := pngSignature ++ [x00; x00; x00; x0d].

(** Scenario A: one PNG source, no derivatives. *)
Definition catWorld : State :=
  boot [(metadataPath, metadata (JArr [catEntry]));
        ("/site/src/assets/images/cat.png", imageFile pngImage 100)] 1000.

(** Scenario B: one JPEG source, no WebP derivative. *)
Definition dogWorld : State :=
  boot [(metadataPath, metadata (JArr [dogEntry]));
        ("/site/src/assets/images/dog.jpg", imageFile jpegImage 100)] 1000.

(** Scenario C: the first entry points at nothing. *)
Definition ghostWorld : State :=
  boot [(metadataPath, metadata (JArr [ghostEntry; catEntry]));
        ("/site/src/assets/images/cat.png", imageFile pngImage 100)] 1000.

(** The first source exists but cannot be read. *)
Definition lockedWorld : State :=
  boot [(metadataPath, metadata (JArr [lockedEntry; catEntry]));
        ("/site/src/assets/images/locked.png",
         {| content := pngImage; mtimeMs := 100; readable := false |});
        ("/site/src/assets/images/cat.png", imageFile pngImage 100)] 1000.

(** No metadata file at all. *)
Definition emptyWorld : State := boot [] 1000.

Definition noConverter : string :=
  "No supported image converter found. Install ffmpeg, or install both sips and cwebp.".

End Scenario.

(** ** Specification vocabulary *)

(** The classification the detector is meant to compute, on the bytes of
    the file. *)
Definition classify (bytes : list byte) : ImageType :=
  if bool_decide (pngSignature `prefix_of` bytes) then png
  else if bool_decide ([xff; xd8; xff] `prefix_of` bytes) then jpeg
  else other.


(** A string that is one path segment: it holds no separator. *)
Definition singleSegment (s : string) : Prop := Path.split s = [s].

(** A file or directory name: one segment, not empty, not a dot entry. *)
Definition plainName (s : string) : Prop :=
  singleSegment s ∧ s ≠ "" ∧ s ≠ "." ∧ s ≠ "..".

(** The absolute path with the given segments, in normal form. *)
Definition absolutePath (segs : list string) : string :=
  String "/" (String.concat "/" segs).

(** [m] moves every state to one related to it by [R], whatever it
    returns. *)
Definition preserves {A} (R : State → State → Prop) (m : Run A) : Prop :=
  ∀ st, R st (snd (m st)).

Definition isWrite (e : Event) : bool :=
  match e with WriteFile _ _ => true | _ => false end.

(** A conversion-tool invocation: a spawned command other than the shell
    of the availability probe. *)
Definition isConversion (e : Event) : bool :=
  match e with
  | Spawn command _ => negb (bool_decide (command = "sh"))
  | _ => false
  end.

(** The trace grew, and by no write. *)
Definition grewWithoutWrite (st st' : State) : Prop :=
  ∃ evs, trace st' = trace st ++ evs ∧ Forall (λ e, isWrite e = false) evs.


(** A child process changes no file but the one named by its last
    argument: the output of [ffmpeg], of [sips --out] and of [cwebp -o]. *)
Definition writesOnlyOutput (h : Host) : Prop :=
  ∀ command args d p,
    p ≠ List.last args "" →
    files (after (spawnSync h command args d)) !! p = files d !! p.

(** The last character of a string, if it has one. *)
Fixpoint lastChar (s : string) : option ascii :=
  match s with
  | EmptyString => None
  | String c EmptyString => Some c
  | String _ rest => lastChar rest
  end.

(** [v'] is the object [v] with the two pipeline-managed fields assigned,
    at least one of them to a value it did not hold. *)
Definition managedUpdate (v v' : json) : Prop :=
  ∃ fields nextImage nextWebp,
    v = JObj fields
    ∧ v' = JObj (setField "imageWebp" (JStr nextWebp)
                   (setField "image" (JStr nextImage) fields))
    ∧ (lookupField "image" fields ≠ Some (JStr nextImage)
       ∨ lookupField "imageWebp" fields ≠ Some (JStr nextWebp)).

(** Every value [m] returns satisfies [Q]. *)
Definition returns {A} (Q : A → Prop) (m : Run A) : Prop :=
  ∀ st a st', m st = (Ok a, st') → Q a.

(** What the loop body may hand back for the entry [v]. *)
Definition visitOutcome (v : json) (r : json * Verdict) : Prop :=
  match snd r with
  | Rewritten => managedUpdate v (fst r)
  | _ => fst r = v
  end.

(** The one command [convertJpegToWebp] runs when the derivative is
    stale, lines 88-92. *)
Definition webpInvocation (converter : Converter) (sourcePath webpPath : string)
  : string * list string :=
  match converter with
  | ffmpeg => ("ffmpeg", ["-y"; "-i"; sourcePath; "-q:v"; "70"; webpPath])
  | sips_cwebp => ("cwebp", ["-q"; "75"; sourcePath; "-o"; webpPath])
  end.

(** A converter that exits with status 0 has written its output file
    during its run: the file's time lies between the start and the end. *)
Definition stampsOutput (h : Host) : Prop :=
  ∀ command args d f,
    command ≠ "sh" →
    status (spawnSync h command args d) = Some 0%Z →
    files (after (spawnSync h command args d)) !! List.last args "" = Some f →
    (now d ≤ mtimeMs f ≤ now (after (spawnSync h command args d)))%Z.

(** ** The build hook of the site configuration

    The Eleventy configuration (the second source file) registers an
    [eleventy.before] handler that runs the script in a child process
    whenever the metadata file's modification time differs from the one it
    recorded.  [lastVideosMtime] is the closure variable of the handler;
    it is threaded explicitly, since an assignment made before a throw
    persists. *)
Section Trigger.

Context (h : Host) (execPath : string).

Definition processorPath : string :=
  Path.join [cwd h; "scripts"; "process-images.mjs"].

(** [try { return fs.statSync(videosPath).mtimeMs; } catch { return 0; }] *)
Definition getVideosMtime : Run Z :=
  λ st, match statSync_mtimeMs (videosPath h) st with
        | (Ok mtime, st') => (Ok mtime, st')
        | (Throw _, st') => (Ok 0%Z, st')
        end.

Definition runImageProcessor : Run unit :=
  let* result := spawn h execPath [processorPath] in
  if bool_decide (status result = Some 0%Z) then ret tt
  else throw "Image processing failed while handling videos.json.".

(** The [eleventy.before] handler: its outcome, the value of
    [lastVideosMtime] it leaves, and the state. *)
Definition onBefore (lastVideosMtime : Z) (st : State) : Outcome unit * Z * State :=
  match getVideosMtime st with
  | (Ok currentMtime, st1) =>
      if (currentMtime =? lastVideosMtime)%Z then (Ok tt, lastVideosMtime, st1)
      else
        let '(outcome, st2) := runImageProcessor st1 in
        (outcome, currentMtime, st2)
  | (Throw e, st1) => (Throw e, lastVideosMtime, st1)
  end.

End Trigger.

(** ** More specification vocabulary *)

(** The two commands of a backend for a PNG source, in the order the
    backend runs them (lines 68-84). *)
Definition pngInvocations (converter : Converter) (sourcePath jpgPath webpPath : string)
  : (string * list string) * (string * list string) :=
  match converter with
  | ffmpeg =>
      (("ffmpeg", ["-y"; "-i"; sourcePath; "-q:v"; "70"; webpPath]),
       ("ffmpeg", ["-y"; "-i"; sourcePath; "-q:v"; "3"; jpgPath]))
  | sips_cwebp =>
      (("sips", ["-s"; "format"; "jpeg"; sourcePath; "--out"; jpgPath]),
       ("cwebp", ["-q"; "75"; sourcePath; "-o"; webpPath]))
  end.

(** The availability probe of a command. *)
Definition probe (command : string) : Event :=
  Spawn "sh" ["-lc"; "command -v " +:+ command].

(** The modification time the hook sees: 0 when the file is not there. *)
Definition seenMtime (h : Host) (st : State) : Z :=
  match files (disk st) !! videosPath h with
  | Some f => mtimeMs f
  | None => 0%Z
  end.

(** An entry that a run has nothing left to do for, on the disk of [st]:
    its source is a readable PNG or JPEG, every derivative the source
    calls for exists and is not older than the source, and the entry
    already holds the two logical paths the script would store. *)
Definition settled (h : Host) (st : State) (video : json) : Prop :=
  ∃ image f,
    let inputPath := resolveInputPath h image in
    let webpPath :=
      Path.join [Path.dir (Path.parse inputPath);
                 Path.name (Path.parse inputPath) +:+ ".webp"] in
    let jpgPath :=
      Path.join [Path.dir (Path.parse inputPath);
                 Path.name (Path.parse inputPath) +:+ ".jpg"] in
    getProp "image" video = Some (JStr image)
    ∧ image ≠ ""
    ∧ files (disk st) !! inputPath = Some f
    ∧ readable f = true
    ∧ classify (content f) ≠ other
    ∧ (∃ w, files (disk st) !! webpPath = Some w ∧ (mtimeMs f ≤ mtimeMs w)%Z)
    ∧ (classify (content f) = png →
       ∃ j, files (disk st) !! jpgPath = Some j ∧ (mtimeMs f ≤ mtimeMs j)%Z)
    ∧ getProp "image" video
      = Some (JStr (toPublicPath h
                      (match classify (content f) with png => jpgPath | _ => inputPath end)))
    ∧ getProp "imageWebp" video = Some (JStr (toPublicPath h webpPath)).

(** Staleness of the derivative at [outputPath] against its source
    [src]: the derivative is absent, or the source's modification time is
    strictly later than the derivative's. *)
Definition isStale (src : File) (outputPath : string) (d : Disk) : bool :=
  match files d !! outputPath with
  | None => true
  | Some out => (mtimeMs out <? mtimeMs src)%Z
  end.

(** The state a conversion leaves that runs exactly when [stale] holds:
    the command was spawned, or nothing happened at all. *)
Definition attempted (h : Host) (command : string) (args : list string)
    (stale : bool) (st : State) : State :=
  if stale then
    {| disk := after (spawnSync h command args (disk st));
       trace := trace st ++ [Spawn command args] |}
  else st.

(** [m] performs two conversions of [sourcePath] in this order, each one
    exactly when its derivative is stale at that moment: the first
    command is spawned if and only if [out1] is stale on the disk [m]
    starts from; if it was spawned and did not exit with status 0, [m]
    throws there and the second command is never spawned; otherwise the
    second command is spawned if and only if [out2] is stale on the disk
    the first step left, and [m] returns unless that command fails. *)
Definition performsInOrder (h : Host) (sourcePath : string)
    (c1 : string) (a1 : list string) (out1 : string)
    (c2 : string) (a2 : list string) (out2 : string)
    (m : Run unit) (st : State) : Prop :=
  ∀ src,
    files (disk st) !! sourcePath = Some src →
    let stale1 := isStale src out1 (disk st) in
    let st1 := attempted h c1 a1 stale1 st in
    (stale1 = true →
     status (spawnSync h c1 a1 (disk st)) ≠ Some 0%Z →
     snd (m st) = st1 ∧ ∃ message, fst (m st) = Throw message)
    ∧ (stale1 = false ∨ status (spawnSync h c1 a1 (disk st)) = Some 0%Z →
       ∀ src1,
         files (disk st1) !! sourcePath = Some src1 →
         let stale2 := isStale src1 out2 (disk st1) in
         snd (m st) = attempted h c2 a2 stale2 st1
         ∧ (stale2 = true →
            status (spawnSync h c2 a2 (disk st1)) ≠ Some 0%Z →
            ∃ message, fst (m st) = Throw message)
         ∧ (stale2 = false ∨ status (spawnSync h c2 a2 (disk st1)) = Some 0%Z →
            fst (m st) = Ok tt)).

(** A run of white-space code points. *)
Inductive blank : string → Prop :=
| blank_nil : blank ""
| blank_cons w s : w ∈ whiteSpace → blank s → blank (w +:+ s).

(** An ASCII character that is not white space. *)
Definition inkChar (c : ascii) : Prop :=
  (nat_of_ascii c < 128)%nat ∧ isWhiteSpace (String c "") = false.

(** A text with no white space around it: it is not empty and neither
    begins nor ends with a white-space code point. *)
Definition bare (core : string) : Prop :=
  core ≠ ""
  ∧ (∀ w rest, w ∈ whiteSpace → core ≠ w +:+ rest)
  ∧ (∀ w rest, w ∈ whiteSpace → core ≠ rest +:+ w).

(** A continuation byte of UTF-8: one that does not begin a code point. *)
Definition continuation (c : ascii) : bool :=
  (128 <=? nat_of_ascii c)%nat && (nat_of_ascii c <? 192)%nat.

(** Further concrete worlds. *)
Module Demo.

Import Reference.

Definition settledEntry : json :=
  JObj [("image", JStr "/assets/images/dog.jpg");
        ("imageWebp", JStr "/assets/images/dog.webp")].

(** A JPEG source whose WebP derivative has the very same time stamp. *)
Definition settledWorld : State :=
  boot [(Scenario.metadataPath, Scenario.metadata (JArr [settledEntry]));
        ("/site/src/assets/images/dog.jpg", imageFile jpegImage 100);
        ("/site/src/assets/images/dog.webp", imageFile webpImage 100)] 1000.

Definition oddEntry : json := JObj [("image", JStr "odd.jpg")].

(** PNG data under a [.jpg] name. *)
Definition oddWorld : State :=
  boot [(Scenario.metadataPath, Scenario.metadata (JArr [oddEntry]));
        ("/site/src/assets/images/odd.jpg", imageFile Scenario.pngImage 100)] 1000.

(** Entries none of which has an image reference. *)
Definition blankEntries : list json :=
  [JObj [("title", JStr "Draft")]; JObj [("image", JStr "")];
   JObj [("image", JNull)]; JNum 7; JArr []].

Definition blankWorld : State :=
  boot [(Scenario.metadataPath, Scenario.metadata (JArr blankEntries))] 1000.

Definition node : string := "/usr/bin/node".

(** A host on which the script, run as a child process, succeeds and
    rewrites the metadata file. *)
Definition rewritingHost : Host :=
  {| cwd := "/site";
     spawnSync := λ command args d,
       {| status := Some 0%Z; stderr := None;
          after := {| files := <[Scenario.metadataPath := textFile "[]" (now d + 1)]> (files d);
                      now := (now d + 1)%Z |} |};
     JSON_parse := parse;
     JSON_stringify := stringify;
     writeRefused := λ _ _, None |}.

(** A host on which every child process fails and touches nothing. *)
Definition failingHost : Host := host [] [].

(** A PNG source whose WebP derivative is older than it and whose JPEG
    derivative is not. *)
Definition agedWorld : State :=
  boot [(Scenario.metadataPath, Scenario.metadata (JArr [Scenario.catEntry]));
        ("/site/src/assets/images/cat.png", imageFile Scenario.pngImage 100);
        ("/site/src/assets/images/cat.webp", imageFile webpImage 90);
        ("/site/src/assets/images/cat.jpg", imageFile jpegImage 100)] 1000.

(** A host whose tools fail and pad their diagnostic with a no-break
    space in front and a paragraph separator and a newline behind. *)
Definition paddedHost : Host :=
  {| cwd := "/site";
     spawnSync := λ _ _ d,
       {| status := Some 1%Z;
          stderr := Some (utf8 0xA0 +:+ "boom" +:+ utf8 0x2029 +:+ newline);
          after := d |};
     JSON_parse := parse;
     JSON_stringify := stringify;
     writeRefused := λ _ _, None |}.


End Demo.

(** ** Proof vocabulary *)

Ltac unfold_run :=
  unfold whenStale, shouldGenerate, fileExists, existsSync, statSync_mtimeMs,
    detectImageType, isPng, isJpeg, readSignature, readBytes, runCommand, spawn,
    emit, bind, ret, throw in *.

Create HintDb script discriminated.

#[local] Hint Unfold readJson writeJson fileExists commandExists runCommand
  readSignature isPng isJpeg detectImageType shouldGenerate whenStale
  convertWithFfmpeg convertWithSipsAndCwebp convertJpegToWebp pickConverter : script.

(** * Properties *)

(** ** Sanity checks of the path algebra and of the reference codec *)

Example split_abs : Path.split "/a/b.png" = [""; "a"; "b.png"].
Proof. reflexivity. Qed.

Example join_dots :
  Path.join ["/proj"; "src"; "../x//y/./z.png"] = "/proj/x/y/z.png".
Proof. reflexivity. Qed.

Example relative_up : Path.relative "/proj/src" "/proj/x/y.png" = "../x/y.png".
Proof. reflexivity. Qed.

Example parse_hidden :
  Path.parse "/proj/src/.png" = {| Path.dir := "/proj/src"; Path.base := ".png"; Path.name := ".png" |}.
Proof. reflexivity. Qed.

Example parse_two_dots :
  Path.name (Path.parse "/proj/a.b.png") = "a.b" ∧ Path.dir (Path.parse "/x.png") = "/".
Proof. split; reflexivity. Qed.

Example stringify_entry :
  Reference.parse (Reference.stringify (JArr [JObj [("image", JStr "cat.png"); ("n", JNum (-3))]; JNull]))
  = Some (JArr [JObj [("image", JStr "cat.png"); ("n", JNum (-3))]; JNull]).
Proof. vm_compute. reflexivity. Qed.

Example stringify_layout :
  Reference.stringify (JArr [JObj [("a", JArr [])]])
  = "[" +:+ Reference.newline +:+ "  {" +:+ Reference.newline
    +:+ "    " +:+ Reference.quoted "a" +:+ ": []" +:+ Reference.newline
    +:+ "  }" +:+ Reference.newline +:+ "]".
Proof. vm_compute. reflexivity. Qed.

(** ** Staleness tracker and format detector *)

Section Detector.

Lemma shouldGenerate_absent sourcePath outputPath st :
  files (disk st) !! outputPath = None →
  shouldGenerate sourcePath outputPath st = (Ok true, st).
Proof.
  intros Hout. unfold_run. rewrite Hout.
  rewrite bool_decide_eq_false_2; [reflexivity |].
  intros [? ?]; discriminate.
Qed.

Lemma shouldGenerate_present sourcePath outputPath st src out :
  files (disk st) !! sourcePath = Some src →
  files (disk st) !! outputPath = Some out →
  shouldGenerate sourcePath outputPath st = (Ok (mtimeMs out <? mtimeMs src)%Z, st).
Proof.
  intros Hsrc Hout. unfold_run. rewrite Hout.
  rewrite bool_decide_eq_true_2 by eauto. simpl. rewrite Hsrc, Hout. reflexivity.
Qed.

(** The state never changes, whatever the answer. *)
Lemma shouldGenerate_pure sourcePath outputPath st :
  snd (shouldGenerate sourcePath outputPath st) = st.
Proof.
  unfold_run.
  destruct (files (disk st) !! outputPath) as [out|] eqn:Hout.
  - rewrite bool_decide_eq_true_2 by eauto. simpl.
    destruct (files (disk st) !! sourcePath); [rewrite Hout |]; reflexivity.
  - rewrite bool_decide_eq_false_2; [reflexivity |]. intros [? ?]; discriminate.
Qed.

Lemma signature_png (bytes : list byte) :
  take 8 (bytes ++ replicate 8 x00) = pngSignature ↔ pngSignature `prefix_of` bytes.
Proof.
  unfold pngSignature. split.
  - intros H.
    do 8 (destruct bytes as [|? bytes]; [simpl in H; discriminate H |]).
    simpl in H. injection H as -> -> -> -> -> -> -> ->.
    exists bytes. reflexivity.
  - intros [k ->]. reflexivity.
Qed.

Lemma signature_jpeg (bytes : list byte) :
  let signature := take 3 (bytes ++ replicate 3 x00) in
  bool_decide (signature !! 0 = Some xff) && bool_decide (signature !! 1 = Some xd8)
    && bool_decide (signature !! 2 = Some xff)
  = bool_decide ([xff; xd8; xff] `prefix_of` bytes).
Proof.
  apply eq_true_iff_eq.
  rewrite !andb_true_iff, !bool_decide_eq_true. split.
  - intros [[H0 H1] H2].
    do 3 (destruct bytes as [|? bytes]; [simpl in *; discriminate |]).
    simpl in *. injection H0 as ->. injection H1 as ->. injection H2 as ->.
    exists bytes. reflexivity.
  - intros [k ->]. simpl. auto.
Qed.

Lemma isPng_readable filePath st f :
  files (disk st) !! filePath = Some f →
  readable f = true →
  isPng filePath st = (Ok (bool_decide (pngSignature `prefix_of` content f)), st).
Proof.
  intros Hf Hr. unfold isPng, readSignature, readBytes, bind, ret.
  rewrite Hf, Hr. do 2 f_equal. apply bool_decide_ext, signature_png.
Qed.

Lemma isJpeg_readable filePath st f :
  files (disk st) !! filePath = Some f →
  readable f = true →
  isJpeg filePath st = (Ok (bool_decide ([xff; xd8; xff] `prefix_of` content f)), st).
Proof.
  intros Hf Hr. unfold isJpeg, readSignature, readBytes, bind, ret.
  rewrite Hf, Hr. do 2 f_equal. apply signature_jpeg.
Qed.

Lemma detectImageType_readable filePath st f :
  files (disk st) !! filePath = Some f →
  readable f = true →
  detectImageType filePath st = (Ok (classify (content f)), st).
Proof.
  intros Hf Hr. unfold detectImageType, classify, bind.
  rewrite (isPng_readable _ _ _ Hf Hr).
  destruct (bool_decide (pngSignature `prefix_of` content f)); [reflexivity |].
  rewrite (isJpeg_readable _ _ _ Hf Hr).
  destruct (bool_decide ([xff; xd8; xff] `prefix_of` content f)); reflexivity.
Qed.

(** A node that cannot be read makes the detector throw. *)
Lemma detectImageType_unreadable filePath st f :
  files (disk st) !! filePath = Some f →
  readable f = false →
  detectImageType filePath st = (Throw ("EACCES: cannot read " +:+ filePath), st).
Proof.
  intros Hf Hr. unfold detectImageType, isPng, readSignature, readBytes, bind.
  rewrite Hf, Hr. reflexivity.
Qed.

End Detector.

(** ** Path algebra *)

Section PathFacts.

Import Path.

Lemma append_cons c (a b : string) : String c a +:+ b = String c (a +:+ b).
Proof. reflexivity. Qed.

Lemma append_empty_l (b : string) : "" +:+ b = b.
Proof. reflexivity. Qed.

Lemma append_empty_r (a : string) : a +:+ "" = a.
Proof. induction a as [|c a IH]; [reflexivity | rewrite append_cons, IH; reflexivity]. Qed.

Lemma append_assoc (a b c : string) : (a +:+ b) +:+ c = a +:+ (b +:+ c).
Proof.
  induction a as [|x a IH]; [reflexivity |].
  rewrite !append_cons, IH. reflexivity.
Qed.

Lemma split_nonempty s : split s ≠ [].
Proof.
  destruct s as [|c s]; simpl; [discriminate |].
  destruct (Ascii.eqb c "/"); [discriminate |].
  destruct (split s); discriminate.
Qed.

Lemma split_cons_slash s : split (String "/" s) = "" :: split s.
Proof. reflexivity. Qed.

(** Splitting distributes over a separator. *)
Lemma split_app_slash a b : split (a +:+ String "/" b) = split a ++ split b.
Proof.
  induction a as [|c a IH].
  - reflexivity.
  - rewrite append_cons. simpl. rewrite IH.
    destruct (Ascii.eqb c "/"); [reflexivity |].
    destruct (split a) eqn:Ha; [exfalso; exact (split_nonempty _ Ha) | reflexivity].
Qed.

Lemma split_concat (l : list string) :
  l ≠ [] → split (String.concat "/" l) = mbind split l.
Proof.
  induction l as [|x l IH]; [congruence |]. intros _.
  destruct l as [|y l].
  - simpl. rewrite app_nil_r. reflexivity.
  - change (String.concat "/" (x :: y :: l))
      with (x +:+ String "/" (String.concat "/" (y :: l))).
    rewrite split_app_slash, IH by discriminate. reflexivity.
Qed.

Lemma split_concat_single (l : list string) :
  l ≠ [] → Forall singleSegment l → split (String.concat "/" l) = l.
Proof.
  intros Hne Hall. rewrite split_concat by assumption. clear Hne.
  induction Hall as [|x l Hx _ IH]; [reflexivity |].
  change (mbind split (x :: l)) with (split x ++ mbind split l).
  rewrite Hx, IH. reflexivity.
Qed.

(** Plain names pass through [normalizeString] and empty segments vanish. *)
Lemma normalizeSegs_plain allowAboveRoot (l : list string) :
  Forall (λ s, s = "" ∨ plainName s) l →
  normalizeSegs allowAboveRoot l = filter (λ s, s ≠ "") l.
Proof.
  intros Hall. unfold normalizeSegs.
  enough (∀ acc, fold_left (normStep allowAboveRoot) l acc
                 = rev (filter (λ s, s ≠ "") l) ++ acc) as H.
  { rewrite H, app_nil_r, rev_involutive. reflexivity. }
  induction Hall as [|x l Hx _ IH]; intros acc; [reflexivity |].
  simpl. rewrite IH. unfold normStep.
  destruct Hx as [-> | (Hseg & Hne & Hdot & Hdots)].
  - rewrite decide_True by (left; reflexivity).
    rewrite filter_cons_False by (intros H; apply H; reflexivity). reflexivity.
  - rewrite decide_False by (intros [?|?]; congruence).
    rewrite decide_False by assumption.
    rewrite filter_cons_True by assumption.
    simpl. rewrite <- app_assoc. reflexivity.
Qed.

Lemma filter_plain (l : list string) :
  Forall plainName l → filter (λ s, s ≠ "") l = l.
Proof.
  induction 1 as [|x l (Hseg & Hne & _) _ IH]; [reflexivity |].
  rewrite filter_cons_True by assumption. rewrite IH. reflexivity.
Qed.

Lemma endsWithSlash_split s :
  endsWithSlash s = true → ∃ l, l ≠ [] ∧ split s = l ++ [""].
Proof.
  induction s as [|c s IH]; [discriminate |].
  destruct s as [|c' s'].
  - simpl. intros H. rewrite H. exists [""]. split; [discriminate | reflexivity].
  - intros H. change (endsWithSlash (String c' s') = true) in H.
    destruct (IH H) as (l & Hl & Hs).
    change (split (String c (String c' s')))
      with (if Ascii.eqb c "/" then "" :: split (String c' s')
            else match split (String c' s') with
                 | seg :: rest => String c seg :: rest
                 | [] => [String c ""]
                 end).
    rewrite Hs. destruct (Ascii.eqb c "/").
    + exists ("" :: l). split; [discriminate | reflexivity].
    + destruct l as [|seg l]; [congruence |].
      exists (String c seg :: l). split; [discriminate | reflexivity].
Qed.

Lemma endsWithSlash_last s (l : list string) x :
  split s = l ++ [x] → x ≠ "" → endsWithSlash s = false.
Proof.
  intros Hs Hx. destruct (endsWithSlash s) eqn:He; [| reflexivity].
  destruct (endsWithSlash_split _ He) as (l' & _ & Hs').
  rewrite Hs in Hs'. apply app_inj_tail in Hs' as [_ ->]. congruence.
Qed.

Lemma concat_nonempty (l : list string) x :
  x ≠ "" → String.concat "/" (x :: l) ≠ "".
Proof.
  intros Hx. destruct x as [|c x]; [congruence |].
  destruct l; simpl; [discriminate |]. rewrite append_cons. discriminate.
Qed.

(** Normalising an absolute path whose segments are plain names or empty,
    and which does not end in a separator. *)
Lemma normalize_absolute (s : string) (segs : list string) :
  isAbsolute s = true →
  endsWithSlash s = false →
  Forall (λ x, x = "" ∨ plainName x) (split s) →
  filter (λ x, x ≠ "") (split s) = segs →
  segs ≠ [] →
  normalize s = absolutePath segs.
Proof.
  intros Habs Hend Hall Hsegs Hne. unfold normalize.
  rewrite decide_False by (intros ->; discriminate Habs).
  rewrite Habs, Hend. simpl negb.
  rewrite normalizeSegs_plain, Hsegs by assumption.
  destruct segs as [|x segs]; [congruence |].
  assert (x ≠ "") as Hx.
  { assert (x ∈ filter (λ x, x ≠ "") (split s)) as Hin by (rewrite Hsegs; left).
    apply list_elem_of_filter in Hin as [? _]. assumption. }
  rewrite decide_False by (apply concat_nonempty; assumption).
  rewrite append_empty_r. reflexivity.
Qed.

End PathFacts.

Section Resolver.

Import Path.

Lemma split_absolutePath (segs : list string) :
  Forall plainName segs →
  Forall (λ x, x = "" ∨ plainName x) (split (absolutePath segs))
  ∧ filter (λ x, x ≠ "") (split (absolutePath segs)) = segs.
Proof.
  intros Hall. unfold absolutePath. rewrite split_cons_slash.
  destruct segs as [|x segs].
  - simpl. split; [repeat constructor |].
    rewrite !filter_cons_False by (intros H; apply H; reflexivity). reflexivity.
  - rewrite split_concat_single;
      [| discriminate | eapply Forall_impl; [exact Hall | intros ? (? & _); assumption]].
    split.
    + constructor; [left; reflexivity |].
      eapply Forall_impl; [exact Hall | intros; right; assumption].
    + rewrite filter_cons_False by (intros H; apply H; reflexivity).
      apply filter_plain. assumption.
Qed.

Lemma prefix_slash (s : string) : String.prefix "/" (String "/" s) = true.
Proof. destruct s; reflexivity. Qed.

Lemma last_plain (l : list string) :
  l ≠ [] → Forall plainName l → ∃ l' x, l = l' ++ [x] ∧ x ≠ "".
Proof.
  intros Hne Hall. destruct (exists_last Hne) as (l' & x & ->).
  exists l', x. split; [reflexivity |].
  apply Forall_app in Hall as [_ Hx]. inversion Hx as [|? ? (_ & ? & _)]. assumption.
Qed.

(** Joining an absolute directory with relative parts made of plain names. *)
Lemma join_absolute (root parts : list string) :
  Forall plainName root →
  Forall (λ p, p ≠ "" ∧ Forall plainName (split p)) parts →
  parts ≠ [] →
  join (absolutePath root :: parts) = absolutePath (root ++ mbind split parts).
Proof.
  intros Hroot Hparts Hne. unfold join.
  assert (filter (λ a, a ≠ "") (absolutePath root :: parts) = absolutePath root :: parts) as ->.
  { rewrite filter_cons_True by discriminate. f_equal.
    clear Hne. induction Hparts as [|p parts [Hp _] _ IH]; [reflexivity |].
    rewrite filter_cons_True by assumption. rewrite IH. reflexivity. }
  assert (Forall plainName (mbind split parts)) as Hplain.
  { clear Hne. induction Hparts as [|p parts [_ Hp] _ IH]; [constructor |].
    change (mbind split (p :: parts)) with (split p ++ mbind split parts).
    apply Forall_app. split; assumption. }
  assert (mbind split parts ≠ []) as Hne'.
  { destruct parts as [|p parts]; [congruence |].
    change (mbind split (p :: parts)) with (split p ++ mbind split parts).
    intros H. apply app_eq_nil in H as [H _]. exact (split_nonempty _ H). }
  destruct (split_absolutePath root Hroot) as [Hroot1 Hroot2].
  set (s := String.concat "/" (absolutePath root :: parts)).
  assert (split s = split (absolutePath root) ++ mbind split parts) as Hsplit.
  { unfold s. rewrite split_concat by discriminate. reflexivity. }
  apply normalize_absolute.
  - unfold s, absolutePath, isAbsolute. destruct parts; [congruence |].
    change (String.concat "/" (?a :: ?b :: ?c)) with (a +:+ String "/" (String.concat "/" (b :: c))).
    rewrite append_cons. apply prefix_slash.
  - destruct (last_plain _ Hne' Hplain) as (l' & x & Hl & Hx).
    eapply endsWithSlash_last; [| exact Hx].
    rewrite Hsplit, Hl, app_assoc. reflexivity.
  - rewrite Hsplit. apply Forall_app. split; [assumption |].
    eapply Forall_impl; [exact Hplain | intros; right; assumption].
  - rewrite Hsplit, filter_app, Hroot2, filter_plain by assumption. reflexivity.
  - intros H. apply app_eq_nil in H as [_ H]. contradiction.
Qed.

Lemma dropCommon_prefix (l r : list string) : dropCommon l (l ++ r) = ([], r).
Proof.
  induction l as [|x l IH]; [destruct r; reflexivity |].
  simpl. rewrite decide_True by reflexivity. exact IH.
Qed.

Lemma relative_under (base rel : list string) :
  Forall plainName base → Forall plainName rel →
  relative (absolutePath base) (absolutePath (base ++ rel)) = String.concat "/" rel.
Proof.
  intros Hbase Hrel. unfold relative.
  destruct (split_absolutePath base Hbase) as [Hb1 Hb2].
  destruct (split_absolutePath (base ++ rel)) as [Ht1 Ht2].
  { apply Forall_app. split; assumption. }
  rewrite !normalizeSegs_plain, Hb2, Ht2 by assumption.
  rewrite dropCommon_prefix. reflexivity.
Qed.

Lemma plainName_src : plainName "src".
Proof. repeat split; discriminate. Qed.

Section WithHost.

Context (h : Host) (root : list string).
Hypothesis cwd_absolute : cwd h = absolutePath root.
Hypothesis root_plain : Forall plainName root.

Lemma assetsRoot_eq : join [projectRoot h; "src"] = absolutePath (root ++ ["src"]).
Proof.
  unfold projectRoot. rewrite cwd_absolute.
  rewrite join_absolute; [reflexivity | assumption | | discriminate].
  repeat constructor; discriminate.
Qed.

(** The logical form of a file below [src]. *)
Lemma toPublicPath_under (rel : list string) :
  Forall plainName rel → rel ≠ [] →
  toPublicPath h (absolutePath (root ++ "src" :: rel)) = absolutePath rel.
Proof.
  intros Hrel Hne. unfold toPublicPath. rewrite assetsRoot_eq.
  replace (root ++ "src" :: rel) with ((root ++ ["src"]) ++ rel)
    by (rewrite <- app_assoc; reflexivity).
  rewrite relative_under;
    [| apply Forall_app; split; [assumption | repeat constructor; apply plainName_src]
     | assumption].
  rewrite split_concat_single;
    [reflexivity | assumption
     | eapply Forall_impl; [exact Hrel | intros ? (? & _); assumption]].
Qed.

(** A logical path resolves below [src]. *)
Lemma resolveInputPath_logical (rel : list string) :
  Forall plainName rel → rel ≠ [] →
  resolveInputPath h (absolutePath rel) = absolutePath (root ++ "src" :: rel).
Proof.
  intros Hrel Hne. unfold resolveInputPath, absolutePath at 1 2.
  rewrite prefix_slash. cbn [dropLeadingSlash]. simpl Ascii.eqb. cbv iota.
  unfold projectRoot. rewrite cwd_absolute.
  assert (Forall singleSegment rel) as Hsingle
    by (eapply Forall_impl; [exact Hrel | intros ? (? & _); assumption]).
  rewrite join_absolute; [| assumption | | discriminate].
  - change (mbind split ["src"; String.concat "/" rel])
      with (split "src" ++ split (String.concat "/" rel) ++ []).
    rewrite split_concat_single, app_nil_r by assumption. reflexivity.
  - constructor; [split; [discriminate | repeat constructor; apply plainName_src] |].
    constructor; [| constructor]. split.
    + destruct rel as [|x rel]; [congruence |].
      apply concat_nonempty. inversion Hrel as [|? ? (_ & ? & _)]. assumption.
    + rewrite split_concat_single by assumption. assumption.
Qed.

End WithHost.

End Resolver.

(** ** Path round trip *)

(** C8.  For a file below the content root [<cwd>/src], given by its
    normal-form absolute path, [toPublicPath] yields the root-relative,
    slash-separated, slash-prefixed logical path, and [resolveInputPath]
    maps that logical path back to the original filesystem path. *)
Theorem path_round_trip (h : Host) (root rel : list string) :
  cwd h = absolutePath root →
  Forall plainName root →
  Forall plainName rel →
  rel ≠ [] →
  toPublicPath h (absolutePath (root ++ "src" :: rel)) = absolutePath rel
  ∧ resolveInputPath h (toPublicPath h (absolutePath (root ++ "src" :: rel)))
    = absolutePath (root ++ "src" :: rel).
Proof.
  intros Hcwd Hroot Hrel Hne.
  rewrite (toPublicPath_under h root Hcwd Hroot rel Hrel Hne).
  split; [reflexivity |].
  apply resolveInputPath_logical; assumption.
Qed.

Lemma path_round_trip_witness :
  (cwd (Reference.host [] []) = absolutePath ["site"]
   ∧ Forall plainName ["site"]
   ∧ Forall plainName ["assets"; "images"; "cat.png"])
  ∧ toPublicPath (Reference.host [] []) "/site/src/assets/images/cat.png"
    = "/assets/images/cat.png"
  ∧ resolveInputPath (Reference.host [] []) "/assets/images/cat.png"
    = "/site/src/assets/images/cat.png".
Proof.
  assert (Forall plainName ["site"]) as Hroot by (repeat constructor; discriminate).
  assert (Forall plainName ["assets"; "images"; "cat.png"]) as Hrel
    by (repeat constructor; discriminate).
  split; [split; [reflexivity | split; assumption] |].
  destruct (path_round_trip (Reference.host [] []) ["site"] ["assets"; "images"; "cat.png"]
              eq_refl Hroot Hrel ltac:(discriminate)) as [Hpub Hback].
  split; [exact Hpub |].
  rewrite Hpub in Hback. exact Hback.
Defined.

(** ** Claims on the leaf components *)

(** C3.  [shouldGenerate] answers [true] when the derivative is absent;
    when it exists, [false] if the source's modification time is at most
    the derivative's (equal included) and [true] if it is strictly later.
    The state is left as it was, and the answer depends only on what the
    two paths hold. *)
Theorem shouldGenerate_staleness (sourcePath outputPath : string) (st : State) :
  (files (disk st) !! outputPath = None →
   shouldGenerate sourcePath outputPath st = (Ok true, st))
  ∧ (∀ src out,
       files (disk st) !! sourcePath = Some src →
       files (disk st) !! outputPath = Some out →
       ((mtimeMs src ≤ mtimeMs out)%Z →
        shouldGenerate sourcePath outputPath st = (Ok false, st))
       ∧ ((mtimeMs out < mtimeMs src)%Z →
          shouldGenerate sourcePath outputPath st = (Ok true, st)))
  ∧ (∀ st2,
       files (disk st2) !! sourcePath = files (disk st) !! sourcePath →
       files (disk st2) !! outputPath = files (disk st) !! outputPath →
       fst (shouldGenerate sourcePath outputPath st2)
       = fst (shouldGenerate sourcePath outputPath st)
       ∧ snd (shouldGenerate sourcePath outputPath st2) = st2).
Proof.
  split; [apply shouldGenerate_absent |]. split.
  - intros src out Hsrc Hout.
    rewrite (shouldGenerate_present _ _ _ _ _ Hsrc Hout). split; intros Hle.
    + rewrite (proj2 (Z.ltb_ge _ _)) by exact Hle. reflexivity.
    + rewrite (proj2 (Z.ltb_lt _ _)) by exact Hle. reflexivity.
  - intros st2 Hsrc Hout. split; [| apply shouldGenerate_pure].
    destruct (files (disk st) !! outputPath) as [out|] eqn:Ho.
    + destruct (files (disk st) !! sourcePath) as [src|] eqn:Hs.
      * rewrite (shouldGenerate_present _ _ st2 src out),
          (shouldGenerate_present _ _ st src out) by assumption. reflexivity.
      * unfold_run. rewrite Hout, Ho.
        rewrite !bool_decide_eq_true_2 by eauto. simpl. rewrite Hsrc, Hs. reflexivity.
    + rewrite !shouldGenerate_absent by assumption. reflexivity.
Qed.

Lemma shouldGenerate_staleness_witness :
  let st := Reference.boot [("/s.png", Reference.imageFile pngSignature 7);
                            ("/equal.jpg", Reference.imageFile Reference.jpegImage 7);
                            ("/older.jpg", Reference.imageFile Reference.jpegImage 6)] 9 in
  shouldGenerate "/s.png" "/none.jpg" st = (Ok true, st)
  ∧ shouldGenerate "/s.png" "/equal.jpg" st = (Ok false, st)
  ∧ shouldGenerate "/s.png" "/older.jpg" st = (Ok true, st).
Proof.
  intros st.
  split; [apply (proj1 (shouldGenerate_staleness "/s.png" "/none.jpg" st)); reflexivity |].
  split.
  - apply (proj1 (proj2 (shouldGenerate_staleness "/s.png" "/equal.jpg" st))
             (Reference.imageFile pngSignature 7)
             (Reference.imageFile Reference.jpegImage 7)); [reflexivity .. |].
    simpl. lia.
  - apply (proj1 (proj2 (shouldGenerate_staleness "/s.png" "/older.jpg" st))
             (Reference.imageFile pngSignature 7)
             (Reference.imageFile Reference.jpegImage 6)); [reflexivity .. |].
    simpl. lia.
Defined.

(** C4.  On a readable file the detector returns exactly one of the three
    classes and leaves the state alone: PNG when the file starts with the
    8-byte PNG signature, JPEG when it starts with [FF D8 FF], and
    unrecognised for every other content, which includes every file
    shorter than three bytes. *)
Theorem detectImageType_classification (filePath : string) (st : State) (f : File) :
  files (disk st) !! filePath = Some f →
  readable f = true →
  ∃ t, detectImageType filePath st = (Ok t, st)
       ∧ (pngSignature `prefix_of` content f → t = png)
       ∧ ([xff; xd8; xff] `prefix_of` content f → t = jpeg)
       ∧ (¬ pngSignature `prefix_of` content f →
          ¬ [xff; xd8; xff] `prefix_of` content f → t = other)
       ∧ (length (content f) < 3 → t = other).
Proof.
  intros Hf Hr. exists (classify (content f)).
  split; [apply detectImageType_readable; assumption |].
  unfold classify. repeat split.
  - intros Hp. rewrite bool_decide_eq_true_2 by assumption. reflexivity.
  - intros Hj. rewrite bool_decide_eq_false_2, bool_decide_eq_true_2;
      [reflexivity | assumption |].
    intros [k Hk]. destruct Hj as [k' Hk']. rewrite Hk in Hk'. discriminate Hk'.
  - intros Hp Hj. rewrite !bool_decide_eq_false_2 by assumption. reflexivity.
  - intros Hlen. rewrite !bool_decide_eq_false_2; [reflexivity | |];
      intros [k Hk]; rewrite Hk in Hlen; simpl in Hlen; lia.
Qed.

Lemma detectImageType_classification_witness :
  let st := Reference.boot [("/a.png", Reference.imageFile (pngSignature ++ [x00; x0d]) 1);
                            ("/b.jpg", Reference.imageFile Reference.jpegImage 1);
                            ("/c.txt", Reference.textFile "hi" 1)] 2 in
  detectImageType "/a.png" st = (Ok png, st)
  ∧ detectImageType "/b.jpg" st = (Ok jpeg, st)
  ∧ detectImageType "/c.txt" st = (Ok other, st).
Proof.
  intros st.
  split; [| split].
  - destruct (detectImageType_classification "/a.png" st
                (Reference.imageFile (pngSignature ++ [x00; x0d]) 1) eq_refl eq_refl)
      as (t & Hrun & Hpng & _).
    rewrite Hrun, Hpng; [reflexivity |]. exists [x00; x0d]. reflexivity.
  - destruct (detectImageType_classification "/b.jpg" st
                (Reference.imageFile Reference.jpegImage 1) eq_refl eq_refl)
      as (t & Hrun & _ & Hjpeg & _).
    rewrite Hrun, Hjpeg; [reflexivity |]. exists [xe0; x00; x10; x4a; x46; x49; x46].
    reflexivity.
  - destruct (detectImageType_classification "/c.txt" st
                (Reference.textFile "hi" 1) eq_refl eq_refl)
      as (t & Hrun & _ & _ & _ & Hshort).
    rewrite Hrun, Hshort; [reflexivity |]. simpl. lia.
Defined.

(** ** What a pass can and cannot change *)

Section Frame.

(** [R] is kept by every spawn whose last argument is [safe]; the script
    only ever passes safe ones. *)
Context (h : Host) (R : State → State → Prop) (safe : string → Prop).
Hypothesis R_refl : ∀ st, R st st.
Hypothesis R_trans : ∀ a b c, R a b → R b c → R a c.
Hypothesis R_spawn :
  ∀ command args st, safe (List.last args "") → R st (snd (spawn h command args st)).
Hypothesis R_warn : ∀ message st, R st (snd (emit (Warn message) st)).
Hypothesis safe_probe :
  ∀ c, c ∈ ["ffmpeg"; "sips"; "cwebp"] → safe ("command -v " +:+ c).
Hypothesis safe_derivative :
  ∀ d n ext, ext ∈ [".webp"; ".jpg"] → safe (Path.join [d; n +:+ ext]).

Lemma preserves_ret {A} (a : A) : preserves R (ret a).
Proof. intros st. apply R_refl. Qed.

Lemma preserves_throw {A} message : preserves R (@throw A message).
Proof. intros st. apply R_refl. Qed.

Lemma preserves_bind {A B} (m : Run A) (k : A → Run B) :
  preserves R m → (∀ a, preserves R (k a)) → preserves R (bind m k).
Proof.
  intros Hm Hk st. unfold bind. specialize (Hm st).
  destruct (m st) as [[a | e] st1]; simpl in *; [| assumption].
  eapply R_trans; [exact Hm | apply Hk].
Qed.

Lemma preserves_existsSync p : preserves R (existsSync p).
Proof. intros st. apply R_refl. Qed.

Lemma preserves_statSync p : preserves R (statSync_mtimeMs p).
Proof.
  intros st. unfold statSync_mtimeMs.
  destruct (files (disk st) !! p); apply R_refl.
Qed.

Lemma preserves_readBytes p : preserves R (readBytes p).
Proof.
  intros st. unfold readBytes.
  destruct (files (disk st) !! p) as [f |]; [destruct (readable f) |]; apply R_refl.
Qed.

Lemma preserves_spawn command args :
  safe (List.last args "") → preserves R (spawn h command args).
Proof. intros Hsafe st. apply R_spawn, Hsafe. Qed.

Lemma preserves_warn message : preserves R (emit (Warn message)).
Proof. intros st. apply R_warn. Qed.

Ltac frame :=
  repeat first
    [ apply preserves_ret | apply preserves_throw
    | apply preserves_existsSync | apply preserves_statSync
    | apply preserves_readBytes | apply preserves_warn
    | apply preserves_spawn; cbn [List.last]
    | apply preserves_bind; [| intros ?]
    | assumption
    | apply safe_probe; apply list_elem_of_In; simpl; tauto
    | apply safe_derivative; apply list_elem_of_In; simpl; tauto
    | lazymatch goal with
      | |- preserves _ (if ?b then _ else _) => destruct b
      | |- preserves _ (match ?x with _ => _ end) => destruct x
      end
    | progress autounfold with script ].

Lemma preserves_shouldGenerate a b : preserves R (shouldGenerate a b).
Proof. frame. Qed.

Lemma preserves_detectImageType p : preserves R (detectImageType p).
Proof. frame. Qed.

Lemma preserves_runCommand command args :
  safe (List.last args "") → preserves R (runCommand h command args).
Proof. intros Hsafe. frame. Qed.

Lemma preserves_pickConverter : preserves R (pickConverter h).
Proof. frame. Qed.

Lemma preserves_readJson p : preserves R (readJson h p).
Proof. frame. Qed.

Lemma preserves_visit converter video : preserves R (visit h converter video).
Proof.
  unfold visit.
  destruct video as [| | | | |fields]; cbn [getProp truthy negb];
    try apply preserves_throw; try apply preserves_ret.
  destruct (negb (truthy _)); [apply preserves_ret |].
  destruct (lookupField _ _) as [[]|]; try apply preserves_throw.
  frame.
Qed.

Lemma preserves_forEach converter videos :
  ∀ pass, preserves R (forEach h converter videos pass).
Proof.
  induction videos as [|video rest IH]; intros pass; simpl.
  - apply preserves_ret.
  - apply preserves_bind; [apply preserves_visit |].
    intros [video' verdict]. apply IH.
Qed.

End Frame.

Lemma grewWithoutWrite_refl st : grewWithoutWrite st st.
Proof. exists []. rewrite app_nil_r. split; [reflexivity | constructor]. Qed.

Lemma grewWithoutWrite_trans a b c :
  grewWithoutWrite a b → grewWithoutWrite b c → grewWithoutWrite a c.
Proof.
  intros (e1 & H1 & F1) (e2 & H2 & F2). exists (e1 ++ e2).
  rewrite H2, H1, app_assoc. split; [reflexivity | apply Forall_app; split; assumption].
Qed.

Lemma grewWithoutWrite_spawn h command args st :
  True → grewWithoutWrite st (snd (spawn h command args st)).
Proof. intros _. exists [Spawn command args]. split; [reflexivity | repeat constructor]. Qed.

Lemma grewWithoutWrite_warn message st :
  grewWithoutWrite st (snd (emit (Warn message) st)).
Proof. exists [Warn message]. split; [reflexivity | repeat constructor]. Qed.





(** ** What the loop body returns *)

Lemma lookupField_setField_eq k x fields : lookupField k (setField k x fields) = Some x.
Proof.
  induction fields as [|[k' y] fields IH]; simpl.
  - rewrite decide_True by reflexivity. reflexivity.
  - destruct (decide (k' = k)) as [-> | Hne]; simpl.
    + rewrite decide_True by reflexivity. reflexivity.
    + rewrite decide_False by assumption. exact IH.
Qed.

Lemma lookupField_setField_ne k k' x fields :
  k ≠ k' → lookupField k' (setField k x fields) = lookupField k' fields.
Proof.
  intros Hne. induction fields as [|[k0 y] fields IH]; simpl.
  - rewrite decide_False by assumption. reflexivity.
  - destruct (decide (k0 = k)) as [-> | Hk0]; simpl.
    + rewrite !decide_False by assumption. reflexivity.
    + destruct (decide (k0 = k')); [reflexivity | exact IH].
Qed.

(** Assignment keeps the keys that were there, in their order. *)
Lemma setField_keys k x fields :
  fst <$> setField k x fields
  = if bool_decide (k ∈ fst <$> fields) then fst <$> fields else (fst <$> fields) ++ [k].
Proof.
  induction fields as [|[k' y] fields IH]; csimpl; [reflexivity |].
  destruct (decide (k' = k)) as [-> | Hne]; csimpl.
  - rewrite bool_decide_eq_true_2 by left. reflexivity.
  - rewrite IH. destruct (bool_decide (k ∈ fst <$> fields)) eqn:Hin.
    + apply bool_decide_eq_true in Hin.
      rewrite bool_decide_eq_true_2 by (right; assumption). reflexivity.
    + apply bool_decide_eq_false in Hin.
      rewrite bool_decide_eq_false_2; [reflexivity |].
      intros H. apply elem_of_cons in H as [-> | H]; [congruence | contradiction].
Qed.

Lemma managedUpdate_fields v v' :
  managedUpdate v v' →
  (getProp "image" v' ≠ getProp "image" v ∨ getProp "imageWebp" v' ≠ getProp "imageWebp" v)
  ∧ (∀ k, k ≠ "image" → k ≠ "imageWebp" → getProp k v' = getProp k v).
Proof.
  intros (fields & a & b & -> & -> & Hdiff). simpl. split.
  - destruct Hdiff as [Hd | Hd]; [left | right].
    + rewrite lookupField_setField_ne, lookupField_setField_eq by discriminate. congruence.
    + rewrite lookupField_setField_eq. congruence.
  - intros k Hk1 Hk2. rewrite !lookupField_setField_ne by congruence. reflexivity.
Qed.

Lemma managedUpdate_neq v v' : managedUpdate v v' → v' ≠ v.
Proof.
  intros Hm Heq. destruct (managedUpdate_fields _ _ Hm) as [[H | H] _];
    apply H; rewrite Heq; reflexivity.
Qed.

Lemma differs_true a s : differs a s = true → a ≠ Some (JStr s).
Proof.
  intros H ->. simpl in H. rewrite bool_decide_eq_true_2 in H by reflexivity. discriminate.
Qed.

Lemma commit_outcome fields nextImage nextWebp :
  visitOutcome (JObj fields) (commit (JObj fields) nextImage nextWebp).
Proof.
  unfold commit, visitOutcome.
  destruct (differs _ nextImage || differs _ nextWebp) eqn:Hd; simpl; [| reflexivity].
  exists fields, nextImage, nextWebp. split; [reflexivity |]. split; [reflexivity |].
  apply orb_true_iff in Hd as [Hd | Hd]; [left | right]; apply differs_true in Hd; exact Hd.
Qed.

Section Returns.

Context {A : Type} (Q : A → Prop).

Lemma returns_ret a : Q a → returns Q (ret a).
Proof. intros Ha st a' st' [= <- _]. exact Ha. Qed.

Lemma returns_throw message : returns Q (throw message).
Proof. intros st a st' H. discriminate H. Qed.

Lemma returns_bind {B} (m : Run B) (k : B → Run A) :
  (∀ b, returns Q (k b)) → returns Q (bind m k).
Proof.
  intros Hk st a st' H. unfold bind in H.
  destruct (m st) as [[b | e] st1]; [eapply Hk; exact H | discriminate H].
Qed.

End Returns.

Lemma bind_Ok {A B} (m : Run A) (k : A → Run B) st b st' :
  bind m k st = (Ok b, st') → ∃ a st1, m st = (Ok a, st1) ∧ k a st1 = (Ok b, st').
Proof.
  unfold bind. destruct (m st) as [[a | e] st1]; [eauto | discriminate].
Qed.

Lemma visit_outcome h converter video :
  returns (visitOutcome video) (visit h converter video).
Proof.
  unfold visit.
  destruct video as [| | | | |fields]; cbn [getProp truthy negb];
    try apply returns_throw; try (apply returns_ret; reflexivity).
  destruct (negb (truthy _)); [apply returns_ret; reflexivity |].
  destruct (lookupField _ _) as [[]|]; try apply returns_throw.
  apply returns_bind. intros present.
  destruct (negb present).
  - apply returns_bind. intros _. apply returns_ret. reflexivity.
  - apply returns_bind. intros [].
    + apply returns_bind. intros _. apply returns_ret, commit_outcome.
    + apply returns_bind. intros _. apply returns_ret, commit_outcome.
    + apply returns_ret. reflexivity.
Qed.

(** ** The loop *)

Lemma forEach_entries h converter videos :
  ∀ pass st pass' st',
    forEach h converter videos pass st = (Ok pass', st') →
    ∃ visited,
      entries pass' = entries pass ++ visited
      ∧ Forall2 (λ v v', v' = v ∨ managedUpdate v v') videos visited
      ∧ (updatedData pass' = true →
         updatedData pass = true
         ∨ ∃ i v v', videos !! i = Some v ∧ visited !! i = Some v' ∧ managedUpdate v v').
Proof.
  induction videos as [|video rest IH]; intros pass st pass' st' Hrun.
  - injection Hrun as <- <-. exists []. rewrite app_nil_r.
    split; [reflexivity |]. split; [constructor | auto].
  - simpl in Hrun. apply bind_Ok in Hrun as ([video' verdict] & st1 & Hvisit & Hrest).
    apply IH in Hrest as (visited & Hentries & Hall & Hupd).
    pose proof (visit_outcome h converter video _ _ _ Hvisit) as Hout.
    unfold visitOutcome in Hout. simpl in Hout, Hentries, Hupd.
    exists (video' :: visited). split; [| split].
    + rewrite Hentries, <- app_assoc. reflexivity.
    + constructor; [| exact Hall].
      destruct verdict; [left; exact Hout | left; exact Hout | right; exact Hout].
    + intros Htrue. destruct (Hupd Htrue) as [Hrec | (i & v & v' & Hv & Hv' & Hm)].
      * destruct verdict; [left; exact Hrec | left; exact Hrec |].
        right. exists 0, video, video'. auto.
      * right. exists (S i), v, v'. auto.
Qed.

(** A string is iterated character by character, and no character has an
    [image] property. *)
Lemma forEach_characters h converter (cs : list ascii) :
  ∀ pass st,
    ∃ pass', forEach h converter ((λ c, JStr (String c "")) <$> cs) pass st = (Ok pass', st)
             ∧ updatedData pass' = updatedData pass.
Proof.
  induction cs as [|c cs IH]; intros pass st.
  - exists pass. split; reflexivity.
  - destruct (IH (record pass (JStr (String c "")) Skipped) st) as (pass' & Hrun & Hupd).
    exists pass'. split; [exact Hrun | exact Hupd].
Qed.

Lemma readBytes_state p st : snd (readBytes p st) = st.
Proof.
  unfold readBytes. destruct (files (disk st) !! p) as [f |]; [destruct (readable f) |];
    reflexivity.
Qed.

Lemma readJson_state h p st : snd (readJson h p st) = st.
Proof.
  unfold readJson, bind. pose proof (readBytes_state p st) as H.
  destruct (readBytes p st) as [[bytes | e] st1]; simpl in H; subst st1; [| reflexivity].
  destruct (JSON_parse h _); reflexivity.
Qed.

Lemma grew_pickConverter h : preserves grewWithoutWrite (pickConverter h).
Proof.
  apply (preserves_pickConverter h grewWithoutWrite (λ _, True));
    eauto using grewWithoutWrite_refl, grewWithoutWrite_trans, grewWithoutWrite_spawn,
      grewWithoutWrite_warn.
Qed.

Lemma grew_forEach h converter videos pass :
  preserves grewWithoutWrite (forEach h converter videos pass).
Proof.
  apply (preserves_forEach h grewWithoutWrite (λ _, True));
    eauto using grewWithoutWrite_refl, grewWithoutWrite_trans, grewWithoutWrite_spawn,
      grewWithoutWrite_warn.
Qed.

(** A visit whose source is missing or unclassifiable hands the entry back
    as it was and leaves the disk alone. *)
Lemma visit_skips h converter video image st :
  getProp "image" video = Some (JStr image) →
  (files (disk st) !! resolveInputPath h image = None
   ∨ ∃ f, files (disk st) !! resolveInputPath h image = Some f
          ∧ readable f = true ∧ classify (content f) = other) →
  ∃ st', visit h converter video st = (Ok (video, Skipped), st') ∧ disk st' = disk st.
Proof.
  intros Himage Hsrc. unfold visit.
  destruct video as [| | | | |fields]; try discriminate Himage.
  rewrite Himage. cbn [truthy].
  destruct (bool_decide (image = "")); cbn [negb]; [eexists; split; reflexivity |].
  unfold bind at 1. unfold fileExists, existsSync.
  destruct Hsrc as [Hnone | (f & Hf & Hr & Hc)].
  - rewrite Hnone. rewrite bool_decide_eq_false_2 by (intros [? ?]; discriminate).
    eexists. split; reflexivity.
  - rewrite Hf. rewrite bool_decide_eq_true_2 by eauto. cbn [negb].
    unfold bind at 1. rewrite (detectImageType_readable _ _ _ Hf Hr), Hc.
    eexists. split; reflexivity.
Qed.

(** ** The orchestrator, stage by stage *)

Lemma main_stages h st :
  main h st =
  match pickConverter h st with
  | (Throw e, st1) => (Throw e, st1)
  | (Ok converter, st1) =>
      match fst (readJson h (videosPath h) st1) with
      | Throw e => (Throw e, st1)
      | Ok videos =>
          match iterate videos with
          | None => (Throw "TypeError: videos is not iterable", st1)
          | Some items =>
              match forEach h converter items
                      {| entries := []; processed := 0; updatedData := false |} st1 with
              | (Throw e, st2) => (Throw e, st2)
              | (Ok pass, st2) =>
                  if updatedData pass then
                    match writeRefused h (videosPath h) (disk st2) with
                    | Some e => (Throw e, st2)
                    | None =>
                        emit (Log (summary (processed pass) converter))
                          (snd (writeJson h (videosPath h) (mutated videos (entries pass)) st2))
                    end
                  else emit (Log (summary (processed pass) converter)) st2
              end
          end
      end
  end.
Proof.
  unfold main. unfold bind at 1.
  destruct (pickConverter h st) as [[converter | e] st1]; [| reflexivity].
  unfold bind at 1. pose proof (readJson_state h (videosPath h) st1) as Hst.
  destruct (readJson h (videosPath h) st1) as [[videos | e] st1']; simpl in Hst; subst st1';
    [| reflexivity].
  cbn [fst]. destruct (iterate videos) as [items |]; [| reflexivity].
  unfold bind at 1.
  destruct (forEach h converter items _ st1) as [[pass | e] st2]; [| reflexivity].
  destruct (updatedData pass); [| reflexivity].
  unfold bind, writeJson, writeFileSync.
  destruct (writeRefused h (videosPath h) (disk st2)); reflexivity.
Qed.

(** C9.  A run appends to the trace either no write at all, or exactly
    one write, of the metadata file, as its last action before the
    summary line; in that case the array written has the loaded entries
    in their positions, each one either identical to the loaded entry or
    the loaded entry with the two managed fields assigned, and at least
    one entry had a managed field changed.  Such an assignment changes
    [image] or [imageWebp] and no other field.  Independently of the run,
    an entry whose source is missing or unclassifiable when it is visited
    is handed back identical and the disk is left alone. *)
Theorem metadata_written_once (h : Host) (st : State) :
  (∃ evs,
     trace (snd (main h st)) = trace st ++ evs
     ∧ (Forall (λ e, isWrite e = false) evs
        ∨ ∃ pre converter st1 items visited n,
            pickConverter h st = (Ok converter, st1)
            ∧ readJson h (videosPath h) st1 = (Ok (JArr items), st1)
            ∧ evs = pre ++ [WriteFile (videosPath h)
                              (JSON_stringify h (JArr visited) +:+ String "010" "");
                            Log (summary n converter)]
            ∧ Forall (λ e, isWrite e = false) pre
            ∧ Forall2 (λ v v', v' = v ∨ managedUpdate v v') items visited
            ∧ ∃ i v v', items !! i = Some v ∧ visited !! i = Some v' ∧ managedUpdate v v'))
  ∧ (∀ v v',
       managedUpdate v v' →
       (getProp "image" v' ≠ getProp "image" v
        ∨ getProp "imageWebp" v' ≠ getProp "imageWebp" v)
       ∧ (∀ k, k ≠ "image" → k ≠ "imageWebp" → getProp k v' = getProp k v))
  ∧ (∀ converter video image st0,
       getProp "image" video = Some (JStr image) →
       (files (disk st0) !! resolveInputPath h image = None
        ∨ ∃ f, files (disk st0) !! resolveInputPath h image = Some f
               ∧ readable f = true ∧ classify (content f) = other) →
       ∃ st0', visit h converter video st0 = (Ok (video, Skipped), st0')
               ∧ disk st0' = disk st0).
Proof.
  split; [| split; [apply managedUpdate_fields
                   | intros converter video image st0; apply visit_skips]].
  rewrite main_stages.
  destruct (grew_pickConverter h st) as (probes & Hprobes & Fprobes).
  destruct (pickConverter h st) as [[converter | e] st1] eqn:Hpick; simpl in Hprobes;
    [| exists probes; split; [exact Hprobes | left; exact Fprobes]].
  pose proof (readJson_state h (videosPath h) st1) as Hst.
  destruct (readJson h (videosPath h) st1) as [[videos | e] st1'] eqn:Hread;
    simpl in Hst; subst st1'; cbn [fst];
    [| exists probes; split; [exact Hprobes | left; exact Fprobes]].
  destruct (iterate videos) as [items |] eqn:Hiter;
    [| exists probes; split; [exact Hprobes | left; exact Fprobes]].
  set (pass0 := {| entries := []; processed := 0; updatedData := false |}).
  destruct (grew_forEach h converter items pass0 st1) as (body & Hbody & Fbody).
  destruct (forEach h converter items pass0 st1) as [[pass | e] st2] eqn:Hloop;
    simpl in Hbody.
  2:{ exists (probes ++ body). simpl. rewrite Hbody, Hprobes, app_assoc.
      split; [reflexivity | left; apply Forall_app; split; assumption]. }
  destruct (updatedData pass) eqn:Hupd.
  - (* one write, then the summary *)
    destruct videos as [| | | s |items'|]; try discriminate Hiter.
    + (* a string: nothing is ever updated *)
      injection Hiter as <-.
      destruct (forEach_characters h converter (list_ascii_of_string s) pass0 st1)
        as (pass' & Hrun & Hsame).
      rewrite Hloop in Hrun. injection Hrun as <- _. rewrite Hupd in Hsame.
      discriminate Hsame.
    + injection Hiter as <-.
      destruct (forEach_entries _ _ _ _ _ _ _ Hloop) as (visited & Hentries & Hall & Hsome).
      simpl in Hentries.
      destruct (Hsome Hupd) as [Hfalse | Hchanged]; [discriminate Hfalse |].
      destruct (writeRefused h (videosPath h) (disk st2)) as [e |] eqn:Hrefused.
      { (* the write is refused: nothing was written *)
        exists (probes ++ body). simpl. rewrite Hbody, Hprobes, app_assoc.
        split; [reflexivity | left; apply Forall_app; split; assumption]. }
      eexists. split; [| right].
      * unfold emit, writeJson, writeFileSync. rewrite Hrefused. simpl.
        rewrite Hbody, Hprobes, <- !app_assoc. reflexivity.
      * exists (probes ++ body), converter, st1, items', visited, (processed pass).
        rewrite <- !app_assoc, Hentries.
        repeat split; try assumption; try reflexivity.
        apply Forall_app; split; assumption.
  - exists (probes ++ body ++ [Log (summary (processed pass) converter)]).
    unfold emit. simpl. rewrite Hbody, Hprobes, <- !app_assoc.
    split; [reflexivity | left].
    apply Forall_app; split; [assumption |].
    apply Forall_app; split; [assumption | repeat constructor].
Qed.

(** ** No derivative is the metadata file *)

Section LastChar.

Import Path.

Lemma lastChar_None s : lastChar s = None → s = "".
Proof.
  induction s as [|c s IH]; [reflexivity |].
  simpl. destruct s; [discriminate |]. intros H. discriminate (IH H).
Qed.

Lemma lastChar_append a b : b ≠ "" → lastChar (a +:+ b) = lastChar b.
Proof.
  intros Hb. induction a as [|c a IH]; [reflexivity |].
  rewrite append_cons. simpl. rewrite IH.
  destruct (a +:+ b) eqn:Hab; [| reflexivity].
  destruct a; [rewrite append_empty_l in Hab; contradiction | discriminate Hab].
Qed.

Lemma split_append_single a b :
  singleSegment b → ∃ l y, split a = l ++ [y] ∧ split (a +:+ b) = l ++ [y +:+ b].
Proof.
  intros Hb. induction a as [|c a (l & y & Ha & Hab)].
  - exists [], "". split; [reflexivity | exact Hb].
  - rewrite append_cons. simpl. rewrite Ha, Hab.
    destruct (Ascii.eqb c "/").
    + exists ("" :: l), y. split; reflexivity.
    + destruct l as [|seg l].
      * exists [], (String c y). split; reflexivity.
      * exists (String c seg :: l), y. split; reflexivity.
Qed.

Lemma lastChar_concat (l : list string) x :
  x ≠ "" → lastChar (String.concat "/" (l ++ [x])) = lastChar x.
Proof.
  intros Hx. induction l as [|y l IH]; [reflexivity |].
  assert (String.concat "/" ((y :: l) ++ [x])
          = y +:+ String "/" (String.concat "/" (l ++ [x]))) as ->.
  { destruct l; reflexivity. }
  rewrite lastChar_append by discriminate. simpl.
  destruct (String.concat "/" (l ++ [x])) eqn:Hc; [| exact IH].
  symmetry in IH. apply lastChar_None in IH. contradiction.
Qed.

Lemma normalizeSegs_snoc allowAboveRoot (l : list string) x :
  x ≠ "" → x ≠ "." → x ≠ ".." →
  normalizeSegs allowAboveRoot (l ++ [x]) = normalizeSegs allowAboveRoot l ++ [x].
Proof.
  intros H0 H1 H2. unfold normalizeSegs. rewrite fold_left_app. simpl.
  unfold normStep at 1.
  rewrite decide_False by (intros [?|?]; contradiction).
  rewrite decide_False by assumption. reflexivity.
Qed.

Lemma normalize_lastChar s (l : list string) x :
  split s = l ++ [x] → x ≠ "" → x ≠ "." → x ≠ ".." →
  lastChar (normalize s) = lastChar x.
Proof.
  intros Hs H0 H1 H2. unfold normalize.
  rewrite decide_False.
  2:{ intros ->. simpl in Hs.
      destruct l as [|? l']; [injection Hs as <-; contradiction | destruct l'; discriminate Hs]. }
  rewrite Hs, normalizeSegs_snoc by assumption.
  rewrite (endsWithSlash_last s l x Hs H0).
  set (kept := normalizeSegs _ l).
  assert (lastChar (String.concat "/" (kept ++ [x])) = lastChar x) as Hlast
    by (apply lastChar_concat; assumption).
  rewrite decide_False.
  2:{ intros Hempty. rewrite Hempty in Hlast. symmetry in Hlast.
      apply lastChar_None in Hlast. contradiction. }
  rewrite append_empty_r, lastChar_append; [exact Hlast |].
  intros Hempty. rewrite Hempty in Hlast. symmetry in Hlast.
  apply lastChar_None in Hlast. contradiction.
Qed.

(** The last character of a joined path is that of the extension glued to
    its last argument. *)
Lemma join_lastChar (args : list string) (a ext : string) c :
  singleSegment ext → lastChar ext = Some c → c ≠ "."%char →
  lastChar (join (args ++ [a +:+ ext])) = Some c.
Proof.
  intros Hext Hc Hdot.
  assert (ext ≠ "") as Hne by (intros ->; discriminate Hc).
  assert (a +:+ ext ≠ "") as Hz.
  { intros H. destruct a; [rewrite append_empty_l in H; contradiction | discriminate H]. }
  unfold join. rewrite filter_app, (filter_cons_True _ (a +:+ ext)) by assumption.
  rewrite filter_nil.
  set (kept := filter (λ x, x ≠ "") args).
  destruct (kept ++ [a +:+ ext]) as [|p parts] eqn:Hparts;
    [destruct kept; discriminate Hparts |].
  rewrite <- Hparts. clear p parts Hparts.
  destruct (split_append_single a ext Hext) as (l & y & _ & Hsplit).
  assert (lastChar (y +:+ ext) = Some c) as Hlast by (rewrite lastChar_append; assumption).
  rewrite (normalize_lastChar _ (mbind split kept ++ l) (y +:+ ext)); [exact Hlast | ..].
  - rewrite split_concat by (destruct kept; discriminate).
    rewrite bind_app. simpl. rewrite app_nil_r, Hsplit, app_assoc. reflexivity.
  - intros H. rewrite H in Hlast. discriminate Hlast.
  - intros H. rewrite H in Hlast. injection Hlast as <-. contradiction.
  - intros H. rewrite H in Hlast. injection Hlast as <-. contradiction.
Qed.




End LastChar.

Section MetadataFrame.

Context (h : Host).
Hypothesis tools_frame : writesOnlyOutput h.




End MetadataFrame.

(** ** Fatal errors *)

Lemma reference_writesOnlyOutput installed broken :
  writesOnlyOutput (Reference.host installed broken).
Proof.
  intros command args d p Hp. simpl. unfold Reference.tools.
  repeat case_decide; simpl; try reflexivity.
  apply lookup_insert_ne. congruence.
Qed.

Lemma runCommand_fails h command args st :
  status (spawnSync h command args (disk st)) ≠ Some 0%Z →
  ∃ message, runCommand h command args st = (Throw message, snd (spawn h command args st)).
Proof.
  intros Hstatus. unfold runCommand, bind, spawn. simpl.
  rewrite bool_decide_eq_false_2 by assumption.
  eexists. reflexivity.
Qed.

Lemma forEach_throw h converter video rest pass message st st1 :
  visit h converter video st = (Throw message, st1) →
  forEach h converter (video :: rest) pass st = (Throw message, st1).
Proof. intros H. simpl. unfold bind. rewrite H. reflexivity. Qed.



(** ** Order of the first two stages *)

Lemma readJson_missing h p st :
  files (disk st) !! p = None → ∃ message, readJson h p st = (Throw message, st).
Proof.
  intros Hnone. unfold readJson, bind, readBytes. rewrite Hnone. eexists. reflexivity.
Qed.

Lemma readJson_corrupt h p st f :
  files (disk st) !! p = Some f →
  readable f = true →
  JSON_parse h (string_of_list_byte (content f)) = None →
  ∃ message, readJson h p st = (Throw message, st).
Proof.
  intros Hf Hr Hparse. unfold readJson, bind, readBytes. rewrite Hf, Hr, Hparse.
  eexists. reflexivity.
Qed.

(** C7, as the script has it.  Backend selection is the first stage: when
    it fails the run ends with its error, in the state the probes left,
    and the metadata file is never opened.  Loading is the second stage,
    reached only with a backend selected: a missing or unparsable
    metadata file then ends the run with the load error. *)
Theorem selection_precedes_load (h : Host) (st : State) :
  (∀ message st1,
     pickConverter h st = (Throw message, st1) →
     main h st = (Throw message, st1))
  ∧ (∀ converter st1 message st2,
       pickConverter h st = (Ok converter, st1) →
       readJson h (videosPath h) st1 = (Throw message, st2) →
       main h st = (Throw message, st1))
  ∧ (∀ st1,
       files (disk st1) !! videosPath h = None
       ∨ (∃ f, files (disk st1) !! videosPath h = Some f ∧ readable f = true
               ∧ JSON_parse h (string_of_list_byte (content f)) = None) →
       ∃ message, readJson h (videosPath h) st1 = (Throw message, st1)).
Proof.
  split; [| split].
  - intros message st1 Hpick. rewrite main_stages, Hpick. reflexivity.
  - intros converter st1 message st2 Hpick Hread.
    rewrite main_stages, Hpick, Hread. reflexivity.
  - intros st1 [Hnone | (f & Hf & Hr & Hparse)].
    + apply readJson_missing. assumption.
    + eapply readJson_corrupt; eassumption.
Qed.

Lemma selection_precedes_load_witness :
  main Scenario.bareHost Scenario.catWorld
  = (Throw Scenario.noConverter, snd (pickConverter Scenario.bareHost Scenario.catWorld))
  ∧ ∃ message,
      main Scenario.ffmpegHost Scenario.emptyWorld
      = (Throw message, snd (pickConverter Scenario.ffmpegHost Scenario.emptyWorld)).
Proof.
  split.
  - apply (proj1 (selection_precedes_load Scenario.bareHost Scenario.catWorld)).
    vm_compute. reflexivity.
  - destruct (proj2 (proj2 (selection_precedes_load Scenario.ffmpegHost Scenario.emptyWorld))
                (snd (pickConverter Scenario.ffmpegHost Scenario.emptyWorld)))
      as [message Hload]; [left; vm_compute; reflexivity |].
    exists message.
    apply (proj1 (proj2 (selection_precedes_load Scenario.ffmpegHost Scenario.emptyWorld))
             ffmpeg _ message _ ltac:(vm_compute; reflexivity) Hload).
Defined.

(** C7 as claimed fails: with no metadata file and no converter, loading
    first would end the run with the load error before any probe; the
    script instead spawns two probes and ends with the converter error,
    although the load would have failed in the initial state. *)
Lemma load_first_counterexample :
  readJson Scenario.bareHost (videosPath Scenario.bareHost) Scenario.emptyWorld
  = (Throw "ENOENT: no such file or directory, open /site/src/_data/videos.json",
     Scenario.emptyWorld)
  ∧ fst (main Scenario.bareHost Scenario.emptyWorld) = Throw Scenario.noConverter
  ∧ trace (snd (main Scenario.bareHost Scenario.emptyWorld))
    = [Spawn "sh" ["-lc"; "command -v ffmpeg"]; Spawn "sh" ["-lc"; "command -v sips"]]
  ∧ trace (snd (main Scenario.ffmpegHost Scenario.emptyWorld))
    = [Spawn "sh" ["-lc"; "command -v ffmpeg"]].
Proof. repeat split; vm_compute; reflexivity. Qed.

(** ** Missing and unreadable sources *)

Lemma visit_missing h converter video image st :
  getProp "image" video = Some (JStr image) →
  image ≠ "" →
  files (disk st) !! resolveInputPath h image = None →
  visit h converter video st
  = (Ok (video, Skipped), snd (emit (Warn ("Skipping missing file: " +:+ image)) st)).
Proof.
  intros Himage Hne Hnone. unfold visit.
  destruct video as [| | | | |fields]; try discriminate Himage.
  rewrite Himage. cbn [truthy]. rewrite bool_decide_eq_false_2 by assumption. cbn [negb].
  unfold bind at 1. unfold fileExists, existsSync. rewrite Hnone.
  rewrite bool_decide_eq_false_2 by (intros [? ?]; discriminate). reflexivity.
Qed.

Lemma visit_unreadable h converter video image f st :
  getProp "image" video = Some (JStr image) →
  image ≠ "" →
  files (disk st) !! resolveInputPath h image = Some f →
  readable f = false →
  visit h converter video st
  = (Throw ("EACCES: cannot read " +:+ resolveInputPath h image), st).
Proof.
  intros Himage Hne Hf Hr. unfold visit.
  destruct video as [| | | | |fields]; try discriminate Himage.
  rewrite Himage. cbn [truthy]. rewrite bool_decide_eq_false_2 by assumption. cbn [negb].
  unfold bind at 1. unfold fileExists, existsSync. rewrite Hf.
  rewrite bool_decide_eq_true_2 by eauto. cbn [negb].
  unfold bind at 1. rewrite (detectImageType_unreadable _ _ _ Hf Hr). reflexivity.
Qed.

(** C5, as the script has it.  A source path that does not exist never
    reaches the Format Detector: the orchestrator's own existence test
    hands the entry back unchanged with a warning, touches nothing else,
    and the loop goes on with the next entry. *)
Theorem missing_source_skipped (h : Host) (converter : Converter)
    (video : json) (image : string) (rest : list json) (pass : Pass) (st : State) :
  getProp "image" video = Some (JStr image) →
  image ≠ "" →
  files (disk st) !! resolveInputPath h image = None →
  visit h converter video st
  = (Ok (video, Skipped),
     {| disk := disk st; trace := trace st ++ [Warn ("Skipping missing file: " +:+ image)] |})
  ∧ forEach h converter (video :: rest) pass st
    = forEach h converter rest
        {| entries := entries pass ++ [video];
           processed := processed pass;
           updatedData := updatedData pass |}
        {| disk := disk st; trace := trace st ++ [Warn ("Skipping missing file: " +:+ image)] |}.
Proof.
  intros Himage Hne Hnone.
  pose proof (visit_missing h converter video image st Himage Hne Hnone) as Hvisit.
  split; [exact Hvisit |]. simpl. unfold bind at 1. rewrite Hvisit. reflexivity.
Qed.

Lemma missing_source_skipped_witness :
  visit Scenario.ffmpegHost ffmpeg Scenario.ghostEntry Scenario.ghostWorld
  = (Ok (Scenario.ghostEntry, Skipped),
     {| disk := disk Scenario.ghostWorld;
        trace := [Warn "Skipping missing file: ghost.png"] |}).
Proof.
  apply (missing_source_skipped Scenario.ffmpegHost ffmpeg Scenario.ghostEntry
           "ghost.png" [] {| entries := []; processed := 0; updatedData := false |}
           Scenario.ghostWorld).
  - vm_compute. reflexivity.
  - discriminate.
  - vm_compute. reflexivity.
Defined.

(** C5 as claimed fails: a source that exists but cannot be read is not
    skipped.  The run ends with the read error, the entry after it is
    never visited (no converter is spawned), and nothing is written. *)
Lemma unreadable_source_counterexample :
  (∃ f, files (disk Scenario.lockedWorld) !! "/site/src/assets/images/locked.png" = Some f
        ∧ readable f = false)
  ∧ fst (main Scenario.ffmpegHost Scenario.lockedWorld)
    = Throw "EACCES: cannot read /site/src/assets/images/locked.png"
  ∧ trace (snd (main Scenario.ffmpegHost Scenario.lockedWorld))
    = [Spawn "sh" ["-lc"; "command -v ffmpeg"]].
Proof.
  split; [eexists; split; vm_compute; reflexivity |].
  split; vm_compute; reflexivity.
Qed.

(** ** A JPEG source *)

Lemma differs_false a s : differs a s = false → a = Some (JStr s).
Proof.
  destruct a as [[| | |t| |]|]; try discriminate. simpl.
  intros H. apply negb_false_iff, bool_decide_eq_true in H. congruence.
Qed.

Lemma commit_fields fields nextImage nextWebp :
  let video' := fst (commit (JObj fields) nextImage nextWebp) in
  snd (commit (JObj fields) nextImage nextWebp) ≠ Skipped
  ∧ getProp "image" video' = Some (JStr nextImage)
  ∧ getProp "imageWebp" video' = Some (JStr nextWebp)
  ∧ (∀ k, k ≠ "image" → k ≠ "imageWebp" → getProp k video' = lookupField k fields).
Proof.
  unfold commit.
  destruct (differs _ nextImage || differs _ nextWebp) eqn:Hd; simpl.
  - split; [discriminate |]. split; [| split].
    + rewrite lookupField_setField_ne, lookupField_setField_eq by discriminate. reflexivity.
    + apply lookupField_setField_eq.
    + intros k H1 H2. rewrite !lookupField_setField_ne by congruence. reflexivity.
  - apply orb_false_iff in Hd as [Hi Hw].
    apply differs_false in Hi. apply differs_false in Hw. simpl in Hi, Hw.
    split; [discriminate |]. auto.
Qed.

(** C2, as the script has it.  For an entry whose source exists, is
    readable and starts with the JPEG marker, with no WebP derivative yet
    and a converter that exits with status 0: the visit spawns one
    command, whose output argument is the WebP path next to the source,
    and nothing else touches the disk; the entry's [image] becomes the
    logical path of the source file itself and [imageWebp] the logical
    path of the WebP derivative; every other field is kept.  [image]
    therefore keeps its value exactly when it already was that logical
    path. *)
Theorem jpeg_entry_rewritten (h : Host) (converter : Converter)
    (video : json) (image : string) (f : File) (st : State) :
  let inputPath := resolveInputPath h image in
  let webpPath :=
    Path.join [Path.dir (Path.parse inputPath); Path.name (Path.parse inputPath) +:+ ".webp"] in
  let command := fst (webpInvocation converter inputPath webpPath) in
  let args := snd (webpInvocation converter inputPath webpPath) in
  getProp "image" video = Some (JStr image) →
  image ≠ "" →
  files (disk st) !! inputPath = Some f →
  readable f = true →
  [xff; xd8; xff] `prefix_of` content f →
  files (disk st) !! webpPath = None →
  status (spawnSync h command args (disk st)) = Some 0%Z →
  List.last args "" = webpPath
  ∧ ∃ video' verdict,
      visit h converter video st
      = (Ok (video', verdict),
         {| disk := after (spawnSync h command args (disk st));
            trace := trace st ++ [Spawn command args] |})
      ∧ verdict ≠ Skipped
      ∧ getProp "image" video' = Some (JStr (toPublicPath h inputPath))
      ∧ getProp "imageWebp" video' = Some (JStr (toPublicPath h webpPath))
      ∧ (∀ k, k ≠ "image" → k ≠ "imageWebp" → getProp k video' = getProp k video)
      ∧ (getProp "image" video' = getProp "image" video
         ↔ image = toPublicPath h inputPath).
Proof.
  intros inputPath webpPath command args Himage Hne Hf Hr Hjpeg Hwebp Hstatus.
  split; [destruct converter; reflexivity |].
  destruct video as [| | | | |fields]; try discriminate Himage.
  assert (classify (content f) = jpeg) as Hclass.
  { unfold classify. rewrite bool_decide_eq_false_2, bool_decide_eq_true_2;
      [reflexivity | assumption |].
    intros [k Hk]. destruct Hjpeg as [k' Hk']. rewrite Hk in Hk'. discriminate Hk'. }
  pose proof (commit_fields fields (toPublicPath h inputPath) (toPublicPath h webpPath))
    as (Hverdict & Hi & Hw & Hother).
  destruct (commit (JObj fields) (toPublicPath h inputPath) (toPublicPath h webpPath))
    as [video' verdict] eqn:Hcommit.
  cbn [fst snd] in Hverdict, Hi, Hw, Hother.
  exists video', verdict.
  split; [| split; [exact Hverdict | split; [exact Hi | split; [exact Hw | split]]]].
  - assert (convertJpegToWebp h converter inputPath webpPath st
            = (Ok tt, {| disk := after (spawnSync h command args (disk st));
                         trace := trace st ++ [Spawn command args] |})) as Hconv.
    { unfold convertJpegToWebp. unfold bind at 1.
      rewrite (shouldGenerate_absent _ _ _ Hwebp). cbn [negb].
      subst command args. destruct converter; cbn [webpInvocation fst snd] in *;
        unfold runCommand, bind, spawn; rewrite bool_decide_eq_true_2 by assumption;
        reflexivity. }
    unfold visit. rewrite Himage. cbn [truthy].
    rewrite bool_decide_eq_false_2 by assumption. cbn [negb].
    fold inputPath. unfold bind at 1. unfold fileExists, existsSync. rewrite Hf.
    rewrite bool_decide_eq_true_2 by eauto. cbn [negb].
    unfold bind at 1. rewrite (detectImageType_readable _ _ _ Hf Hr), Hclass.
    fold webpPath. unfold bind at 1. rewrite Hconv, Hcommit. reflexivity.
  - exact Hother.
  - rewrite Hi. cbn [getProp] in Himage |- *. rewrite Himage. split; congruence.
Qed.

Lemma jpeg_entry_rewritten_witness :
  ∃ video' verdict st',
    visit Scenario.ffmpegHost ffmpeg Scenario.dogEntry Scenario.dogWorld
    = (Ok (video', verdict), st')
    ∧ getProp "image" video' = Some (JStr "/assets/images/dog.jpg")
    ∧ getProp "imageWebp" video' = Some (JStr "/assets/images/dog.webp")
    ∧ trace st'
      = [Spawn "ffmpeg" ["-y"; "-i"; "/site/src/assets/images/dog.jpg"; "-q:v"; "70";
                         "/site/src/assets/images/dog.webp"]].
Proof.
  destruct (jpeg_entry_rewritten Scenario.ffmpegHost ffmpeg Scenario.dogEntry "dog.jpg"
              (Reference.imageFile Reference.jpegImage 100) Scenario.dogWorld)
    as (_ & video' & verdict & Hvisit & _ & Hi & Hw & _).
  - vm_compute. reflexivity.
  - discriminate.
  - vm_compute. reflexivity.
  - reflexivity.
  - exists [xe0; x00; x10; x4a; x46; x49; x46]. reflexivity.
  - vm_compute. reflexivity.
  - vm_compute. reflexivity.
  - exists video', verdict. eexists. split; [exact Hvisit |].
    split; [exact Hi |]. split; [exact Hw |]. reflexivity.
Defined.

(** C2 as claimed fails on its own example: the entry's [image] is
    ["dog.jpg"] before the run and ["/assets/images/dog.jpg"] after it,
    in memory and in the rewritten metadata file. *)
Lemma image_field_counterexample :
  getProp "image" Scenario.dogEntry = Some (JStr "dog.jpg")
  ∧ fst (visit Scenario.ffmpegHost ffmpeg Scenario.dogEntry Scenario.dogWorld)
    = Ok (JObj [("image", JStr "/assets/images/dog.jpg");
                ("imageWebp", JStr "/assets/images/dog.webp")], Rewritten)
  ∧ trace (snd (main Scenario.ffmpegHost Scenario.dogWorld))
    = [Spawn "sh" ["-lc"; "command -v ffmpeg"];
       Spawn "ffmpeg" ["-y"; "-i"; "/site/src/assets/images/dog.jpg"; "-q:v"; "70";
                       "/site/src/assets/images/dog.webp"];
       WriteFile Scenario.metadataPath
         (Reference.stringify
            (JArr [JObj [("image", JStr "/assets/images/dog.jpg");
                         ("imageWebp", JStr "/assets/images/dog.webp")]])
          +:+ Reference.newline);
       Log "Processed 1 PNG/JPEG image using ffmpeg."].
Proof. repeat split; vm_compute; reflexivity. Qed.

(** ** Order of the two conversions of a PNG source *)

Lemma reference_stampsOutput installed broken :
  stampsOutput (Reference.host installed broken).
Proof.
  intros command args d f Hsh. simpl. unfold Reference.tools.
  rewrite decide_False by assumption.
  repeat case_decide; simpl; try discriminate.
  intros _. rewrite lookup_insert_eq. intros [= <-]. simpl. lia.
Qed.

Lemma runCommand_cases h command args st :
  (status (spawnSync h command args (disk st)) = Some 0%Z
   ∧ runCommand h command args st = (Ok tt, snd (spawn h command args st)))
  ∨ (status (spawnSync h command args (disk st)) ≠ Some 0%Z
     ∧ ∃ message, runCommand h command args st = (Throw message, snd (spawn h command args st))).
Proof.
  destruct (decide (status (spawnSync h command args (disk st)) = Some 0%Z)) as [Hok | Hbad].
  - left. split; [exact Hok |]. unfold runCommand, bind, spawn. simpl.
    rewrite bool_decide_eq_true_2 by assumption. reflexivity.
  - right. split; [exact Hbad | apply runCommand_fails; exact Hbad].
Qed.

Lemma whenStale_absent sourcePath outputPath convert st :
  files (disk st) !! outputPath = None →
  whenStale sourcePath outputPath convert st = convert st.
Proof.
  intros Hnone. unfold whenStale, bind.
  rewrite (shouldGenerate_absent _ _ _ Hnone). reflexivity.
Qed.

(** A gated conversion either leaves the state alone or is the conversion. *)
Lemma whenStale_cases sourcePath outputPath convert st :
  snd (whenStale sourcePath outputPath convert st) = st
  ∨ whenStale sourcePath outputPath convert st = convert st.
Proof.
  unfold whenStale, bind.
  pose proof (shouldGenerate_pure sourcePath outputPath st) as Hpure.
  destruct (shouldGenerate sourcePath outputPath st) as [[[] | e] st1];
    simpl in Hpure; subst st1; auto.
Qed.

Lemma gated_trace h sourcePath outputPath command args st :
  let r := whenStale sourcePath outputPath (runCommand h command args) st in
  snd r = st ∨ snd r = snd (spawn h command args st).
Proof.
  intros r. subst r.
  destruct (whenStale_cases sourcePath outputPath (runCommand h command args) st)
    as [Hsame | ->]; [left; exact Hsame | right].
  destruct (runCommand_cases h command args st) as [[_ ->] | [_ [m ->]]]; reflexivity.
Qed.

Lemma two_gated_traces h src out1 c1 a1 out2 c2 a2 st :
  let r := (whenStale src out1 (runCommand h c1 a1) ;;
            whenStale src out2 (runCommand h c2 a2)) st in
  ∃ evs, trace (snd r) = trace st ++ evs
         ∧ (evs = [] ∨ evs = [Spawn c1 a1] ∨ evs = [Spawn c2 a2]
            ∨ evs = [Spawn c1 a1; Spawn c2 a2])
         ∧ (files (disk st) !! out1 = None → head evs = Some (Spawn c1 a1)).
Proof.
  intros r. subst r. unfold bind at 1.
  pose proof (gated_trace h src out1 c1 a1 st) as H1. cbv zeta in H1.
  pose proof (whenStale_absent src out1 (runCommand h c1 a1) st) as Habs.
  destruct (whenStale src out1 (runCommand h c1 a1) st) as [[[] | e] st1] eqn:Hfirst;
    simpl in H1.
  - pose proof (gated_trace h src out2 c2 a2 st1) as H2. cbv zeta in H2.
    destruct (whenStale src out2 (runCommand h c2 a2) st1) as [o st2]. simpl in H2 |- *.
    destruct H1 as [-> | ->], H2 as [-> | ->]; simpl.
    + exists []. rewrite app_nil_r. split; [reflexivity |]. split; [auto |].
      intros Hnone. specialize (Habs Hnone).
      destruct (runCommand_cases h c1 a1 st) as [[_ Hr] | [_ [m Hr]]];
        rewrite Hr in Habs; [| discriminate Habs].
      injection Habs as Habs. apply (f_equal trace) in Habs. simpl in Habs.
      rewrite <- (app_nil_r (trace st)) in Habs at 1.
      apply app_inv_head in Habs. discriminate Habs.
    + exists [Spawn c2 a2]. split; [reflexivity |]. split; [auto |].
      intros Hnone. specialize (Habs Hnone).
      destruct (runCommand_cases h c1 a1 st) as [[_ Hr] | [_ [m Hr]]];
        rewrite Hr in Habs; [| discriminate Habs].
      injection Habs as Habs. apply (f_equal trace) in Habs. simpl in Habs.
      rewrite <- (app_nil_r (trace st)) in Habs at 1.
      apply app_inv_head in Habs. discriminate Habs.
    + exists [Spawn c1 a1]. split; [reflexivity |]. split; auto.
    + exists [Spawn c1 a1; Spawn c2 a2]. rewrite <- app_assoc.
      split; [reflexivity |]. split; auto 6.
  - destruct H1 as [-> | ->]; simpl.
    + exists []. rewrite app_nil_r. split; [reflexivity |]. split; [auto |].
      intros Hnone. specialize (Habs Hnone).
      destruct (runCommand_cases h c1 a1 st) as [[_ Hr] | [_ [m Hr]]];
        rewrite Hr in Habs; [discriminate Habs |].
      injection Habs as _ Habs. apply (f_equal trace) in Habs. simpl in Habs.
      rewrite <- (app_nil_r (trace st)) in Habs at 1.
      apply app_inv_head in Habs. discriminate Habs.
    + exists [Spawn c1 a1]. split; [reflexivity |]. split; auto.
Qed.

Lemma ffmpeg_fresh_timestamps h sourcePath jpgPath webpPath st st' :
  writesOnlyOutput h →
  stampsOutput h →
  jpgPath ≠ webpPath →
  files (disk st) !! jpgPath = None →
  files (disk st) !! webpPath = None →
  convertWithFfmpeg h sourcePath jpgPath webpPath st = (Ok tt, st') →
  trace st' = trace st ++ [Spawn "ffmpeg" ["-y"; "-i"; sourcePath; "-q:v"; "70"; webpPath];
                           Spawn "ffmpeg" ["-y"; "-i"; sourcePath; "-q:v"; "3"; jpgPath]]
  ∧ ∀ fj fw,
      files (disk st') !! jpgPath = Some fj →
      files (disk st') !! webpPath = Some fw →
      (mtimeMs fw ≤ mtimeMs fj)%Z.
Proof.
  intros Hframe Hstamp Hne Hjpg Hwebp Hrun.
  unfold convertWithFfmpeg in Hrun. unfold bind at 1 in Hrun.
  rewrite (whenStale_absent _ _ _ _ Hwebp) in Hrun.
  set (args1 := ["-y"; "-i"; sourcePath; "-q:v"; "70"; webpPath]) in *.
  set (args2 := ["-y"; "-i"; sourcePath; "-q:v"; "3"; jpgPath]) in *.
  destruct (runCommand_cases h "ffmpeg" args1 st) as [[Hok1 Hr1] | [_ [m Hr1]]];
    rewrite Hr1 in Hrun; [| discriminate Hrun].
  set (st1 := snd (spawn h "ffmpeg" args1 st)) in *.
  assert (files (disk st1) !! jpgPath = None) as Hjpg1.
  { unfold st1. simpl. rewrite (Hframe "ffmpeg" args1 (disk st) jpgPath Hne). exact Hjpg. }
  rewrite (whenStale_absent _ _ _ _ Hjpg1) in Hrun.
  destruct (runCommand_cases h "ffmpeg" args2 st1) as [[Hok2 Hr2] | [_ [m Hr2]]];
    rewrite Hr2 in Hrun; [| discriminate Hrun].
  injection Hrun as <-. split.
  - simpl. rewrite <- app_assoc. reflexivity.
  - intros fj fw Hfj Hfw.
    change (files (after (spawnSync h "ffmpeg" args2 (disk st1))) !! webpPath = Some fw)
      in Hfw.
    change (files (after (spawnSync h "ffmpeg" args2 (disk st1))) !! jpgPath = Some fj)
      in Hfj.
    rewrite (Hframe "ffmpeg" args2 (disk st1) webpPath) in Hfw by (simpl; congruence).
    pose proof (Hstamp "ffmpeg" args1 (disk st) fw ltac:(discriminate) Hok1 Hfw) as [_ Hw].
    pose proof (Hstamp "ffmpeg" args2 (disk st1) fj ltac:(discriminate) Hok2 Hfj) as [Hj _].
    change (disk st1) with (after (spawnSync h "ffmpeg" args1 (disk st))) in Hj. lia.
Qed.

Lemma visit_classified h converter fields image f st :
  lookupField "image" fields = Some (JStr image) →
  image ≠ "" →
  files (disk st) !! resolveInputPath h image = Some f →
  readable f = true →
  visit h converter (JObj fields) st
  = (let inputPath := resolveInputPath h image in
     let parsed := Path.parse inputPath in
     let webpPath := Path.join [Path.dir parsed; Path.name parsed +:+ ".webp"] in
     match classify (content f) with
     | other => ret (JObj fields, Skipped)
     | png =>
         let jpgPath := Path.join [Path.dir parsed; Path.name parsed +:+ ".jpg"] in
         match converter with
         | ffmpeg => convertWithFfmpeg h inputPath jpgPath webpPath
         | sips_cwebp => convertWithSipsAndCwebp h inputPath jpgPath webpPath
         end ;;
         ret (commit (JObj fields) (toPublicPath h jpgPath) (toPublicPath h webpPath))
     | jpeg =>
         convertJpegToWebp h converter inputPath webpPath ;;
         ret (commit (JObj fields) (toPublicPath h inputPath) (toPublicPath h webpPath))
     end) st.
Proof.
  intros Himage Hne Hf Hr. unfold visit. cbn [getProp]. rewrite Himage. cbn [truthy].
  rewrite bool_decide_eq_false_2 by assumption. cbn [negb].
  unfold bind at 1. unfold fileExists, existsSync. rewrite Hf.
  rewrite bool_decide_eq_true_2 by eauto. cbn [negb].
  unfold bind at 1. rewrite (detectImageType_readable _ _ _ Hf Hr).
  cbv zeta. destruct (classify (content f)); reflexivity.
Qed.

Lemma shouldGenerate_exact sourcePath outputPath st src :
  files (disk st) !! sourcePath = Some src →
  shouldGenerate sourcePath outputPath st = (Ok (isStale src outputPath (disk st)), st).
Proof.
  intros Hsrc. unfold isStale.
  destruct (files (disk st) !! outputPath) as [out |] eqn:Hout.
  - apply shouldGenerate_present; assumption.
  - apply shouldGenerate_absent; assumption.
Qed.

Lemma whenStale_exact sourcePath outputPath convert st src :
  files (disk st) !! sourcePath = Some src →
  whenStale sourcePath outputPath convert st
  = if isStale src outputPath (disk st) then convert st else (Ok tt, st).
Proof.
  intros Hsrc. unfold whenStale, bind.
  rewrite (shouldGenerate_exact _ _ _ _ Hsrc).
  destruct (isStale src outputPath (disk st)); reflexivity.
Qed.

(** One gated conversion: spawned exactly when the derivative is stale,
    and fatal exactly when it was spawned and failed. *)
Lemma gated_exact h sourcePath outputPath command args st src :
  files (disk st) !! sourcePath = Some src →
  let r := whenStale sourcePath outputPath (runCommand h command args) st in
  let stale := isStale src outputPath (disk st) in
  snd r = attempted h command args stale st
  ∧ (stale = true → status (spawnSync h command args (disk st)) ≠ Some 0%Z →
     ∃ message, fst r = Throw message)
  ∧ (stale = false ∨ status (spawnSync h command args (disk st)) = Some 0%Z →
     fst r = Ok tt).
Proof.
  intros Hsrc r stale. subst r stale.
  rewrite (whenStale_exact _ _ _ _ _ Hsrc). unfold attempted.
  destruct (isStale src outputPath (disk st)).
  - destruct (runCommand_cases h command args st) as [[Hok ->] | [Hbad [m ->]]].
    + split; [reflexivity |]. split; [intros _ Hne; contradiction | reflexivity].
    + split; [reflexivity |]. split; [intros _ _; exists m; reflexivity |].
      intros [Hfalse | Hok]; [discriminate Hfalse | contradiction].
  - split; [reflexivity |]. split; [intros Hfalse; discriminate Hfalse | reflexivity].
Qed.

Lemma two_gated_in_order h sourcePath c1 a1 out1 c2 a2 out2 st :
  performsInOrder h sourcePath c1 a1 out1 c2 a2 out2
    (whenStale sourcePath out1 (runCommand h c1 a1) ;;
     whenStale sourcePath out2 (runCommand h c2 a2)) st.
Proof.
  intros src Hsrc stale1 st1.
  destruct (gated_exact h sourcePath out1 c1 a1 st src Hsrc) as (Hst1 & Hthrow1 & Hok1).
  fold stale1 in Hst1, Hthrow1, Hok1. fold st1 in Hst1.
  unfold bind.
  destruct (whenStale sourcePath out1 (runCommand h c1 a1) st) as [o1 st1'].
  cbn [fst snd] in Hst1, Hthrow1, Hok1. subst st1'. split.
  - intros Hstale Hbad. destruct (Hthrow1 Hstale Hbad) as [m ->].
    split; [reflexivity | exists m; reflexivity].
  - intros Hfine src1 Hsrc1. rewrite (Hok1 Hfine).
    exact (gated_exact h sourcePath out2 c2 a2 st1 src1 Hsrc1).
Qed.

(** When both ffmpeg conversions ran and succeeded, the JPEG derivative
    was stamped after the WebP derivative. *)
Lemma ffmpeg_both_timestamps h sourcePath jpgPath webpPath st st' :
  writesOnlyOutput h →
  stampsOutput h →
  jpgPath ≠ webpPath →
  convertWithFfmpeg h sourcePath jpgPath webpPath st = (Ok tt, st') →
  trace st' = trace st ++ [Spawn "ffmpeg" ["-y"; "-i"; sourcePath; "-q:v"; "70"; webpPath];
                           Spawn "ffmpeg" ["-y"; "-i"; sourcePath; "-q:v"; "3"; jpgPath]] →
  ∀ fj fw,
    files (disk st') !! jpgPath = Some fj →
    files (disk st') !! webpPath = Some fw →
    (mtimeMs fw ≤ mtimeMs fj)%Z.
Proof.
  intros Hframe Hstamp Hne Hrun Htrace.
  unfold convertWithFfmpeg in Hrun. unfold bind at 1 in Hrun.
  set (args1 := ["-y"; "-i"; sourcePath; "-q:v"; "70"; webpPath]) in *.
  set (args2 := ["-y"; "-i"; sourcePath; "-q:v"; "3"; jpgPath]) in *.
  assert (∀ (l : list Event) x y z, l ++ [x] ≠ l ++ [y; z]) as Hone.
  { intros l x y z H. apply app_inv_head in H. discriminate H. }
  assert (∀ (l : list Event) y z, l ≠ l ++ [y; z]) as Hnone.
  { intros l y z H. rewrite <- (app_nil_r l) in H at 1.
    apply app_inv_head in H. discriminate H. }
  destruct (whenStale_cases sourcePath webpPath (runCommand h "ffmpeg" args1) st)
    as [Hskip1 | Hrun1].
  { (* the WebP conversion did not run *)
    destruct (whenStale sourcePath webpPath (runCommand h "ffmpeg" args1) st)
      as [[[] | e] st1]; [| discriminate Hrun].
    simpl in Hskip1. subst st1.
    destruct (whenStale_cases sourcePath jpgPath (runCommand h "ffmpeg" args2) st)
      as [Hskip2 | Hrun2].
    - rewrite Hrun in Hskip2. simpl in Hskip2. subst st'.
      destruct (Hnone _ _ _ Htrace).
    - rewrite Hrun2 in Hrun.
      destruct (runCommand_cases h "ffmpeg" args2 st) as [[_ Hr] | [_ [m Hr]]];
        rewrite Hr in Hrun; [| discriminate Hrun].
      injection Hrun as <-. simpl in Htrace. destruct (Hone _ _ _ _ Htrace). }
  rewrite Hrun1 in Hrun.
  destruct (runCommand_cases h "ffmpeg" args1 st) as [[Hok1 Hr1] | [_ [m Hr1]]];
    rewrite Hr1 in Hrun; [| discriminate Hrun].
  set (st1 := snd (spawn h "ffmpeg" args1 st)) in *.
  destruct (whenStale_cases sourcePath jpgPath (runCommand h "ffmpeg" args2) st1)
    as [Hskip2 | Hrun2].
  { rewrite Hrun in Hskip2. simpl in Hskip2. subst st'. simpl in Htrace.
    destruct (Hone _ _ _ _ Htrace). }
  rewrite Hrun2 in Hrun.
  destruct (runCommand_cases h "ffmpeg" args2 st1) as [[Hok2 Hr2] | [_ [m Hr2]]];
    rewrite Hr2 in Hrun; [| discriminate Hrun].
  injection Hrun as <-.
  intros fj fw Hfj Hfw.
  change (files (after (spawnSync h "ffmpeg" args2 (disk st1))) !! webpPath = Some fw)
    in Hfw.
  change (files (after (spawnSync h "ffmpeg" args2 (disk st1))) !! jpgPath = Some fj)
    in Hfj.
  rewrite (Hframe "ffmpeg" args2 (disk st1) webpPath) in Hfw by (simpl; congruence).
  pose proof (Hstamp "ffmpeg" args1 (disk st) fw ltac:(discriminate) Hok1 Hfw) as [_ Hw].
  pose proof (Hstamp "ffmpeg" args2 (disk st1) fj ltac:(discriminate) Hok2 Hfj) as [Hj _].
  change (disk st1) with (after (spawnSync h "ffmpeg" args1 (disk st))) in Hj. lia.
Qed.

(** C10.  A PNG source is handed to the converter of the selected
    backend.  [convertWithFfmpeg] attempts its WebP conversion before its
    JPEG conversion and [convertWithSipsAndCwebp] its JPEG conversion
    before its WebP conversion, and each attempt performs the conversion
    exactly when the derivative is stale: absent, or older than the
    source by modification time.  The first command is spawned if and
    only if its derivative is stale on the disk the call starts from; a
    first command that fails ends the call before the second is
    attempted; otherwise the second command is spawned if and only if its
    derivative is stale on the disk the first step left.  So the commands
    a call adds to the trace are some of the two, in that order.  When
    both ffmpeg conversions ran and succeeded (as they do when both
    derivatives are absent), on a host whose tools write only their
    output and stamp it during their run, the JPEG derivative's
    modification time is at or after the WebP derivative's. *)
Theorem conversion_order (h : Host) (sourcePath jpgPath webpPath : string) (st : State) :
  let toWebp := ["-y"; "-i"; sourcePath; "-q:v"; "70"; webpPath] in
  let toJpg := ["-y"; "-i"; sourcePath; "-q:v"; "3"; jpgPath] in
  let sipsToJpg := ["-s"; "format"; "jpeg"; sourcePath; "--out"; jpgPath] in
  let cwebpToWebp := ["-q"; "75"; sourcePath; "-o"; webpPath] in
  let ffmpegWebp := Spawn "ffmpeg" toWebp in
  let ffmpegJpg := Spawn "ffmpeg" toJpg in
  let sipsJpg := Spawn "sips" sipsToJpg in
  let cwebpWebp := Spawn "cwebp" cwebpToWebp in
  (∃ evs,
     trace (snd (convertWithFfmpeg h sourcePath jpgPath webpPath st)) = trace st ++ evs
     ∧ (evs = [] ∨ evs = [ffmpegWebp] ∨ evs = [ffmpegJpg] ∨ evs = [ffmpegWebp; ffmpegJpg])
     ∧ (files (disk st) !! webpPath = None → head evs = Some ffmpegWebp))
  ∧ (∃ evs,
       trace (snd (convertWithSipsAndCwebp h sourcePath jpgPath webpPath st)) = trace st ++ evs
       ∧ (evs = [] ∨ evs = [sipsJpg] ∨ evs = [cwebpWebp] ∨ evs = [sipsJpg; cwebpWebp])
       ∧ (files (disk st) !! jpgPath = None → head evs = Some sipsJpg))
  ∧ (writesOnlyOutput h →
     stampsOutput h →
     jpgPath ≠ webpPath →
     files (disk st) !! jpgPath = None →
     files (disk st) !! webpPath = None →
     ∀ st',
       convertWithFfmpeg h sourcePath jpgPath webpPath st = (Ok tt, st') →
       trace st' = trace st ++ [ffmpegWebp; ffmpegJpg]
       ∧ ∀ fj fw,
           files (disk st') !! jpgPath = Some fj →
           files (disk st') !! webpPath = Some fw →
           (mtimeMs fw ≤ mtimeMs fj)%Z)
  ∧ performsInOrder h sourcePath "ffmpeg" toWebp webpPath "ffmpeg" toJpg jpgPath
      (convertWithFfmpeg h sourcePath jpgPath webpPath) st
  ∧ performsInOrder h sourcePath "sips" sipsToJpg jpgPath "cwebp" cwebpToWebp webpPath
      (convertWithSipsAndCwebp h sourcePath jpgPath webpPath) st
  ∧ (writesOnlyOutput h →
     stampsOutput h →
     jpgPath ≠ webpPath →
     ∀ st',
       convertWithFfmpeg h sourcePath jpgPath webpPath st = (Ok tt, st') →
       trace st' = trace st ++ [ffmpegWebp; ffmpegJpg] →
       ∀ fj fw,
         files (disk st') !! jpgPath = Some fj →
         files (disk st') !! webpPath = Some fw →
         (mtimeMs fw ≤ mtimeMs fj)%Z)
  ∧ (∀ converter fields image f st0,
       lookupField "image" fields = Some (JStr image) →
       image ≠ "" →
       files (disk st0) !! resolveInputPath h image = Some f →
       readable f = true →
       classify (content f) = png →
       let inputPath := resolveInputPath h image in
       let parsed := Path.parse inputPath in
       let jpg := Path.join [Path.dir parsed; Path.name parsed +:+ ".jpg"] in
       let webp := Path.join [Path.dir parsed; Path.name parsed +:+ ".webp"] in
       visit h converter (JObj fields) st0
       = (match converter with
          | ffmpeg => convertWithFfmpeg h inputPath jpg webp
          | sips_cwebp => convertWithSipsAndCwebp h inputPath jpg webp
          end ;;
          ret (commit (JObj fields) (toPublicPath h jpg) (toPublicPath h webp))) st0).
Proof.
  intros toWebp toJpg sipsToJpg cwebpToWebp ffmpegWebp ffmpegJpg sipsJpg cwebpWebp.
  repeat apply conj.
  - apply two_gated_traces.
  - apply two_gated_traces.
  - intros Hframe Hstamp Hne Hjpg Hwebp st' Hrun.
    eapply ffmpeg_fresh_timestamps; eassumption.
  - apply two_gated_in_order.
  - apply two_gated_in_order.
  - intros Hframe Hstamp Hne st' Hrun Htrace.
    eapply ffmpeg_both_timestamps; eassumption.
  - intros converter fields image f st0 Himage Hne Hf Hr Hpng.
    rewrite (visit_classified h converter fields image f st0 Himage Hne Hf Hr).
    cbv zeta. rewrite Hpng. reflexivity.
Qed.

Lemma conversion_order_witness :
  let st' := snd (convertWithFfmpeg Scenario.ffmpegHost "/site/src/assets/images/cat.png"
                    "/site/src/assets/images/cat.jpg" "/site/src/assets/images/cat.webp"
                    Scenario.catWorld) in
  let aged := convertWithFfmpeg Scenario.ffmpegHost "/site/src/assets/images/cat.png"
                "/site/src/assets/images/cat.jpg" "/site/src/assets/images/cat.webp"
                Demo.agedWorld in
  ((writesOnlyOutput Scenario.ffmpegHost ∧ stampsOutput Scenario.ffmpegHost)
   ∧ ∀ fj fw,
       files (disk st') !! "/site/src/assets/images/cat.jpg" = Some fj →
       files (disk st') !! "/site/src/assets/images/cat.webp" = Some fw →
       (mtimeMs fw ≤ mtimeMs fj)%Z)
  ∧ fst aged = Ok tt
  ∧ trace (snd aged)
    = [Spawn "ffmpeg" ["-y"; "-i"; "/site/src/assets/images/cat.png"; "-q:v"; "70";
                       "/site/src/assets/images/cat.webp"]].
Proof.
  intros st' aged. split.
  - split; [split; [apply reference_writesOnlyOutput | apply reference_stampsOutput] |].
    apply (proj1 (proj2 (proj2
             (conversion_order Scenario.ffmpegHost "/site/src/assets/images/cat.png"
                "/site/src/assets/images/cat.jpg" "/site/src/assets/images/cat.webp"
                Scenario.catWorld)))
             (reference_writesOnlyOutput _ _) (reference_stampsOutput _ _)
             ltac:(discriminate) ltac:(vm_compute; reflexivity) ltac:(vm_compute; reflexivity)
             st' ltac:(vm_compute; reflexivity)).
  - pose proof (proj1 (proj2 (proj2 (proj2
             (conversion_order Scenario.ffmpegHost "/site/src/assets/images/cat.png"
                "/site/src/assets/images/cat.jpg" "/site/src/assets/images/cat.webp"
                Demo.agedWorld))))) as Horder.
    destruct (Horder (Reference.imageFile Scenario.pngImage 100)
                ltac:(vm_compute; reflexivity)) as [_ Hsecond].
    destruct (Hsecond ltac:(right; vm_compute; reflexivity)
                (Reference.imageFile Scenario.pngImage 100)
                ltac:(vm_compute; reflexivity)) as (Hstate & _ & Hok).
    split.
    + apply Hok. left. vm_compute. reflexivity.
    + fold aged in Hstate. rewrite Hstate. vm_compute. reflexivity.
Defined.

Lemma metadata_written_once_witness :
  (∃ evs,
     trace (snd (main Scenario.ffmpegHost Scenario.ghostWorld))
     = trace Scenario.ghostWorld ++ evs
     ∧ length (filter (λ e, isWrite e = true) evs) = 1)
  ∧ ∃ st', visit Scenario.ffmpegHost ffmpeg Scenario.ghostEntry Scenario.ghostWorld
           = (Ok (Scenario.ghostEntry, Skipped), st')
           ∧ disk st' = disk Scenario.ghostWorld.
Proof.
  destruct (metadata_written_once Scenario.ffmpegHost Scenario.ghostWorld)
    as (Hrun & _ & Hskip).
  split.
  - destruct Hrun as (evs & Htrace & Hwrites). exists evs. split; [exact Htrace |].
    vm_compute in Htrace. subst evs. vm_compute. reflexivity.
  - apply (Hskip ffmpeg Scenario.ghostEntry "ghost.png" Scenario.ghostWorld).
    + vm_compute. reflexivity.
    + left. vm_compute. reflexivity.
Defined.

(** ** Two runs in a row *)

(** C1, evaluated.  Scenario A under the ffmpeg backend: the first run
    converts [cat.png] to WebP and then to JPEG and rewrites the entry to
    point at [cat.jpg].  The second run, on the disk the first one left,
    finds [cat.jpg] newer than [cat.webp] and spawns ffmpeg once more; the
    metadata file keeps its bytes.  Under the sips and cwebp backend the
    JPEG is written first and the second run spawns no converter. *)
Theorem second_run_reconverts :
  let first := main Scenario.ffmpegHost Scenario.catWorld in
  let second := main Scenario.ffmpegHost (snd first) in
  let firstSips := main Scenario.sipsHost Scenario.catWorld in
  let secondSips := main Scenario.sipsHost (snd firstSips) in
  fst first = Ok tt
  ∧ fst second = Ok tt
  ∧ trace (snd first)
    = [Spawn "sh" ["-lc"; "command -v ffmpeg"];
       Spawn "ffmpeg" ["-y"; "-i"; "/site/src/assets/images/cat.png"; "-q:v"; "70";
                       "/site/src/assets/images/cat.webp"];
       Spawn "ffmpeg" ["-y"; "-i"; "/site/src/assets/images/cat.png"; "-q:v"; "3";
                       "/site/src/assets/images/cat.jpg"];
       WriteFile Scenario.metadataPath
         (Reference.stringify
            (JArr [JObj [("title", JStr "Cat");
                         ("image", JStr "/assets/images/cat.jpg");
                         ("imageWebp", JStr "/assets/images/cat.webp")]])
          +:+ Reference.newline);
       Log "Processed 1 PNG/JPEG image using ffmpeg."]
  ∧ trace (snd second)
    = trace (snd first)
      ++ [Spawn "sh" ["-lc"; "command -v ffmpeg"];
          Spawn "ffmpeg" ["-y"; "-i"; "/site/src/assets/images/cat.jpg"; "-q:v"; "70";
                          "/site/src/assets/images/cat.webp"];
          Log "Processed 1 PNG/JPEG image using ffmpeg."]
  ∧ files (disk (snd second)) !! Scenario.metadataPath
    = files (disk (snd first)) !! Scenario.metadataPath
  ∧ filter (λ e, isConversion e = true) (drop (length (trace (snd firstSips)))
                                              (trace (snd secondSips))) = [].
Proof. repeat split; vm_compute; reflexivity. Qed.

(** * Further properties of the script *)

(** ** More path algebra *)

Section MorePaths.

Import Path.

Lemma fold_normStep_plain allowAboveRoot (l acc : list string) :
  Forall (λ s, s = "" ∨ plainName s) l →
  fold_left (normStep allowAboveRoot) l acc = rev (filter (λ s, s ≠ "") l) ++ acc.
Proof.
  intros Hall. revert acc.
  induction Hall as [|x l Hx _ IH]; intros acc; [reflexivity |].
  simpl. rewrite IH. unfold normStep.
  destruct Hx as [-> | (Hseg & Hne & Hdot & Hdots)].
  - rewrite decide_True by (left; reflexivity).
    rewrite filter_cons_False by (intros H; apply H; reflexivity). reflexivity.
  - rewrite decide_False by (intros [?|?]; congruence).
    rewrite decide_False by assumption.
    rewrite filter_cons_True by assumption.
    simpl. rewrite <- app_assoc. reflexivity.
Qed.

Lemma singleSegment_cons c s :
  singleSegment (String c s) ↔ c ≠ "/"%char ∧ singleSegment s.
Proof.
  unfold singleSegment. simpl.
  destruct (Ascii.eqb_spec c "/") as [-> | Hc].
  - split; [discriminate | intros [H _]; congruence].
  - destruct (split s) as [|seg rest] eqn:Hs; [exfalso; exact (split_nonempty _ Hs) |].
    split.
    + intros [= -> ->]. auto.
    + intros [_ [= -> ->]]. reflexivity.
Qed.

Lemma singleSegment_append a b :
  singleSegment a → singleSegment b → singleSegment (a +:+ b).
Proof.
  intros Ha Hb. induction a as [|c a IH]; [exact Hb |].
  rewrite append_cons. apply singleSegment_cons in Ha as [Hc Ha].
  apply singleSegment_cons. auto.
Qed.

Lemma singleSegment_substring n s :
  singleSegment s → singleSegment (String.substring 0 n s).
Proof.
  revert n. induction s as [|c s IH]; intros n Hs.
  - destruct n; reflexivity.
  - destruct n; [reflexivity |]. simpl.
    apply singleSegment_cons in Hs as [Hc Hs].
    apply singleSegment_cons. auto.
Qed.

Lemma singleSegment_stem b : singleSegment b → singleSegment (stem b).
Proof.
  intros Hb. unfold stem. destruct (decide (b = "..")); [assumption |].
  destruct (lastDot b) as [[|k]|]; try assumption.
  apply singleSegment_substring. assumption.
Qed.

Lemma substring_nonempty k c s : String.substring 0 (S k) (String c s) ≠ "".
Proof. discriminate. Qed.

Lemma stem_nonempty b : b ≠ "" → stem b ≠ "".
Proof.
  intros Hb. unfold stem. destruct (decide (b = "..")); [assumption |].
  destruct (lastDot b) as [[|k]|]; try assumption.
  destruct b; [congruence | discriminate].
Qed.

(** A name with one of the two extensions glued on is a plain name. *)
Lemma plainName_derivative n ext :
  singleSegment n → ext ∈ [".webp"; ".jpg"] → plainName (n +:+ ext).
Proof.
  intros Hn Hext. apply list_elem_of_In in Hext. simpl in Hext.
  assert (singleSegment ext ∧ ∃ c, lastChar ext = Some c ∧ c ≠ "."%char ∧ ext ≠ "")
    as (Hsingle & c & Hc & Hdot & Hne).
  { destruct Hext as [<- | [<- | []]]; (split; [reflexivity |]);
      eexists; (split; [reflexivity |]); split; discriminate. }
  assert (lastChar (n +:+ ext) = Some c) as Hlast by (rewrite lastChar_append; assumption).
  split; [apply singleSegment_append; assumption |].
  repeat split; intros H; rewrite H in Hlast; simpl in Hlast; congruence.
Qed.

Lemma lastDot_append_ext n e :
  lastDot e = None → lastDot (n +:+ String "." e) = Some (String.length n).
Proof.
  intros He. induction n as [|c n IH].
  - rewrite append_empty_l. simpl. rewrite He. reflexivity.
  - rewrite append_cons. simpl. rewrite IH. reflexivity.
Qed.

Lemma substring_append_l n x : String.substring 0 (String.length n) (n +:+ x) = n.
Proof.
  induction n as [|c n IH]; [destruct x; reflexivity |].
  rewrite append_cons. simpl. rewrite IH. reflexivity.
Qed.

(** Stripping an extension that was glued onto a non-empty name gives the
    name back. *)
Lemma stem_append_ext n e :
  n ≠ "" → e ≠ "" → lastDot e = None → stem (n +:+ String "." e) = n.
Proof.
  intros Hn He Hdot. unfold stem.
  rewrite decide_False.
  2:{ destruct n as [|c [|c' n']]; [congruence | |].
      - rewrite append_cons, append_empty_l. destruct e; [congruence | discriminate].
      - rewrite !append_cons. destruct n'; discriminate. }
  rewrite lastDot_append_ext by assumption.
  destruct n as [|c n]; [congruence |].
  exact (substring_append_l (String c n) (String "." e)).
Qed.

(** [path.parse] on a normal-form absolute path. *)
Lemma parse_absolutePath (dirs : list string) (b : string) :
  Forall plainName dirs → plainName b →
  parse (absolutePath (dirs ++ [b]))
  = {| dir := absolutePath dirs; base := b; name := stem b |}.
Proof.
  intros Hdirs (Hseg & Hne & _). unfold parse, absolutePath at 1.
  rewrite split_cons_slash, split_concat_single.
  2:{ destruct dirs; discriminate. }
  2:{ apply Forall_app. split; [| repeat constructor; assumption].
      eapply Forall_impl; [exact Hdirs | intros ? (? & _); assumption]. }
  change ("" :: dirs ++ [b]) with (("" :: dirs) ++ [b]).
  rewrite rev_app_distr. simpl rev at 1. cbn [app].
  destruct b as [|c b']; [congruence |]. cbn [dropTrailingEmpty].
  rewrite rev_involutive. f_equal.
  destruct dirs as [|d dirs]; [reflexivity |].
  change (String.concat "/" ("" :: d :: dirs))
    with ("" +:+ String "/" (String.concat "/" (d :: dirs))).
  rewrite append_empty_l. rewrite decide_False by discriminate. reflexivity.
Qed.

(** Where the derivative of a source goes: next to it, under the source's
    stem and the new extension. *)
Lemma derivative_path (dirs : list string) (b ext : string) :
  Forall plainName dirs → plainName b → ext ∈ [".webp"; ".jpg"] →
  join [dir (parse (absolutePath (dirs ++ [b])));
        name (parse (absolutePath (dirs ++ [b]))) +:+ ext]
  = absolutePath (dirs ++ [stem b +:+ ext]).
Proof.
  intros Hdirs Hb Hext. rewrite parse_absolutePath by assumption. cbn [dir name].
  assert (plainName (stem b +:+ ext)) as Hplain.
  { apply plainName_derivative; [| assumption].
    apply singleSegment_stem. destruct Hb as (? & _). assumption. }
  rewrite join_absolute; [| assumption | | discriminate].
  - simpl. rewrite app_nil_r. destruct Hplain as (-> & _). reflexivity.
  - constructor; [| constructor]. destruct Hplain as (Hseg & Hne & Hrest).
    split; [assumption |]. rewrite Hseg. repeat constructor; tauto.
Qed.

End MorePaths.

(** ** The three spellings of a reference *)

Section References.

Import Path.

Lemma prefix_slash_false c s : c ≠ "/"%char → String.prefix "/" (String c s) = false.
Proof.
  intros Hc.
  change (String.prefix "/" (String c s))
    with (match ascii_dec "/" c with
          | left _ => String.prefix "" s
          | right _ => false
          end).
  destruct (ascii_dec "/" c) as [<- | _]; [congruence | reflexivity].
Qed.

Lemma concat_head (x : string) (l : list string) :
  ∃ t, String.concat "/" (x :: l) = x +:+ t.
Proof.
  destruct l as [|y l].
  - exists "". rewrite append_empty_r. reflexivity.
  - exists (String "/" (String.concat "/" (y :: l))). reflexivity.
Qed.

(** A relative reference made of plain names does not start with the
    root marker. *)
Lemma relative_not_rooted (rel : list string) :
  Forall plainName rel → rel ≠ [] → String.prefix "/" (String.concat "/" rel) = false.
Proof.
  intros Hrel Hne. destruct rel as [|x rel]; [congruence |].
  inversion Hrel as [|? ? (Hseg & Hx & _) _]; subst.
  destruct (concat_head x rel) as [t ->].
  destruct x as [|c x]; [congruence |].
  apply singleSegment_cons in Hseg as [Hc _].
  rewrite append_cons. apply prefix_slash_false. assumption.
Qed.

Lemma reference_part (rel : list string) :
  Forall plainName rel → rel ≠ [] →
  String.concat "/" rel ≠ "" ∧ Forall plainName (split (String.concat "/" rel)).
Proof.
  intros Hrel Hne. split.
  - destruct rel as [|x rel]; [congruence |].
    apply concat_nonempty. inversion Hrel as [|? ? (_ & ? & _)]. assumption.
  - rewrite split_concat_single; [assumption | assumption |].
    eapply Forall_impl; [exact Hrel | intros ? (? & _); assumption].
Qed.

Lemma constant_part (x : string) :
  plainName x → x ≠ "" ∧ Forall plainName (split x).
Proof.
  intros Hx. pose proof Hx as (Hseg & Hne & _). split; [assumption |].
  rewrite Hseg. constructor; [exact Hx | constructor].
Qed.

Lemma plainName_assets : plainName "assets".
Proof. repeat split; discriminate. Qed.

Lemma plainName_images : plainName "images".
Proof. repeat split; discriminate. Qed.

Context (h : Host) (root : list string).
Hypothesis cwd_absolute : cwd h = absolutePath root.
Hypothesis root_plain : Forall plainName root.

(** A reference below the assets subtree resolves directly below [src]. *)
Lemma resolveInputPath_assets (rel : list string) :
  Forall plainName rel → rel ≠ [] →
  String.prefix "assets/" (String.concat "/" rel) = true →
  resolveInputPath h (String.concat "/" rel) = absolutePath (root ++ "src" :: rel).
Proof.
  intros Hrel Hne Hassets. unfold resolveInputPath.
  rewrite (relative_not_rooted rel Hrel Hne), Hassets.
  unfold projectRoot. rewrite cwd_absolute.
  rewrite join_absolute; [| assumption | | discriminate].
  - change (mbind split ["src"; String.concat "/" rel])
      with (split "src" ++ split (String.concat "/" rel) ++ []).
    rewrite split_concat_single, app_nil_r;
      [reflexivity | assumption
       | eapply Forall_impl; [exact Hrel | intros ? (? & _); assumption]].
  - constructor; [apply constant_part, plainName_src |].
    constructor; [apply reference_part; assumption | constructor].
Qed.

(** Any other relative reference resolves below the images directory. *)
Lemma resolveInputPath_bare (rel : list string) :
  Forall plainName rel → rel ≠ [] →
  String.prefix "assets/" (String.concat "/" rel) = false →
  resolveInputPath h (String.concat "/" rel)
  = absolutePath (root ++ "src" :: "assets" :: "images" :: rel).
Proof.
  intros Hrel Hne Hassets. unfold resolveInputPath.
  rewrite (relative_not_rooted rel Hrel Hne), Hassets.
  unfold projectRoot. rewrite cwd_absolute.
  rewrite join_absolute; [| assumption | | discriminate].
  - change (mbind split ["src"; "assets"; "images"; String.concat "/" rel])
      with (split "src" ++ split "assets" ++ split "images"
            ++ split (String.concat "/" rel) ++ []).
    rewrite split_concat_single, app_nil_r;
      [reflexivity | assumption
       | eapply Forall_impl; [exact Hrel | intros ? (? & _); assumption]].
  - constructor; [apply constant_part, plainName_src |].
    constructor; [apply constant_part, plainName_assets |].
    constructor; [apply constant_part, plainName_images |].
    constructor; [apply reference_part; assumption | constructor].
Qed.

End References.

(** X1.  How a reference made of plain names resolves, with the working
    directory in normal form: a rooted reference and a reference starting
    with [assets/] go directly below [src]; every other relative
    reference, a bare file name in particular, goes below
    [src/assets/images]. *)
Theorem resolveInputPath_forms (h : Host) (root rel : list string) :
  cwd h = absolutePath root →
  Forall plainName root →
  Forall plainName rel →
  rel ≠ [] →
  resolveInputPath h (absolutePath rel) = absolutePath (root ++ "src" :: rel)
  ∧ (String.prefix "assets/" (String.concat "/" rel) = true →
     resolveInputPath h (String.concat "/" rel) = absolutePath (root ++ "src" :: rel))
  ∧ (String.prefix "assets/" (String.concat "/" rel) = false →
     resolveInputPath h (String.concat "/" rel)
     = absolutePath (root ++ "src" :: "assets" :: "images" :: rel)).
Proof.
  intros Hcwd Hroot Hrel Hne. split; [| split].
  - apply resolveInputPath_logical; assumption.
  - intros Hassets. apply (resolveInputPath_assets h root); assumption.
  - intros Hbare. apply (resolveInputPath_bare h root); assumption.
Qed.

Lemma resolveInputPath_forms_witness :
  resolveInputPath Scenario.ffmpegHost "/assets/images/cat.png"
  = "/site/src/assets/images/cat.png"
  ∧ resolveInputPath Scenario.ffmpegHost "assets/images/cat.png"
    = "/site/src/assets/images/cat.png"
  ∧ resolveInputPath Scenario.ffmpegHost "cat.png" = "/site/src/assets/images/cat.png"
  ∧ resolveInputPath Scenario.ffmpegHost "assets" = "/site/src/assets/images/assets".
Proof.
  assert (Forall plainName ["site"]) as Hroot by (repeat constructor; discriminate).
  assert (Forall plainName ["assets"; "images"; "cat.png"]) as Hdeep
    by (repeat constructor; discriminate).
  assert (Forall plainName ["cat.png"]) as Hbare by (repeat constructor; discriminate).
  assert (Forall plainName ["assets"]) as Hassets by (repeat constructor; discriminate).
  destruct (resolveInputPath_forms Scenario.ffmpegHost ["site"] ["assets"; "images"; "cat.png"]
              eq_refl Hroot Hdeep ltac:(discriminate)) as (Hrooted & Hsub & _).
  destruct (resolveInputPath_forms Scenario.ffmpegHost ["site"] ["cat.png"]
              eq_refl Hroot Hbare ltac:(discriminate)) as (_ & _ & Hname).
  destruct (resolveInputPath_forms Scenario.ffmpegHost ["site"] ["assets"]
              eq_refl Hroot Hassets ltac:(discriminate)) as (_ & _ & Hodd).
  split; [exact Hrooted |]. split; [exact (Hsub eq_refl) |].
  split; [exact (Hname eq_refl) | exact (Hodd eq_refl)].
Defined.

(** A reference in one of the three spellings resolves to a file below
    the content root. *)
Lemma resolveInputPath_below (h : Host) (root rel : list string) (reference : string) :
  cwd h = absolutePath root →
  Forall plainName root →
  Forall plainName rel →
  rel ≠ [] →
  reference = absolutePath rel ∨ reference = String.concat "/" rel →
  ∃ dirs b, Forall plainName dirs ∧ plainName b
            ∧ resolveInputPath h reference = absolutePath (root ++ "src" :: dirs ++ [b]).
Proof.
  intros Hcwd Hroot Hrel Hne Hform.
  assert (∃ rel', Forall plainName rel' ∧ rel' ≠ []
                  ∧ resolveInputPath h reference = absolutePath (root ++ "src" :: rel'))
    as (rel' & Hrel' & Hne' & Hresolved).
  { destruct Hform as [-> | ->].
    - exists rel. split; [assumption |]. split; [assumption |].
      apply resolveInputPath_logical; assumption.
    - destruct (String.prefix "assets/" (String.concat "/" rel)) eqn:Hassets.
      + exists rel. split; [assumption |]. split; [assumption |].
        apply (resolveInputPath_assets h root); assumption.
      + exists ("assets" :: "images" :: rel).
        split; [repeat constructor; try discriminate; assumption |].
        split; [discriminate |].
        apply (resolveInputPath_bare h root); assumption. }
  destruct (exists_last Hne') as (dirs & b & ->).
  apply Forall_app in Hrel' as [Hdirs Hb]. apply Forall_cons in Hb as [Hb _].
  exists dirs, b. auto.
Qed.

(** The derivatives of a JPEG derivative: itself and the WebP derivative
    of the source. *)
Lemma derivative_of_jpg (dirs : list string) (b ext : string) :
  Forall plainName dirs → plainName b → ext ∈ [".webp"; ".jpg"] →
  Path.join [Path.dir (Path.parse (absolutePath (dirs ++ [Path.stem b +:+ ".jpg"])));
             Path.name (Path.parse (absolutePath (dirs ++ [Path.stem b +:+ ".jpg"]))) +:+ ext]
  = absolutePath (dirs ++ [Path.stem b +:+ ext]).
Proof.
  intros Hdirs Hb Hext.
  assert (".jpg" ∈ [".webp"; ".jpg"]) as Hjpg by (apply list_elem_of_In; simpl; tauto).
  assert (singleSegment (Path.stem b)) as Hstem
    by (apply singleSegment_stem; destruct Hb as (? & _); assumption).
  rewrite (derivative_path dirs (Path.stem b +:+ ".jpg"));
    [| assumption | apply plainName_derivative; assumption | assumption].
  change ".jpg" with (String "." "jpg") at 1.
  rewrite stem_append_ext; [reflexivity | | discriminate | reflexivity].
  apply stem_nonempty. destruct Hb as (_ & ? & _). assumption.
Qed.

(** X2.  The logical paths [main] stores are stable, whichever of the
    three spellings the entry used.  For a JPEG source the stored [image]
    is the logical path of the source: it resolves to the source.  For a
    PNG source the stored [image] is the logical path of the JPEG
    derivative: it resolves to that derivative, a file beside the source,
    and not to the original reference.  The stored [imageWebp] resolves to
    the WebP derivative.  Visiting the stored [image] again computes the
    very same two paths, so from the second visit on the entry is left as
    it is. *)
Theorem stored_paths_are_stable (h : Host) (root rel : list string) (reference : string) :
  cwd h = absolutePath root →
  Forall plainName root →
  Forall plainName rel →
  rel ≠ [] →
  reference = absolutePath rel ∨ reference = String.concat "/" rel →
  let derived (p ext : string) :=
    Path.join [Path.dir (Path.parse p); Path.name (Path.parse p) +:+ ext] in
  let inputPath := resolveInputPath h reference in
  let jpgPath := derived inputPath ".jpg" in
  let webpPath := derived inputPath ".webp" in
  resolveInputPath h (toPublicPath h inputPath) = inputPath
  ∧ resolveInputPath h (toPublicPath h jpgPath) = jpgPath
  ∧ resolveInputPath h (toPublicPath h webpPath) = webpPath
  ∧ derived jpgPath ".jpg" = jpgPath
  ∧ derived jpgPath ".webp" = webpPath
  ∧ (Path.base (Path.parse inputPath) ≠ Path.name (Path.parse inputPath) +:+ ".jpg" →
     resolveInputPath h (toPublicPath h jpgPath) ≠ inputPath).
Proof.
  intros Hcwd Hroot Hrel Hne Hform derived inputPath jpgPath webpPath.
  destruct (resolveInputPath_below h root rel reference Hcwd Hroot Hrel Hne Hform)
    as (dirs & b & Hdirs & Hb & Hresolved).
  assert (".webp" ∈ [".webp"; ".jpg"]) as Hwebp by (apply list_elem_of_In; simpl; tauto).
  assert (".jpg" ∈ [".webp"; ".jpg"]) as Hjpg by (apply list_elem_of_In; simpl; tauto).
  assert (Forall plainName (root ++ "src" :: dirs)) as Hall.
  { apply Forall_app. split; [assumption |]. constructor; [apply plainName_src | assumption]. }
  assert (∀ x, root ++ "src" :: dirs ++ [x] = (root ++ "src" :: dirs) ++ [x]) as Hshape.
  { intros x. rewrite <- app_assoc. reflexivity. }
  assert (∀ ext, ext ∈ [".webp"; ".jpg"] →
                 derived inputPath ext
                 = absolutePath (root ++ "src" :: dirs ++ [Path.stem b +:+ ext])) as Hderived.
  { intros ext Hext. subst derived inputPath. cbv beta.
    rewrite Hresolved, !Hshape. apply derivative_path; assumption. }
  assert (∀ x, plainName x →
               resolveInputPath h (toPublicPath h (absolutePath (root ++ "src" :: dirs ++ [x])))
               = absolutePath (root ++ "src" :: dirs ++ [x])) as Hback.
  { intros x Hx.
    assert (Forall plainName (dirs ++ [x])) as Hrel'
      by (apply Forall_app; split; [assumption | constructor; [assumption | constructor]]).
    assert (dirs ++ [x] ≠ []) as Hne' by (destruct dirs; discriminate).
    rewrite (toPublicPath_under h root Hcwd Hroot _ Hrel' Hne').
    apply resolveInputPath_logical; assumption. }
  assert (singleSegment (Path.stem b)) as Hstem
    by (apply singleSegment_stem; destruct Hb as (? & _); assumption).
  subst jpgPath webpPath. rewrite !Hderived by assumption.
  split; [subst inputPath; rewrite Hresolved; apply Hback; assumption |].
  split; [apply Hback, plainName_derivative; assumption |].
  split; [apply Hback, plainName_derivative; assumption |].
  split; [subst derived; cbv beta; rewrite !Hshape; apply derivative_of_jpg; assumption |].
  split; [subst derived; cbv beta; rewrite !Hshape; apply derivative_of_jpg; assumption |].
  intros Hbase. rewrite Hback by (apply plainName_derivative; assumption).
  subst inputPath. rewrite Hresolved. rewrite Hresolved, Hshape in Hbase.
  rewrite parse_absolutePath in Hbase by assumption. cbn [Path.base Path.name] in Hbase.
  intros Heq. apply Hbase. unfold absolutePath in Heq. injection Heq as Heq.
  rewrite !Hshape in Heq.
  assert (∀ (l : list string) x y,
            Forall singleSegment (l ++ [x]) → Forall singleSegment (l ++ [y]) →
            String.concat "/" (l ++ [x]) = String.concat "/" (l ++ [y]) → x = y) as Hinj.
  { intros l x y Hx Hy Hc. apply (f_equal Path.split) in Hc.
    rewrite !split_concat_single in Hc;
      [| destruct l; discriminate | assumption | destruct l; discriminate | assumption].
    apply app_inv_head in Hc. congruence. }
  symmetry. eapply Hinj; [| | exact Heq].
  - apply Forall_app. split.
    + eapply Forall_impl; [exact Hall | intros ? (? & _); assumption].
    + constructor; [| constructor]. apply singleSegment_append; [assumption | reflexivity].
  - apply Forall_app. split.
    + eapply Forall_impl; [exact Hall | intros ? (? & _); assumption].
    + constructor; [| constructor]. destruct Hb as (? & _). assumption.
Qed.

Lemma stored_paths_are_stable_witness :
  let stored := toPublicPath Scenario.ffmpegHost "/site/src/assets/images/cat.jpg" in
  stored = "/assets/images/cat.jpg"
  ∧ resolveInputPath Scenario.ffmpegHost stored = "/site/src/assets/images/cat.jpg"
  ∧ resolveInputPath Scenario.ffmpegHost stored
    ≠ resolveInputPath Scenario.ffmpegHost "cat.png".
Proof.
  destruct (stored_paths_are_stable Scenario.ffmpegHost ["site"] ["cat.png"] "cat.png"
              eq_refl ltac:(repeat constructor; discriminate)
              ltac:(repeat constructor; discriminate) ltac:(discriminate)
              ltac:(right; reflexivity)) as (_ & Hjpg & _ & _ & _ & Hother).
  split; [reflexivity |]. split; [exact Hjpg |].
  apply Hother. discriminate.
Defined.

(** ** References that leave the content root *)

Section Escape.

Import Path.

Lemma normalize_absolute_segs (s : string) (segs : list string) :
  isAbsolute s = true →
  endsWithSlash s = false →
  normalizeSegs false (split s) = segs →
  String.concat "/" segs ≠ "" →
  normalize s = absolutePath segs.
Proof.
  intros Habs Hend Hsegs Hne. unfold normalize.
  rewrite decide_False by (intros ->; discriminate Habs).
  rewrite Habs, Hend. simpl negb. rewrite Hsegs.
  rewrite decide_False by assumption.
  rewrite append_empty_r. reflexivity.
Qed.

Lemma dropCommon_app (l a b : list string) : dropCommon (l ++ a) (l ++ b) = dropCommon a b.
Proof.
  induction l as [|x l IH]; [reflexivity |].
  simpl. rewrite decide_True by reflexivity. exact IH.
Qed.

Lemma dotdot_single : singleSegment "..".
Proof. reflexivity. Qed.

(** Entering [src] and leaving it again. *)
Lemma src_dotdot (acc : list string) :
  normStep false (normStep false acc "src") ".." = acc.
Proof. reflexivity. Qed.

Context (h : Host) (root : list string).
Hypothesis cwd_absolute : cwd h = absolutePath root.
Hypothesis root_plain : Forall plainName root.

Lemma resolveInputPath_dotdot (rel : list string) :
  Forall plainName rel → rel ≠ [] →
  resolveInputPath h (absolutePath (".." :: rel)) = absolutePath (root ++ rel).
Proof.
  intros Hrel Hne. unfold resolveInputPath, absolutePath at 1 2.
  rewrite prefix_slash. cbn [dropLeadingSlash]. simpl Ascii.eqb. cbv iota.
  unfold projectRoot. rewrite cwd_absolute. unfold join.
  assert (Forall singleSegment rel) as Hsingle
    by (eapply Forall_impl; [exact Hrel | intros ? (? & _); assumption]).
  assert (String.concat "/" (".." :: rel) ≠ "") as Hpart
    by (apply concat_nonempty; discriminate).
  rewrite !filter_cons_True by (assumption || discriminate). rewrite filter_nil.
  set (s := String.concat "/" [absolutePath root; "src"; String.concat "/" (".." :: rel)]).
  destruct (split_absolutePath root root_plain) as [Hroot1 Hroot2].
  assert (split s = split (absolutePath root) ++ ["src"; ".."] ++ rel) as Hsplit.
  { unfold s. rewrite split_concat by discriminate.
    change (mbind split [absolutePath root; "src"; String.concat "/" (".." :: rel)])
      with (split (absolutePath root) ++ split "src"
            ++ split (String.concat "/" (".." :: rel)) ++ []).
    rewrite split_concat_single, app_nil_r;
      [reflexivity | discriminate | constructor; [apply dotdot_single | assumption]]. }
  apply normalize_absolute_segs.
  - unfold s, absolutePath, isAbsolute.
    change (String.concat "/" (?a :: ?b :: ?c))
      with (a +:+ String "/" (String.concat "/" (b :: c))).
    rewrite append_cons. apply prefix_slash.
  - destruct (last_plain _ Hne Hrel) as (l' & x & Hl & Hx).
    eapply endsWithSlash_last; [| exact Hx].
    rewrite Hsplit, Hl, !app_assoc. reflexivity.
  - rewrite Hsplit. unfold normalizeSegs. rewrite !fold_left_app.
    rewrite (fold_normStep_plain false _ [] Hroot1), Hroot2, app_nil_r.
    cbn [fold_left]. rewrite src_dotdot.
    rewrite fold_normStep_plain
      by (eapply Forall_impl; [exact Hrel | intros; right; assumption]).
    rewrite filter_plain by assumption.
    rewrite rev_app_distr, !rev_involutive. reflexivity.
  - destruct root as [|r root'].
    + destruct rel as [|x rel']; [congruence |].
      apply concat_nonempty. inversion Hrel as [|? ? (_ & ? & _)]. assumption.
    + apply concat_nonempty. inversion root_plain as [|? ? (_ & ? & _)]. assumption.
Qed.

Lemma toPublicPath_beside (x : string) (rel : list string) :
  Forall plainName (x :: rel) → x ≠ "src" →
  toPublicPath h (absolutePath (root ++ x :: rel)) = absolutePath (".." :: x :: rel).
Proof.
  intros Hrel Hx. unfold toPublicPath. rewrite (assetsRoot_eq h root cwd_absolute root_plain).
  unfold relative.
  destruct (split_absolutePath (root ++ ["src"])) as [Hb1 Hb2].
  { apply Forall_app. split; [assumption | repeat constructor; discriminate]. }
  destruct (split_absolutePath (root ++ x :: rel)) as [Ht1 Ht2].
  { apply Forall_app. split; assumption. }
  rewrite !normalizeSegs_plain, Hb2, Ht2 by assumption.
  rewrite dropCommon_app. simpl dropCommon. rewrite decide_False by congruence.
  cbn [map app].
  rewrite split_concat_single; [reflexivity | discriminate |].
  constructor; [apply dotdot_single |].
  eapply Forall_impl; [exact Hrel | intros ? (? & _); assumption].
Qed.

End Escape.

(** X3.  References are not confined to the content root.  A file that
    lies beside [src] rather than below it has a logical path that starts
    with [/..], and resolving that logical path leads back to the file
    outside [src]. *)
Theorem reference_leaves_content_root (h : Host) (root rel : list string) (x : string) :
  cwd h = absolutePath root →
  Forall plainName root →
  Forall plainName (x :: rel) →
  x ≠ "src" →
  toPublicPath h (absolutePath (root ++ x :: rel)) = absolutePath (".." :: x :: rel)
  ∧ resolveInputPath h (absolutePath (".." :: x :: rel)) = absolutePath (root ++ x :: rel).
Proof.
  intros Hcwd Hroot Hrel Hx. split.
  - apply toPublicPath_beside; assumption.
  - apply resolveInputPath_dotdot; [assumption | assumption | assumption | discriminate].
Qed.

Lemma reference_leaves_content_root_witness :
  toPublicPath Scenario.ffmpegHost "/site/private/key.png" = "/../private/key.png"
  ∧ resolveInputPath Scenario.ffmpegHost "/../private/key.png" = "/site/private/key.png".
Proof.
  apply (reference_leaves_content_root Scenario.ffmpegHost ["site"] ["key.png"] "private");
    [reflexivity | repeat constructor; discriminate | repeat constructor; discriminate
     | discriminate].
Defined.

(** ** Where derivatives go *)

(** X4.  The derivatives of a source lie next to it, under the source's
    name without its extension: for [<dir>/<base>] they are
    [<dir>/<stem>.webp] and [<dir>/<stem>.jpg].  The WebP path derived
    from the JPEG derivative is the WebP path derived from the source, so
    an entry rewritten to the JPEG derivative keeps pointing at the same
    WebP file. *)
Theorem derivatives_lie_beside_source (dirs : list string) (b : string) :
  Forall plainName dirs →
  plainName b →
  let derived (p ext : string) :=
    Path.join [Path.dir (Path.parse p); Path.name (Path.parse p) +:+ ext] in
  let source := absolutePath (dirs ++ [b]) in
  derived source ".webp" = absolutePath (dirs ++ [Path.stem b +:+ ".webp"])
  ∧ derived source ".jpg" = absolutePath (dirs ++ [Path.stem b +:+ ".jpg"])
  ∧ derived (derived source ".jpg") ".webp" = derived source ".webp".
Proof.
  intros Hdirs Hb derived source. subst derived source. cbv beta.
  assert (".webp" ∈ [".webp"; ".jpg"]) as Hwebp by (apply list_elem_of_In; simpl; tauto).
  assert (".jpg" ∈ [".webp"; ".jpg"]) as Hjpg by (apply list_elem_of_In; simpl; tauto).
  rewrite !(derivative_path dirs b) by assumption.
  split; [reflexivity |]. split; [reflexivity |].
  assert (singleSegment (Path.stem b)) as Hstem
    by (apply singleSegment_stem; destruct Hb as (? & _); assumption).
  rewrite (derivative_path dirs (Path.stem b +:+ ".jpg"));
    [| assumption | apply plainName_derivative; assumption | assumption].
  change ".jpg" with (String "." "jpg") at 1.
  rewrite stem_append_ext; [reflexivity | | discriminate | reflexivity].
  apply stem_nonempty. destruct Hb as (_ & ? & _). assumption.
Qed.

Lemma derivatives_lie_beside_source_witness :
  Path.join [Path.dir (Path.parse "/site/src/assets/images/cat.v2.png");
             Path.name (Path.parse "/site/src/assets/images/cat.v2.png") +:+ ".webp"]
  = "/site/src/assets/images/cat.v2.webp".
Proof.
  apply (derivatives_lie_beside_source ["site"; "src"; "assets"; "images"] "cat.v2.png");
    repeat constructor; discriminate.
Defined.

(** ** The branches of the loop body *)

Lemma whenStale_fresh sourcePath outputPath convert st src out :
  files (disk st) !! sourcePath = Some src →
  files (disk st) !! outputPath = Some out →
  (mtimeMs src ≤ mtimeMs out)%Z →
  whenStale sourcePath outputPath convert st = (Ok tt, st).
Proof.
  intros Hsrc Hout Hle. unfold whenStale, bind.
  rewrite (shouldGenerate_present _ _ _ _ _ Hsrc Hout).
  rewrite (proj2 (Z.ltb_ge _ _)) by exact Hle. reflexivity.
Qed.

Lemma convertJpegToWebp_fresh h converter sourcePath webpPath st src out :
  files (disk st) !! sourcePath = Some src →
  files (disk st) !! webpPath = Some out →
  (mtimeMs src ≤ mtimeMs out)%Z →
  convertJpegToWebp h converter sourcePath webpPath st = (Ok tt, st).
Proof.
  intros Hsrc Hout Hle. unfold convertJpegToWebp, bind.
  rewrite (shouldGenerate_present _ _ _ _ _ Hsrc Hout).
  rewrite (proj2 (Z.ltb_ge _ _)) by exact Hle. reflexivity.
Qed.

Lemma runCommand_ok h command args st :
  status (spawnSync h command args (disk st)) = Some 0%Z →
  runCommand h command args st
  = (Ok tt, {| disk := after (spawnSync h command args (disk st));
               trace := trace st ++ [Spawn command args] |}).
Proof.
  intros Hok. unfold runCommand, bind, spawn.
  rewrite bool_decide_eq_true_2 by assumption. reflexivity.
Qed.

Lemma commit_kept video nextImage nextWebp :
  getProp "image" video = Some (JStr nextImage) →
  getProp "imageWebp" video = Some (JStr nextWebp) →
  commit video nextImage nextWebp = (video, Kept).
Proof.
  intros Hi Hw. unfold commit. rewrite Hi, Hw. simpl.
  rewrite !bool_decide_eq_true_2 by reflexivity. reflexivity.
Qed.

Lemma visit_up_to_date (h : Host) (converter : Converter)
    (video : json) (image : string) (f : File) (st : State) :
  let inputPath := resolveInputPath h image in
  let webpPath :=
    Path.join [Path.dir (Path.parse inputPath); Path.name (Path.parse inputPath) +:+ ".webp"] in
  let jpgPath :=
    Path.join [Path.dir (Path.parse inputPath); Path.name (Path.parse inputPath) +:+ ".jpg"] in
  let nextImage :=
    toPublicPath h (match classify (content f) with png => jpgPath | _ => inputPath end) in
  let nextWebp := toPublicPath h webpPath in
  getProp "image" video = Some (JStr image) →
  image ≠ "" →
  files (disk st) !! inputPath = Some f →
  readable f = true →
  classify (content f) ≠ other →
  (∃ w, files (disk st) !! webpPath = Some w ∧ (mtimeMs f ≤ mtimeMs w)%Z) →
  (classify (content f) = png →
   ∃ j, files (disk st) !! jpgPath = Some j ∧ (mtimeMs f ≤ mtimeMs j)%Z) →
  ∃ video' verdict,
    visit h converter video st = (Ok (video', verdict), st)
    ∧ verdict ≠ Skipped
    ∧ getProp "image" video' = Some (JStr nextImage)
    ∧ getProp "imageWebp" video' = Some (JStr nextWebp)
    ∧ (getProp "image" video = Some (JStr nextImage) →
       getProp "imageWebp" video = Some (JStr nextWebp) →
       video' = video ∧ verdict = Kept).
Proof.
  intros inputPath webpPath jpgPath nextImage nextWebp
    Himage Hne Hf Hr Hclass (w & Hw & Hwle) Hjpg.
  destruct video as [| | | | |fields]; try discriminate Himage.
  pose proof (commit_fields fields nextImage nextWebp) as (Hverdict & Hi & Hwp & _).
  exists (fst (commit (JObj fields) nextImage nextWebp)),
    (snd (commit (JObj fields) nextImage nextWebp)).
  split; [| split; [exact Hverdict | split; [exact Hi | split; [exact Hwp |]]]].
  - rewrite (visit_classified h converter fields image f st Himage Hne Hf Hr).
    cbv zeta. fold inputPath webpPath jpgPath. subst nextImage nextWebp.
    destruct (classify (content f)) eqn:Hc; [| | congruence].
    + destruct (Hjpg eq_refl) as (j & Hj & Hjle).
      unfold bind at 1.
      assert (match converter with
              | ffmpeg => convertWithFfmpeg h inputPath jpgPath webpPath
              | sips_cwebp => convertWithSipsAndCwebp h inputPath jpgPath webpPath
              end st = (Ok tt, st)) as ->.
      { destruct converter; unfold convertWithFfmpeg, convertWithSipsAndCwebp;
          unfold bind at 1.
        - rewrite (whenStale_fresh _ _ _ _ _ _ Hf Hw Hwle).
          apply (whenStale_fresh _ _ _ _ _ _ Hf Hj Hjle).
        - rewrite (whenStale_fresh _ _ _ _ _ _ Hf Hj Hjle).
          apply (whenStale_fresh _ _ _ _ _ _ Hf Hw Hwle). }
      unfold ret. rewrite <- surjective_pairing. reflexivity.
    + unfold bind at 1.
      rewrite (convertJpegToWebp_fresh h converter _ _ _ _ _ Hf Hw Hwle).
      unfold ret. rewrite <- surjective_pairing. reflexivity.
  - intros Hsame1 Hsame2. rewrite (commit_kept _ _ _ Hsame1 Hsame2). auto.
Qed.

(** X5.  A source that is PNG or JPEG and whose derivatives all exist and
    are not older than it: the visit spawns nothing and leaves the state
    as it is, yet the entry is still given the two logical paths (the
    JPEG derivative for a PNG source, the source itself for a JPEG one).
    An entry that already holds both is handed back identical. *)
Theorem up_to_date_source_spawns_nothing (h : Host) (converter : Converter)
    (video : json) (image : string) (f : File) (st : State) :
  let inputPath := resolveInputPath h image in
  let webpPath :=
    Path.join [Path.dir (Path.parse inputPath); Path.name (Path.parse inputPath) +:+ ".webp"] in
  let jpgPath :=
    Path.join [Path.dir (Path.parse inputPath); Path.name (Path.parse inputPath) +:+ ".jpg"] in
  let nextImage :=
    toPublicPath h (match classify (content f) with png => jpgPath | _ => inputPath end) in
  let nextWebp := toPublicPath h webpPath in
  getProp "image" video = Some (JStr image) →
  image ≠ "" →
  files (disk st) !! inputPath = Some f →
  readable f = true →
  classify (content f) ≠ other →
  (∃ w, files (disk st) !! webpPath = Some w ∧ (mtimeMs f ≤ mtimeMs w)%Z) →
  (classify (content f) = png →
   ∃ j, files (disk st) !! jpgPath = Some j ∧ (mtimeMs f ≤ mtimeMs j)%Z) →
  ∃ video' verdict,
    visit h converter video st = (Ok (video', verdict), st)
    ∧ verdict ≠ Skipped
    ∧ getProp "image" video' = Some (JStr nextImage)
    ∧ getProp "imageWebp" video' = Some (JStr nextWebp)
    ∧ (getProp "image" video = Some (JStr nextImage) →
       getProp "imageWebp" video = Some (JStr nextWebp) →
       video' = video ∧ verdict = Kept).
Proof.
  intros inputPath webpPath jpgPath nextImage nextWebp.
  apply visit_up_to_date.
Qed.

Lemma up_to_date_source_spawns_nothing_witness :
  visit Scenario.ffmpegHost ffmpeg Demo.settledEntry Demo.settledWorld
  = (Ok (Demo.settledEntry, Kept), Demo.settledWorld).
Proof.
  destruct (up_to_date_source_spawns_nothing Scenario.ffmpegHost ffmpeg Demo.settledEntry
              "/assets/images/dog.jpg" (Reference.imageFile Reference.jpegImage 100)
              Demo.settledWorld)
    as (video' & verdict & Hvisit & _ & _ & _ & Hkept).
  - reflexivity.
  - discriminate.
  - vm_compute. reflexivity.
  - reflexivity.
  - vm_compute. discriminate.
  - exists (Reference.imageFile Reference.webpImage 100).
    split; [vm_compute; reflexivity | simpl; lia].
  - vm_compute. discriminate.
  - destruct Hkept as [-> ->]; [vm_compute; reflexivity | vm_compute; reflexivity |].
    exact Hvisit.
Defined.

Lemma derivative_paths_differ d n :
  Path.join [d; n +:+ ".jpg"] ≠ Path.join [d; n +:+ ".webp"].
Proof.
  intros Heq. apply (f_equal lastChar) in Heq.
  pose proof (join_lastChar [d] n ".jpg" "g" eq_refl eq_refl ltac:(discriminate)) as Hj.
  pose proof (join_lastChar [d] n ".webp" "p" eq_refl eq_refl ltac:(discriminate)) as Hw.
  cbn [app] in Hj, Hw. rewrite Hj, Hw in Heq. discriminate Heq.
Qed.

Lemma classify_png bytes : pngSignature `prefix_of` bytes → classify bytes = png.
Proof. intros H. unfold classify. rewrite bool_decide_eq_true_2 by assumption. reflexivity. Qed.

(** X6.  A PNG source with neither derivative, on a host whose tools
    write only their output and exit with status 0: the visit spawns the
    backend's two commands, in the backend's order, and nothing else; the
    entry's [image] becomes the logical path of the JPEG derivative and
    [imageWebp] that of the WebP derivative; every other field is kept. *)
Theorem png_entry_converted (h : Host) (converter : Converter)
    (video : json) (image : string) (f : File) (st : State) :
  let inputPath := resolveInputPath h image in
  let webpPath :=
    Path.join [Path.dir (Path.parse inputPath); Path.name (Path.parse inputPath) +:+ ".webp"] in
  let jpgPath :=
    Path.join [Path.dir (Path.parse inputPath); Path.name (Path.parse inputPath) +:+ ".jpg"] in
  let first := fst (pngInvocations converter inputPath jpgPath webpPath) in
  let second := snd (pngInvocations converter inputPath jpgPath webpPath) in
  let r1 := spawnSync h (fst first) (snd first) (disk st) in
  let r2 := spawnSync h (fst second) (snd second) (after r1) in
  getProp "image" video = Some (JStr image) →
  image ≠ "" →
  files (disk st) !! inputPath = Some f →
  readable f = true →
  pngSignature `prefix_of` content f →
  files (disk st) !! webpPath = None →
  files (disk st) !! jpgPath = None →
  writesOnlyOutput h →
  status r1 = Some 0%Z →
  status r2 = Some 0%Z →
  ∃ video' verdict,
    visit h converter video st
    = (Ok (video', verdict),
       {| disk := after r2;
          trace := trace st ++ [Spawn (fst first) (snd first);
                                Spawn (fst second) (snd second)] |})
    ∧ verdict ≠ Skipped
    ∧ getProp "image" video' = Some (JStr (toPublicPath h jpgPath))
    ∧ getProp "imageWebp" video' = Some (JStr (toPublicPath h webpPath))
    ∧ (∀ k, k ≠ "image" → k ≠ "imageWebp" → getProp k video' = getProp k video).
Proof.
  intros inputPath webpPath jpgPath first second r1 r2
    Himage Hne Hf Hr Hpng Hwebp Hjpg Hframe Hok1 Hok2.
  destruct video as [| | | | |fields]; try discriminate Himage.
  pose proof (commit_fields fields (toPublicPath h jpgPath) (toPublicPath h webpPath))
    as (Hverdict & Hi & Hw & Hother).
  exists (fst (commit (JObj fields) (toPublicPath h jpgPath) (toPublicPath h webpPath))),
    (snd (commit (JObj fields) (toPublicPath h jpgPath) (toPublicPath h webpPath))).
  split; [| repeat split; assumption].
  rewrite (visit_classified h converter fields image f st Himage Hne Hf Hr).
  cbv zeta. fold inputPath webpPath jpgPath. rewrite (classify_png _ Hpng).
  pose proof (derivative_paths_differ (Path.dir (Path.parse inputPath))
                (Path.name (Path.parse inputPath))) as Hdiff.
  fold jpgPath webpPath in Hdiff.
  unfold bind at 1.
  assert (match converter with
          | ffmpeg => convertWithFfmpeg h inputPath jpgPath webpPath
          | sips_cwebp => convertWithSipsAndCwebp h inputPath jpgPath webpPath
          end st
          = (Ok tt, {| disk := after r2;
                       trace := trace st ++ [Spawn (fst first) (snd first);
                                             Spawn (fst second) (snd second)] |})) as ->.
  { subst r1 r2 first second.
    destruct converter; cbn [pngInvocations fst snd] in *;
      unfold convertWithFfmpeg, convertWithSipsAndCwebp; unfold bind at 1.
    - rewrite (whenStale_absent _ _ _ _ Hwebp), (runCommand_ok _ _ _ _ Hok1).
      rewrite whenStale_absent.
      + rewrite runCommand_ok by exact Hok2. cbn [disk trace].
        rewrite <- app_assoc. reflexivity.
      + cbn [disk]. rewrite Hframe by (cbn [List.last]; exact Hdiff). exact Hjpg.
    - rewrite (whenStale_absent _ _ _ _ Hjpg), (runCommand_ok _ _ _ _ Hok1).
      rewrite whenStale_absent.
      + rewrite runCommand_ok by exact Hok2. cbn [disk trace].
        rewrite <- app_assoc. reflexivity.
      + cbn [disk]. rewrite Hframe by (cbn [List.last]; congruence). exact Hwebp. }
  unfold ret. rewrite <- surjective_pairing. reflexivity.
Qed.

Lemma png_entry_converted_witness :
  ∃ video' verdict st',
    visit Scenario.sipsHost sips_cwebp Scenario.catEntry Scenario.catWorld
    = (Ok (video', verdict), st')
    ∧ getProp "image" video' = Some (JStr "/assets/images/cat.jpg")
    ∧ getProp "imageWebp" video' = Some (JStr "/assets/images/cat.webp")
    ∧ trace st'
      = [Spawn "sips" ["-s"; "format"; "jpeg"; "/site/src/assets/images/cat.png"; "--out";
                       "/site/src/assets/images/cat.jpg"];
         Spawn "cwebp" ["-q"; "75"; "/site/src/assets/images/cat.png"; "-o";
                        "/site/src/assets/images/cat.webp"]].
Proof.
  destruct (png_entry_converted Scenario.sipsHost sips_cwebp Scenario.catEntry "cat.png"
              (Reference.imageFile Scenario.pngImage 100) Scenario.catWorld)
    as (video' & verdict & Hvisit & _ & Hi & Hw & _).
  - reflexivity.
  - discriminate.
  - vm_compute. reflexivity.
  - reflexivity.
  - exists [x00; x00; x00; x0d]. reflexivity.
  - vm_compute. reflexivity.
  - vm_compute. reflexivity.
  - apply reference_writesOnlyOutput.
  - vm_compute. reflexivity.
  - vm_compute. reflexivity.
  - exists video', verdict. eexists. split; [exact Hvisit |].
    split; [exact Hi |]. split; [exact Hw |]. reflexivity.
Defined.

(** X7.  PNG data stored under a [.jpg] name.  The JPEG derivative path of
    such a source is the source itself, and a file is never stale with
    respect to itself: no JPEG is produced, only the WebP conversion is
    spawned, and the entry's [image] is set to the logical path of the
    PNG data. *)
Theorem png_under_jpg_name_stays_png (h : Host) (converter : Converter)
    (video : json) (image : string) (f : File) (st : State)
    (dirs : list string) (n : string) :
  let inputPath := resolveInputPath h image in
  let webpPath :=
    Path.join [Path.dir (Path.parse inputPath); Path.name (Path.parse inputPath) +:+ ".webp"] in
  let jpgPath :=
    Path.join [Path.dir (Path.parse inputPath); Path.name (Path.parse inputPath) +:+ ".jpg"] in
  let command := fst (webpInvocation converter inputPath webpPath) in
  let args := snd (webpInvocation converter inputPath webpPath) in
  getProp "image" video = Some (JStr image) →
  image ≠ "" →
  inputPath = absolutePath (dirs ++ [n +:+ ".jpg"]) →
  Forall plainName dirs →
  singleSegment n →
  n ≠ "" →
  files (disk st) !! inputPath = Some f →
  readable f = true →
  pngSignature `prefix_of` content f →
  files (disk st) !! webpPath = None →
  writesOnlyOutput h →
  status (spawnSync h command args (disk st)) = Some 0%Z →
  jpgPath = inputPath
  ∧ ∃ video' verdict,
      visit h converter video st
      = (Ok (video', verdict),
         {| disk := after (spawnSync h command args (disk st));
            trace := trace st ++ [Spawn command args] |})
      ∧ getProp "image" video' = Some (JStr (toPublicPath h inputPath)).
Proof.
  intros inputPath webpPath jpgPath command args
    Himage Hne Hnormal Hdirs Hn Hnn Hf Hr Hpng Hwebp Hframe Hok.
  assert (jpgPath = inputPath) as Hself.
  { subst jpgPath. rewrite Hnormal.
    assert (".jpg" ∈ [".webp"; ".jpg"]) as Hext by (apply list_elem_of_In; simpl; tauto).
    rewrite derivative_path;
      [| assumption | apply plainName_derivative; assumption | assumption].
    change ".jpg" with (String "." "jpg") at 1.
    rewrite stem_append_ext; [reflexivity | assumption | discriminate | reflexivity]. }
  split; [exact Hself |].
  destruct video as [| | | | |fields]; try discriminate Himage.
  pose proof (commit_fields fields (toPublicPath h jpgPath) (toPublicPath h webpPath))
    as (_ & Hi & _).
  exists (fst (commit (JObj fields) (toPublicPath h jpgPath) (toPublicPath h webpPath))),
    (snd (commit (JObj fields) (toPublicPath h jpgPath) (toPublicPath h webpPath))).
  split; [| rewrite <- Hself; exact Hi].
  rewrite (visit_classified h converter fields image f st Himage Hne Hf Hr).
  cbv zeta. fold inputPath webpPath jpgPath. rewrite (classify_png _ Hpng).
  unfold bind at 1.
  assert (match converter with
          | ffmpeg => convertWithFfmpeg h inputPath jpgPath webpPath
          | sips_cwebp => convertWithSipsAndCwebp h inputPath jpgPath webpPath
          end st
          = (Ok tt, {| disk := after (spawnSync h command args (disk st));
                       trace := trace st ++ [Spawn command args] |})) as ->.
  { assert (inputPath ≠ webpPath) as Hdiff by (intros Heq; rewrite Heq in Hf; congruence).
    rewrite Hself. subst command args.
    destruct converter; cbn [webpInvocation fst snd] in *;
      unfold convertWithFfmpeg, convertWithSipsAndCwebp; unfold bind at 1.
    - rewrite (whenStale_absent _ _ _ _ Hwebp), (runCommand_ok _ _ _ _ Hok).
      apply (whenStale_fresh _ _ _ _ f f); [| | lia];
        cbn [disk]; rewrite Hframe by (cbn [List.last]; exact Hdiff); exact Hf.
    - rewrite (whenStale_fresh _ _ _ _ f f Hf Hf) by lia.
      rewrite (whenStale_absent _ _ _ _ Hwebp). apply runCommand_ok. exact Hok. }
  unfold ret. rewrite <- surjective_pairing. reflexivity.
Qed.

Lemma png_under_jpg_name_stays_png_witness :
  ∃ video' verdict st',
    visit Scenario.ffmpegHost ffmpeg Demo.oddEntry Demo.oddWorld
    = (Ok (video', verdict), st')
    ∧ getProp "image" video' = Some (JStr "/assets/images/odd.jpg")
    ∧ trace st'
      = [Spawn "ffmpeg" ["-y"; "-i"; "/site/src/assets/images/odd.jpg"; "-q:v"; "70";
                         "/site/src/assets/images/odd.webp"]].
Proof.
  destruct (png_under_jpg_name_stays_png Scenario.ffmpegHost ffmpeg Demo.oddEntry "odd.jpg"
              (Reference.imageFile Scenario.pngImage 100) Demo.oddWorld
              ["site"; "src"; "assets"; "images"] "odd")
    as (_ & video' & verdict & Hvisit & Hi).
  - reflexivity.
  - discriminate.
  - reflexivity.
  - repeat constructor; discriminate.
  - reflexivity.
  - discriminate.
  - vm_compute. reflexivity.
  - reflexivity.
  - exists [x00; x00; x00; x0d]. reflexivity.
  - vm_compute. reflexivity.
  - apply reference_writesOnlyOutput.
  - vm_compute. reflexivity.
  - exists video', verdict. eexists. split; [exact Hvisit |].
    split; [exact Hi | reflexivity].
Defined.

(** ** Entries without a usable reference, and malformed metadata *)

Lemma visit_blank h converter video st :
  video ≠ JNull →
  truthy (getProp "image" video) = false →
  visit h converter video st = (Ok (video, Skipped), st).
Proof.
  intros Hnull Hfalsy. unfold visit. rewrite Hfalsy.
  destruct video; [congruence | reflexivity ..].
Qed.

Lemma forEach_blank h converter (items : list json) :
  Forall (λ v, v ≠ JNull ∧ truthy (getProp "image" v) = false) items →
  ∀ pass st,
    forEach h converter items pass st
    = (Ok {| entries := entries pass ++ items;
             processed := processed pass;
             updatedData := updatedData pass |}, st).
Proof.
  induction 1 as [|v items [Hnull Hfalsy] _ IH]; intros pass st.
  - simpl. rewrite app_nil_r. destruct pass; reflexivity.
  - simpl. unfold bind at 1. rewrite (visit_blank _ _ _ _ Hnull Hfalsy).
    rewrite IH. simpl. rewrite <- app_assoc. reflexivity.
Qed.

(** X8.  A collection in which no entry has an image reference (the key
    is missing, or holds [null], [false], [0] or the empty string, or the
    entry is not an object at all) is a no-op: once a backend is selected
    and the file is loaded, the run prints no warning, spawns nothing,
    writes nothing and reports zero images.  The empty collection is the
    special case. *)
Theorem blank_collection_is_noop (h : Host) (converter : Converter)
    (videos : json) (items : list json) (st st1 : State) :
  pickConverter h st = (Ok converter, st1) →
  readJson h (videosPath h) st1 = (Ok videos, st1) →
  iterate videos = Some items →
  Forall (λ v, v ≠ JNull ∧ truthy (getProp "image" v) = false) items →
  main h st
  = (Ok tt, {| disk := disk st1;
               trace := trace st1 ++ [Log ("Processed 0 PNG/JPEG images using "
                                           +:+ converterName converter +:+ ".")] |}).
Proof.
  intros Hpick Hread Hiter Hblank.
  rewrite main_stages, Hpick, Hread. cbn [fst]. rewrite Hiter.
  rewrite (forEach_blank h converter items Hblank). reflexivity.
Qed.

Lemma blank_collection_is_noop_witness :
  main Scenario.ffmpegHost Demo.blankWorld
  = (Ok tt,
     {| disk := disk (snd (pickConverter Scenario.ffmpegHost Demo.blankWorld));
        trace := [Spawn "sh" ["-lc"; "command -v ffmpeg"];
                  Log "Processed 0 PNG/JPEG images using ffmpeg."] |}).
Proof.
  apply (blank_collection_is_noop Scenario.ffmpegHost ffmpeg (JArr Demo.blankEntries)
           Demo.blankEntries Demo.blankWorld
           (snd (pickConverter Scenario.ffmpegHost Demo.blankWorld))).
  - vm_compute. reflexivity.
  - vm_compute. reflexivity.
  - reflexivity.
  - repeat constructor; discriminate.
Defined.

Lemma visit_malformed h converter video st :
  video = JNull
  ∨ (∃ x, getProp "image" video = Some x ∧ truthy (Some x) = true ∧ ∀ s, x ≠ JStr s) →
  ∃ message, visit h converter video st = (Throw message, st).
Proof.
  intros [-> | (x & Hx & Htruthy & Hnot)]; [eexists; reflexivity |].
  unfold visit. destruct video as [| | | | |fields]; try discriminate Hx.
  rewrite Hx, Htruthy. cbn [negb].
  destruct x as [| | |s| |]; try (eexists; reflexivity).
  exfalso. apply (Hnot s). reflexivity.
Qed.

(** X9.  Malformed metadata ends the run.  An entry that is [null], or
    whose [image] is a number other than 0, [true], an array or an
    object, throws in the loop body before anything is looked up on disk,
    and the loop stops there.  Metadata that is neither an array nor a
    string is not iterable: the run throws right after the load, in the
    state the backend selection left. *)
Theorem malformed_metadata_aborts (h : Host) (converter : Converter) (st : State) :
  (∀ video rest pass,
     video = JNull
     ∨ (∃ x, getProp "image" video = Some x ∧ truthy (Some x) = true ∧ ∀ s, x ≠ JStr s) →
     ∃ message,
       visit h converter video st = (Throw message, st)
       ∧ forEach h converter (video :: rest) pass st = (Throw message, st))
  ∧ (∀ st1 videos,
       pickConverter h st = (Ok converter, st1) →
       readJson h (videosPath h) st1 = (Ok videos, st1) →
       (∀ items, videos ≠ JArr items) →
       (∀ s, videos ≠ JStr s) →
       main h st = (Throw "TypeError: videos is not iterable", st1)).
Proof.
  split.
  - intros video rest pass Hbad.
    destruct (visit_malformed h converter video st Hbad) as [message Hvisit].
    exists message. split; [exact Hvisit | apply forEach_throw; exact Hvisit].
  - intros st1 videos Hpick Hread Harr Hstr.
    rewrite main_stages, Hpick, Hread. cbn [fst].
    destruct videos as [| | |s|items|]; try reflexivity.
    + exfalso. apply (Hstr s). reflexivity.
    + exfalso. apply (Harr items). reflexivity.
Qed.

Lemma malformed_metadata_aborts_witness :
  ∃ message,
    forEach Scenario.ffmpegHost ffmpeg [JObj [("image", JNum 5)]; Scenario.catEntry]
      {| entries := []; processed := 0; updatedData := false |} Scenario.catWorld
    = (Throw message, Scenario.catWorld).
Proof.
  destruct (proj1 (malformed_metadata_aborts Scenario.ffmpegHost ffmpeg Scenario.catWorld)
              (JObj [("image", JNum 5)]) [Scenario.catEntry]
              {| entries := []; processed := 0; updatedData := false |})
    as (message & _ & Hloop).
  - right. exists (JNum 5). split; [reflexivity |]. split; [reflexivity | discriminate].
  - exists message. exact Hloop.
Defined.

(** ** The processed counter *)

Lemma visit_rewritten_counts v verdict pass :
  processed pass ≤ processed (record pass v verdict) ≤ S (processed pass)
  ∧ (updatedData pass = false → updatedData (record pass v verdict) = true →
     processed pass < processed (record pass v verdict)).
Proof. destruct verdict; simpl; split; try lia; intros H1 H2; congruence || lia. Qed.

(** X10.  The loop hands every entry on, one for one, and its counter
    grows by at most one per entry; a pass that marked the collection as
    changed has counted at least one image. *)
Theorem processed_counts_entries (h : Host) (converter : Converter) (videos : list json) :
  ∀ pass st pass' st',
    forEach h converter videos pass st = (Ok pass', st') →
    length (entries pass') = length (entries pass) + length videos
    ∧ processed pass ≤ processed pass' ≤ processed pass + length videos
    ∧ (updatedData pass = false → updatedData pass' = true →
       processed pass < processed pass').
Proof.
  induction videos as [|video rest IH]; intros pass st pass' st' Hrun.
  - injection Hrun as <- <-. simpl. repeat split; try lia. congruence.
  - simpl in Hrun. apply bind_Ok in Hrun as ([video' verdict] & st1 & _ & Hrest).
    apply IH in Hrest as (Hlen & Hcount & Hupd).
    pose proof (visit_rewritten_counts video' verdict pass) as (Hstep & Hstrict).
    split; [| split].
    + rewrite Hlen. simpl. rewrite length_app. simpl. lia.
    + simpl. lia.
    + intros Hfalse Htrue.
      destruct (updatedData (record pass video' verdict)) eqn:Hmid.
      * specialize (Hstrict Hfalse eq_refl). lia.
      * specialize (Hupd eq_refl Htrue). lia.
Qed.

Lemma processed_counts_entries_witness :
  ∃ pass' st',
    forEach Scenario.ffmpegHost ffmpeg [Scenario.ghostEntry; Scenario.catEntry]
      {| entries := []; processed := 0; updatedData := false |} Scenario.ghostWorld
    = (Ok pass', st')
    ∧ length (entries pass') = 2 ∧ processed pass' ≤ 2.
Proof.
  eexists. eexists. split; [vm_compute; reflexivity |].
  destruct (processed_counts_entries Scenario.ffmpegHost ffmpeg
              [Scenario.ghostEntry; Scenario.catEntry]
              {| entries := []; processed := 0; updatedData := false |} Scenario.ghostWorld
              _ _ ltac:(vm_compute; reflexivity)) as (Hlen & [_ Hcount] & _).
  split; [exact Hlen | exact Hcount].
Defined.

(** ** Backend selection *)

Lemma commandExists_run h command st :
  commandExists h command st
  = (Ok (bool_decide (status (spawnSync h "sh" ["-lc"; "command -v " +:+ command] (disk st))
                      = Some 0%Z)),
     {| disk := after (spawnSync h "sh" ["-lc"; "command -v " +:+ command] (disk st));
        trace := trace st ++ [probe command] |}).
Proof. reflexivity. Qed.

(** X11.  Backend selection is a fixed priority chain of availability
    probes and nothing else.  It probes ffmpeg first and, when that probe
    succeeds, selects ffmpeg without probing further, whatever else is
    installed.  Otherwise it probes sips, and cwebp only if sips is there;
    it selects the pair exactly when both probes succeed and throws
    otherwise.  No command but the shell of the probes is spawned. *)
Theorem pickConverter_priority (h : Host) (st : State) :
  let r1 := spawnSync h "sh" ["-lc"; "command -v ffmpeg"] (disk st) in
  let r2 := spawnSync h "sh" ["-lc"; "command -v sips"] (after r1) in
  let r3 := spawnSync h "sh" ["-lc"; "command -v cwebp"] (after r2) in
  (status r1 = Some 0%Z →
   pickConverter h st
   = (Ok ffmpeg, {| disk := after r1; trace := trace st ++ [probe "ffmpeg"] |}))
  ∧ (status r1 ≠ Some 0%Z → status r2 ≠ Some 0%Z →
     pickConverter h st
     = (Throw Scenario.noConverter,
        {| disk := after r2; trace := trace st ++ [probe "ffmpeg"; probe "sips"] |}))
  ∧ (status r1 ≠ Some 0%Z → status r2 = Some 0%Z → status r3 = Some 0%Z →
     pickConverter h st
     = (Ok sips_cwebp,
        {| disk := after r3;
           trace := trace st ++ [probe "ffmpeg"; probe "sips"; probe "cwebp"] |}))
  ∧ (status r1 ≠ Some 0%Z → status r2 = Some 0%Z → status r3 ≠ Some 0%Z →
     pickConverter h st
     = (Throw Scenario.noConverter,
        {| disk := after r3;
           trace := trace st ++ [probe "ffmpeg"; probe "sips"; probe "cwebp"] |})).
Proof.
  intros r1 r2 r3.
  assert (pickConverter h st
          = if bool_decide (status r1 = Some 0%Z)
            then (Ok ffmpeg, {| disk := after r1; trace := trace st ++ [probe "ffmpeg"] |})
            else if bool_decide (status r2 = Some 0%Z)
            then if bool_decide (status r3 = Some 0%Z)
                 then (Ok sips_cwebp,
                       {| disk := after r3;
                          trace := trace st ++ [probe "ffmpeg"; probe "sips"; probe "cwebp"] |})
                 else (Throw Scenario.noConverter,
                       {| disk := after r3;
                          trace := trace st ++ [probe "ffmpeg"; probe "sips"; probe "cwebp"] |})
            else (Throw Scenario.noConverter,
                  {| disk := after r2;
                     trace := trace st ++ [probe "ffmpeg"; probe "sips"] |})) as Heval.
  { unfold pickConverter. unfold bind at 1. rewrite commandExists_run.
    change ("command -v " +:+ "ffmpeg") with "command -v ffmpeg". fold r1.
    destruct (bool_decide (status r1 = Some 0%Z)); [reflexivity |].
    unfold bind at 1. rewrite commandExists_run. cbn [disk trace].
    change ("command -v " +:+ "sips") with "command -v sips". fold r2.
    destruct (bool_decide (status r2 = Some 0%Z)); cbn [negb].
    - unfold bind at 1. rewrite commandExists_run. cbn [disk trace].
      change ("command -v " +:+ "cwebp") with "command -v cwebp". fold r3.
      rewrite <- !app_assoc.
      destruct (bool_decide (status r3 = Some 0%Z)); reflexivity.
    - rewrite <- !app_assoc. reflexivity. }
  rewrite Heval. repeat split.
  - intros H1. rewrite (bool_decide_eq_true_2 _ H1). reflexivity.
  - intros H1 H2. rewrite (bool_decide_eq_false_2 _ H1), (bool_decide_eq_false_2 _ H2).
    reflexivity.
  - intros H1 H2 H3.
    rewrite (bool_decide_eq_false_2 _ H1), (bool_decide_eq_true_2 _ H2),
      (bool_decide_eq_true_2 _ H3). reflexivity.
  - intros H1 H2 H3.
    rewrite (bool_decide_eq_false_2 _ H1), (bool_decide_eq_true_2 _ H2),
      (bool_decide_eq_false_2 _ H3). reflexivity.
Qed.

Lemma pickConverter_priority_witness :
  fst (pickConverter (Reference.host ["ffmpeg"; "sips"; "cwebp"] []) Scenario.emptyWorld)
  = Ok ffmpeg
  ∧ fst (pickConverter (Reference.host ["sips"] []) Scenario.emptyWorld)
    = Throw Scenario.noConverter.
Proof.
  destruct (pickConverter_priority (Reference.host ["ffmpeg"; "sips"; "cwebp"] [])
              Scenario.emptyWorld) as (Hffmpeg & _).
  destruct (pickConverter_priority (Reference.host ["sips"] []) Scenario.emptyWorld)
    as (_ & _ & _ & Hhalf).
  split.
  - rewrite Hffmpeg; [reflexivity | vm_compute; reflexivity].
  - rewrite Hhalf; [reflexivity | vm_compute; discriminate | vm_compute; reflexivity
                    | vm_compute; discriminate].
Defined.

(** ** What a failed tool reports *)

Lemma isWhiteSpace_true w : w ∈ whiteSpace → isWhiteSpace w = true.
Proof. intros H. apply bool_decide_eq_true_2. exact H. Qed.

Lemma isWhiteSpace_false w : w ∉ whiteSpace → isWhiteSpace w = false.
Proof. intros H. apply bool_decide_eq_false_2. exact H. Qed.

(** A white-space code point neither begins nor ends with an ASCII
    character that is not white space. *)
Lemma whiteSpace_ends w :
  w ∈ whiteSpace →
  (∀ c rest, w = String c rest → ¬ inkChar c)
  ∧ (∀ c, lastChar w = Some c → ¬ inkChar c).
Proof.
  intros Hw. apply list_elem_of_In in Hw. vm_compute in Hw.
  repeat (destruct Hw as [<- | Hw]); [.. | destruct Hw];
    (split;
     [intros c rest [= <- _] [Hlt Hink]
     | intros c Hlast [Hlt Hink]; vm_compute in Hlast; injection Hlast as <-];
     first [vm_compute in Hink; discriminate Hink | vm_compute in Hlt; lia]).
Qed.

Lemma trimStart_eq s :
  trimStart s
  = match s with
    | String a r1 =>
        if isWhiteSpace (String a "") then trimStart r1
        else
          match r1 with
          | String b r2 =>
              if isWhiteSpace (String a (String b "")) then trimStart r2
              else
                match r2 with
                | String c r3 =>
                    if isWhiteSpace (String a (String b (String c ""))) then trimStart r3
                    else s
                | EmptyString => s
                end
          | EmptyString => s
          end
    | EmptyString => s
    end.
Proof. destruct s; reflexivity. Qed.

Lemma trimEnd_cons c rest :
  trimEnd (String c rest)
  = if isWhiteSpace (String c (trimEnd rest)) then "" else String c (trimEnd rest).
Proof. reflexivity. Qed.

Lemma trimStart_white w rest : w ∈ whiteSpace → trimStart (w +:+ rest) = trimStart rest.
Proof.
  intros Hw. apply list_elem_of_In in Hw. vm_compute in Hw.
  repeat (destruct Hw as [<- | Hw]); [.. | destruct Hw];
    rewrite ?append_cons, append_empty_l; rewrite trimStart_eq; reflexivity.
Qed.

Lemma trimEnd_white w rest : w ∈ whiteSpace → trimEnd rest = "" → trimEnd (w +:+ rest) = "".
Proof.
  intros Hw Hrest. apply list_elem_of_In in Hw. vm_compute in Hw.
  repeat (destruct Hw as [<- | Hw]); [.. | destruct Hw];
    rewrite ?append_cons, append_empty_l; rewrite ?trimEnd_cons, Hrest; reflexivity.
Qed.

Lemma trimStart_blank (lead rest : string) :
  blank lead → trimStart (lead +:+ rest) = trimStart rest.
Proof.
  induction 1 as [|w s Hw _ IH]; [reflexivity |].
  rewrite append_assoc, trimStart_white by assumption. exact IH.
Qed.

Lemma trimEnd_blank (tail : string) : blank tail → trimEnd tail = "".
Proof.
  induction 1 as [|w s Hw _ IH]; [reflexivity |].
  apply trimEnd_white; assumption.
Qed.

Lemma trimEnd_append_blank (s tail : string) :
  blank tail → trimEnd (s +:+ tail) = trimEnd s.
Proof.
  intros Hall. induction s as [|c s IH].
  - rewrite append_empty_l. apply trimEnd_blank. assumption.
  - rewrite append_cons, !trimEnd_cons, IH. reflexivity.
Qed.

(** The bytes of a white-space code point: a first byte, then
    continuation bytes. *)
Lemma whiteSpace_bytes w :
  w ∈ whiteSpace →
  match w with
  | String a "" => continuation a = false
  | String a (String b "") => continuation a = false ∧ continuation b = true
  | String a (String b (String c "")) =>
      continuation a = false ∧ continuation b = true ∧ continuation c = true
  | _ => False
  end.
Proof.
  intros Hw. apply list_elem_of_In in Hw. vm_compute in Hw.
  repeat (destruct Hw as [<- | Hw]); [.. | destruct Hw]; vm_compute; auto.
Qed.

(** Text that does not begin with white space is not touched from the
    front, whatever white space follows it. *)
Lemma trimStart_bare core tail :
  bare core → blank tail → trimStart (core +:+ tail) = core +:+ tail.
Proof.
  intros (Hne & Hstart & _) Htail.
  assert (∀ w rest, core = w +:+ rest → isWhiteSpace w = false) as Hfront.
  { intros w rest Hcore. apply isWhiteSpace_false. intros Hw.
    exact (Hstart w rest Hw Hcore). }
  assert (∀ t rest, tail = String t rest → continuation t = false) as Hlead.
  { intros t rest Htl. destruct Htail as [|w s Hw _]; [discriminate Htl |].
    pose proof (whiteSpace_bytes w Hw) as Hbytes.
    destruct w as [|a [|b [|c [|]]]]; try contradiction;
      rewrite append_cons in Htl; injection Htl as <- _; tauto. }
  assert (∀ a t, continuation t = false → isWhiteSpace (String a (String t "")) = false)
    as Htwo.
  { intros a t Ht. apply isWhiteSpace_false. intros Hw.
    apply whiteSpace_bytes in Hw as [_ Hc]. congruence. }
  assert (∀ a t c, continuation t = false
                   → isWhiteSpace (String a (String t (String c ""))) = false) as Hmid.
  { intros a t c Ht. apply isWhiteSpace_false. intros Hw.
    apply whiteSpace_bytes in Hw as (_ & Hc & _). congruence. }
  assert (∀ a b t, continuation t = false
                   → isWhiteSpace (String a (String b (String t ""))) = false) as Hlast.
  { intros a b t Ht. apply isWhiteSpace_false. intros Hw.
    apply whiteSpace_bytes in Hw as (_ & _ & Hc). congruence. }
  destruct core as [|a r]; [contradiction |].
  rewrite append_cons, trimStart_eq.
  rewrite (Hfront (String a "") r eq_refl).
  destruct r as [|b r2].
  - rewrite append_empty_l. destruct tail as [|t tail']; [reflexivity |].
    pose proof (Hlead t tail' eq_refl) as Ht. rewrite (Htwo a t Ht).
    destruct tail' as [|c tail'']; [reflexivity |].
    rewrite (Hmid a t c Ht). reflexivity.
  - rewrite append_cons. rewrite (Hfront (String a (String b "")) r2 eq_refl).
    destruct r2 as [|c r3].
    + rewrite append_empty_l. destruct tail as [|t tail']; [reflexivity |].
      rewrite (Hlast a b t (Hlead t tail' eq_refl)). reflexivity.
    + rewrite append_cons.
      rewrite (Hfront (String a (String b (String c ""))) r3 eq_refl). reflexivity.
Qed.

(** Text that does not end with white space is not touched from the
    back. *)
Lemma trimEnd_bare core :
  (∀ w rest, w ∈ whiteSpace → core ≠ rest +:+ w) → trimEnd core = core.
Proof.
  induction core as [|x core IH]; [reflexivity |].
  intros Hend. rewrite trimEnd_cons, IH.
  - rewrite isWhiteSpace_false; [reflexivity |].
    intros Hw. exact (Hend _ "" Hw eq_refl).
  - intros w rest Hw ->. exact (Hend w (String x rest) Hw eq_refl).
Qed.

(** Text between white space comes out of [trim] bare. *)
Lemma trim_core (lead core tail : string) :
  blank lead → blank tail → bare core → trim (lead +:+ core +:+ tail) = core.
Proof.
  intros Hlead Htail Hcore. unfold trim.
  rewrite trimStart_blank by assumption.
  rewrite trimStart_bare by assumption.
  rewrite trimEnd_append_blank by assumption.
  apply trimEnd_bare. destruct Hcore as (_ & _ & Hend). exact Hend.
Qed.

Lemma trim_blank (s : string) : blank s → trim s = "".
Proof.
  intros Hall. unfold trim.
  rewrite <- (append_empty_r s), trimStart_blank by assumption. reflexivity.
Qed.

(** A text that begins and ends with ASCII characters other than white
    space is bare. *)
Lemma bare_ascii core first rest last :
  core = String first rest → inkChar first →
  lastChar core = Some last → inkChar last →
  bare core.
Proof.
  intros Hcore Hfirst Hlast Hink.
  split; [rewrite Hcore; discriminate |]. split.
  - intros w tail Hw Heq.
    pose proof (whiteSpace_bytes w Hw) as Hbytes.
    destruct w as [|a w']; [contradiction |].
    rewrite Hcore, append_cons in Heq. injection Heq as -> _.
    exact (proj1 (whiteSpace_ends _ Hw) a w' eq_refl Hfirst).
  - intros w front Hw Heq.
    pose proof (whiteSpace_bytes w Hw) as Hbytes.
    assert (w ≠ "") as Hne by (intros ->; contradiction).
    rewrite Heq, lastChar_append in Hlast by assumption.
    exact (proj2 (whiteSpace_ends _ Hw) last Hlast Hink).
Qed.

(** X12.  What [runCommand] throws when the tool does not exit with
    status 0: the command name, [" failed: "] and the tool's standard
    error stripped of the white space around it, where white space is
    every code point [String.prototype.trim] strips: the ASCII ones, the
    Unicode space separators, the line and paragraph separators and the
    byte order mark.  When the tool wrote nothing but white space, or
    there is no standard error at all, the text
    [Unknown conversion error] takes its place. *)
Theorem runCommand_failure_message (h : Host) (command : string) (args : list string)
    (st : State) :
  let r := spawnSync h command args (disk st) in
  let st' := {| disk := after r; trace := trace st ++ [Spawn command args] |} in
  status r ≠ Some 0%Z →
  (∀ lead core tail,
     stderr r = Some (lead +:+ core +:+ tail) →
     blank lead →
     blank tail →
     bare core →
     runCommand h command args st = (Throw (command +:+ " failed: " +:+ core), st'))
  ∧ (stderr r = None ∨ (∃ s, stderr r = Some s ∧ blank s) →
     runCommand h command args st
     = (Throw (command +:+ " failed: Unknown conversion error"), st')).
Proof.
  intros r st' Hbad.
  assert (runCommand h command args st
          = (Throw (command +:+ " failed: "
                    +:+ match trim <$> stderr r with
                        | Some (String c s) => String c s
                        | _ => "Unknown conversion error"
                        end), st')) as Hrun.
  { unfold runCommand, bind, spawn. fold r.
    rewrite bool_decide_eq_false_2 by assumption. reflexivity. }
  rewrite Hrun. split.
  - intros lead core tail Herr Hlead Htail Hcore.
    rewrite Herr. cbn [fmap option_fmap option_map].
    rewrite (trim_core lead core tail) by assumption.
    destruct core as [|c core']; [destruct Hcore as (Hne & _); contradiction |].
    reflexivity.
  - intros [Hnone | (s & Herr & Hblank)].
    + rewrite Hnone. reflexivity.
    + rewrite Herr. cbn [fmap option_fmap option_map].
      rewrite (trim_blank s Hblank). reflexivity.
Qed.

Lemma runCommand_failure_message_witness :
  fst (runCommand Demo.paddedHost "errtool" [] Scenario.catWorld)
  = Throw "errtool failed: boom".
Proof.
  assert (∀ w, isWhiteSpace w = true → w ∈ whiteSpace) as Hmem.
  { intros w Hw. unfold isWhiteSpace in Hw. apply bool_decide_eq_true in Hw. exact Hw. }
  assert (∀ w, isWhiteSpace w = true → blank w) as Hone.
  { intros w Hw. rewrite <- (append_empty_r w).
    apply blank_cons; [apply Hmem; exact Hw | apply blank_nil]. }
  destruct (runCommand_failure_message Demo.paddedHost "errtool" [] Scenario.catWorld
              ltac:(vm_compute; discriminate)) as [Hcore _].
  rewrite (Hcore (utf8 0xA0) "boom" (utf8 0x2029 +:+ Reference.newline)).
  - reflexivity.
  - reflexivity.
  - apply Hone. vm_compute. reflexivity.
  - apply blank_cons; [apply Hmem; vm_compute; reflexivity |].
    apply Hone. vm_compute. reflexivity.
  - apply (bare_ascii "boom" "b"%char "oom" "m"%char); [reflexivity | | reflexivity |];
      (split; [vm_compute; lia | vm_compute; reflexivity]).
Defined.

(** ** The detector on a path it cannot read *)

(** X13.  The detector has no classification for a path it cannot read:
    on a path that does not exist, or exists but cannot be opened, it
    throws and leaves the state alone; it never answers [other] there. *)
Theorem detector_throws_when_unreadable (filePath : string) (st : State) :
  files (disk st) !! filePath = None
  ∨ (∃ f, files (disk st) !! filePath = Some f ∧ readable f = false) →
  ∃ message,
    detectImageType filePath st = (Throw message, st)
    ∧ readSignature filePath 8 st = (Throw message, st).
Proof.
  intros [Hnone | (f & Hf & Hr)];
    unfold detectImageType, isPng, readSignature, readBytes, bind.
  - rewrite Hnone. eexists. split; reflexivity.
  - rewrite Hf, Hr. eexists. split; reflexivity.
Qed.

Lemma detector_throws_when_unreadable_witness :
  ∃ message,
    detectImageType "/site/src/assets/images/locked.png" Scenario.lockedWorld
    = (Throw message, Scenario.lockedWorld).
Proof.
  destruct (detector_throws_when_unreadable "/site/src/assets/images/locked.png"
              Scenario.lockedWorld) as (message & Hthrow & _).
  - right. eexists. split; vm_compute; reflexivity.
  - exists message. exact Hthrow.
Defined.

(** ** The build hook *)

Lemma getVideosMtime_run h st : getVideosMtime h st = (Ok (seenMtime h st), st).
Proof.
  unfold getVideosMtime, statSync_mtimeMs, seenMtime.
  destruct (files (disk st) !! videosPath h); reflexivity.
Qed.

Lemma onBefore_unchanged h execPath lastVideosMtime st :
  seenMtime h st = lastVideosMtime →
  onBefore h execPath lastVideosMtime st = (Ok tt, lastVideosMtime, st).
Proof.
  intros Hsame. unfold onBefore. rewrite getVideosMtime_run, Hsame, Z.eqb_refl. reflexivity.
Qed.

Lemma onBefore_changed h execPath lastVideosMtime st :
  seenMtime h st ≠ lastVideosMtime →
  onBefore h execPath lastVideosMtime st
  = (if bool_decide (status (spawnSync h execPath [processorPath h] (disk st)) = Some 0%Z)
     then Ok tt
     else Throw "Image processing failed while handling videos.json.",
     seenMtime h st,
     {| disk := after (spawnSync h execPath [processorPath h] (disk st));
        trace := trace st ++ [Spawn execPath [processorPath h]] |}).
Proof.
  intros Hdiff. unfold onBefore. rewrite getVideosMtime_run.
  rewrite (proj2 (Z.eqb_neq _ _) Hdiff).
  unfold runImageProcessor, bind, spawn.
  destruct (bool_decide _); reflexivity.
Qed.

(** X14.  The handler runs the script exactly when the metadata file's
    modification time (0 when the file is missing) differs from the one
    recorded: an unchanged time spawns nothing and changes nothing; a
    changed one spawns the script once, and the handler throws unless the
    child exits with status 0.  Either way the time recorded afterwards is
    the one seen at the start of the pass, which is recorded before the
    child runs and so also when the child fails. *)
Theorem hook_runs_on_change (h : Host) (execPath : string) (lastVideosMtime : Z)
    (st : State) :
  let r := spawnSync h execPath [processorPath h] (disk st) in
  snd (fst (onBefore h execPath lastVideosMtime st)) = seenMtime h st
  ∧ (seenMtime h st = lastVideosMtime →
     onBefore h execPath lastVideosMtime st = (Ok tt, lastVideosMtime, st))
  ∧ (seenMtime h st ≠ lastVideosMtime →
     snd (onBefore h execPath lastVideosMtime st)
     = {| disk := after r; trace := trace st ++ [Spawn execPath [processorPath h]] |}
     ∧ (status r = Some 0%Z → fst (fst (onBefore h execPath lastVideosMtime st)) = Ok tt)
     ∧ (status r ≠ Some 0%Z →
        fst (fst (onBefore h execPath lastVideosMtime st))
        = Throw "Image processing failed while handling videos.json.")).
Proof.
  intros r. split; [| split].
  - destruct (decide (seenMtime h st = lastVideosMtime)) as [Hsame | Hdiff].
    + rewrite (onBefore_unchanged _ _ _ _ Hsame). symmetry. exact Hsame.
    + rewrite (onBefore_changed _ _ _ _ Hdiff). reflexivity.
  - apply onBefore_unchanged.
  - intros Hdiff. rewrite (onBefore_changed _ _ _ _ Hdiff). fold r. cbn [fst snd].
    split; [reflexivity |]. split; intros Hstatus.
    + rewrite bool_decide_eq_true_2 by assumption. reflexivity.
    + rewrite bool_decide_eq_false_2 by assumption. reflexivity.
Qed.

Lemma hook_runs_on_change_witness :
  onBefore Demo.failingHost Demo.node 0 Scenario.emptyWorld = (Ok tt, 0%Z, Scenario.emptyWorld)
  ∧ fst (fst (onBefore Demo.failingHost Demo.node 0 Scenario.catWorld))
    = Throw "Image processing failed while handling videos.json.".
Proof.
  destruct (hook_runs_on_change Demo.failingHost Demo.node 0 Scenario.emptyWorld)
    as (_ & Hsame & _).
  destruct (hook_runs_on_change Demo.failingHost Demo.node 0 Scenario.catWorld)
    as (_ & _ & Hdiff).
  split.
  - apply Hsame. vm_compute. reflexivity.
  - apply Hdiff; vm_compute; discriminate.
Defined.

(** X15.  Two passes in a row.  After a pass that ran the script, with
    whatever outcome, the next pass runs it again exactly when the
    metadata file's modification time after the first pass differs from
    the one seen before it.  So a failed run is not retried while the
    file stays as it is, and a run that rewrote the metadata file is
    followed by one more run of the script. *)
Theorem hook_second_pass (h : Host) (execPath : string) (lastVideosMtime : Z)
    (st : State) :
  let first := onBefore h execPath lastVideosMtime st in
  let st1 := snd first in
  let second := onBefore h execPath (snd (fst first)) st1 in
  seenMtime h st ≠ lastVideosMtime →
  (seenMtime h st1 = seenMtime h st → second = (Ok tt, seenMtime h st, st1))
  ∧ (seenMtime h st1 ≠ seenMtime h st →
     trace (snd second) = trace st1 ++ [Spawn execPath [processorPath h]]
     ∧ snd (fst second) = seenMtime h st1).
Proof.
  intros first st1 second Hdiff. subst second st1 first.
  rewrite (onBefore_changed _ _ _ _ Hdiff). cbn [fst snd]. split.
  - intros Hsame. apply onBefore_unchanged. exact Hsame.
  - intros Hchanged. rewrite (onBefore_changed _ _ _ _ Hchanged). split; reflexivity.
Qed.

Lemma hook_second_pass_witness :
  let failed := onBefore Demo.failingHost Demo.node 0 Scenario.catWorld in
  let rewrote := onBefore Demo.rewritingHost Demo.node 0 Scenario.catWorld in
  onBefore Demo.failingHost Demo.node (snd (fst failed)) (snd failed)
  = (Ok tt, 50%Z, snd failed)
  ∧ trace (snd (onBefore Demo.rewritingHost Demo.node (snd (fst rewrote)) (snd rewrote)))
    = trace (snd rewrote) ++ [Spawn Demo.node ["/site/scripts/process-images.mjs"]].
Proof.
  intros failed rewrote.
  destruct (hook_second_pass Demo.failingHost Demo.node 0 Scenario.catWorld
              ltac:(vm_compute; discriminate)) as [Hsame _].
  destruct (hook_second_pass Demo.rewritingHost Demo.node 0 Scenario.catWorld
              ltac:(vm_compute; discriminate)) as [_ Hchanged].
  split.
  - apply Hsame. vm_compute. reflexivity.
  - apply Hchanged. vm_compute. discriminate.
Defined.

(** ** A settled collection *)

Lemma visit_settled h converter video st :
  settled h st video → visit h converter video st = (Ok (video, Kept), st).
Proof.
  intros (image & f & Himage & Hne & Hf & Hr & Hclass & Hwebp & Hjpg & Hi & Hw).
  destruct (visit_up_to_date h converter video image f st Himage Hne Hf Hr Hclass Hwebp Hjpg)
    as (video' & verdict & Hvisit & _ & _ & _ & Hkept).
  destruct (Hkept Hi Hw) as [-> ->]. exact Hvisit.
Qed.

Lemma forEach_settled h converter (items : list json) st :
  Forall (settled h st) items →
  ∀ pass,
    forEach h converter items pass st
    = (Ok {| entries := entries pass ++ items;
             processed := processed pass + length items;
             updatedData := updatedData pass |}, st).
Proof.
  induction 1 as [|v items Hv _ IH]; intros pass.
  - simpl. rewrite app_nil_r, Nat.add_0_r. destruct pass; reflexivity.
  - simpl. unfold bind at 1. rewrite (visit_settled _ _ _ _ Hv).
    rewrite IH. simpl. rewrite <- app_assoc, Nat.add_succ_r. reflexivity.
Qed.

(** X16.  A settled collection is a fixed point of the pipeline: when,
    on the disk the backend selection leaves, every entry already holds
    its logical paths and every derivative is present and not older than
    its source, the run spawns no converter, prints no warning, writes
    nothing and reports every entry as processed. *)
Theorem settled_collection_is_fixed_point (h : Host) (converter : Converter)
    (items : list json) (st st1 : State) :
  pickConverter h st = (Ok converter, st1) →
  readJson h (videosPath h) st1 = (Ok (JArr items), st1) →
  Forall (settled h st1) items →
  main h st
  = (Ok tt, {| disk := disk st1;
               trace := trace st1 ++ [Log (summary (length items) converter)] |}).
Proof.
  intros Hpick Hread Hsettled.
  rewrite main_stages, Hpick, Hread. cbn [fst iterate].
  rewrite (forEach_settled h converter items st1 Hsettled). reflexivity.
Qed.

Lemma settled_collection_is_fixed_point_witness :
  main Scenario.ffmpegHost Demo.settledWorld
  = (Ok tt,
     {| disk := disk (snd (pickConverter Scenario.ffmpegHost Demo.settledWorld));
        trace := [Spawn "sh" ["-lc"; "command -v ffmpeg"];
                  Log "Processed 1 PNG/JPEG image using ffmpeg."] |}).
Proof.
  apply (settled_collection_is_fixed_point Scenario.ffmpegHost ffmpeg [Demo.settledEntry]
           Demo.settledWorld (snd (pickConverter Scenario.ffmpegHost Demo.settledWorld))).
  - vm_compute. reflexivity.
  - vm_compute. reflexivity.
  - constructor; [| constructor].
    exists "/assets/images/dog.jpg", (Reference.imageFile Reference.jpegImage 100).
    cbv zeta. split; [reflexivity |]. split; [discriminate |].
    split; [vm_compute; reflexivity |]. split; [reflexivity |].
    split; [vm_compute; discriminate |].
    split; [exists (Reference.imageFile Reference.webpImage 100);
            split; [vm_compute; reflexivity | simpl; lia] |].
    split; [vm_compute; discriminate |].
    split; vm_compute; reflexivity.
Defined.

(** ** Writing and loading the metadata *)


